(** * Anime Forever: the series catalogue of [server.js]

    A shallow embedding of the two Express back ends of the repository and
    of the parts of Node they call.

    - [JSON] models [JSON.stringify(obj, null, 2)] and [JSON.parse] on the
      values the catalogue stores.
    - [Node] models the synchronous [fs] calls ([readFileSync],
      [writeFileSync], [existsSync], [unlinkSync]) on a finite map from
      paths to file contents, and [path.join].
    - [VariantA] is the file-backed server (first half of [server.js]):
      [readJson], [writeJson] and the series routes over [data/series.json].
    - [VariantB] is the in-memory server (second half of [server.js]): the
      [series] array, the [nextSeriesId] counter and the upload directory.

    Strings are byte strings (UTF-8), numbers that the code only counts with
    are [N], and the results of [Date.now()] and of
    [Math.round(Math.random()*1e9)] are inputs of the request that reads
    them. *)

From Stdlib Require Import ZArith Lia Ascii String List Bool.
From stdpp Require Import base tactics option list strings gmap pretty.

(** ** Characters *)

Abbreviation chars := list_ascii_of_string.

Definition nl : ascii := "010"%char.
Definition backslash : ascii := "\"%char.

(** The double quote, character 34, as a pattern and as a value. *)
Abbreviation dquote := (Ascii false true false false false true false false).
Definition quote : ascii := dquote.

(** ** JSON *)

Module JSON.

#[warnings="-register-all"]
Inductive value :=
| Null
| Bool (b : bool)
| Num (n : Z)
| Str (s : string)
| Arr (l : list value)
| Obj (kvs : list (string * value)).

(** JavaScript truthiness of a parsed value: [null], [false], [0] and the
    empty string are falsy, every array and object is truthy. *)
Definition truthy (v : value) : bool :=
  match v with
  | Null => false
  | Bool b => b
  | Num n => negb (n =? 0)%Z
  | Str s => negb (String.eqb s "")
  | Arr _ | Obj _ => true
  end.

(** *** Printing: [JSON.stringify(v, null, 2)] *)

Definition hex_digit (n : nat) : ascii :=
  match n with
  | 0 => "0" | 1 => "1" | 2 => "2" | 3 => "3" | 4 => "4" | 5 => "5"
  | 6 => "6" | 7 => "7" | 8 => "8" | 9 => "9" | 10 => "a" | 11 => "b"
  | 12 => "c" | 13 => "d" | 14 => "e" | _ => "f"
  end%char.

(** QuoteJSONString: the quote, the backslash and the control characters
    are escaped, every other byte is copied. *)
Definition escape_char (c : ascii) : list ascii :=
  match c with
  | dquote => [backslash; quote]
  | "\" => [backslash; backslash]
  | "008" => [backslash; "b"]
  | "012" => [backslash; "f"]
  | "010" => [backslash; "n"]
  | "013" => [backslash; "r"]
  | "009" => [backslash; "t"]
  | _ =>
      if (nat_of_ascii c <? 32)%nat
      then [backslash; "u"; "0"; "0"; hex_digit (nat_of_ascii c / 16)%nat;
            hex_digit (nat_of_ascii c mod 16)%nat]
      else [c]
  end%char.

Fixpoint escape (s : list ascii) : list ascii :=
  match s with
  | [] => []
  | c :: s' => escape_char c ++ escape s'
  end.

Definition print_string (s : string) : list ascii :=
  quote :: escape (chars s) ++ [quote].

Definition indent (n : nat) : list ascii := repeat " "%char n.

(** The items of a non-empty array or object, one per line. *)
Definition print_items {A} (pr : A → list ascii) (ind : nat) : list A → list ascii :=
  fix go (l : list A) : list ascii :=
    match l with
    | [] => []
    | [x] => pr x
    | x :: xs => pr x ++ ","%char :: nl :: indent ind ++ go xs
    end.

Definition print_block {A} (op cl : ascii) (pr : A → list ascii) (ind : nat)
    (l : list A) : list ascii :=
  match l with
  | [] => [op; cl]
  | _ => op :: nl :: indent (2 + ind) ++ print_items pr (2 + ind) l
            ++ nl :: indent ind ++ [cl]
  end.

Fixpoint print (ind : nat) (v : value) : list ascii :=
  match v with
  | Null => chars "null"
  | Bool true => chars "true"
  | Bool false => chars "false"
  | Num n => chars (pretty n)
  | Str s => print_string s
  | Arr l => print_block "["%char "]"%char (print (2 + ind)) ind l
  | Obj kvs =>
      print_block "{"%char "}"%char
        (λ kv, print_string kv.1 ++ ":"%char :: " "%char :: print (2 + ind) kv.2)
        ind kvs
  end.

Definition stringify (v : value) : string := string_of_list_ascii (print 0 v).

(** *** Parsing: [JSON.parse]

    A recursive-descent parser of the JSON grammar.  Two parts of the
    grammar are left out, and text that uses them is rejected like
    malformed text: numbers with a fraction or an exponent, and [\u]
    escapes above U+007F.  The catalogue stores neither. *)

Definition is_ws (c : ascii) : bool :=
  match c with
  | " " | "009" | "010" | "013" => true
  | _ => false
  end%char.

Fixpoint skip_ws (s : list ascii) : list ascii :=
  match s with
  | c :: r => if is_ws c then skip_ws r else s
  | [] => []
  end.

Definition hex_value (c : ascii) : option nat :=
  match c with
  | "a" | "A" => Some 10 | "b" | "B" => Some 11 | "c" | "C" => Some 12
  | "d" | "D" => Some 13 | "e" | "E" => Some 14 | "f" | "F" => Some 15
  | _ => Ascii.is_nat c
  end%char.

Definition unescape (e : ascii) : option ascii :=
  match e with
  | dquote => Some quote
  | "\" => Some backslash
  | "/" => Some "/"
  | "b" => Some "008"
  | "f" => Some "012"
  | "n" => Some "010"
  | "r" => Some "013"
  | "t" => Some "009"
  | _ => None
  end%char.

Definition code_unit (h1 h2 h3 h4 : ascii) : option ascii :=
  a ← hex_value h1; b ← hex_value h2; c ← hex_value h3; d ← hex_value h4;
  let n := (4096 * a + 256 * b + 16 * c + d)%nat in
  if (n <? 128)%nat then Some (ascii_of_nat n) else None.

(** The characters of a string literal, after its opening quote. *)
Fixpoint parse_string (s : list ascii) : option (list ascii * list ascii) :=
  match s with
  | [] => None
  | dquote :: rest => Some ([], rest)
  | "\" :: "u" :: h1 :: h2 :: h3 :: h4 :: rest =>
      c ← code_unit h1 h2 h3 h4;
      '(str, r) ← parse_string rest;
      Some (c :: str, r)
  | "\" :: e :: rest =>
      c ← unescape e;
      '(str, r) ← parse_string rest;
      Some (c :: str, r)
  | "\" :: [] => None
  | c :: rest =>
      if (nat_of_ascii c <? 32)%nat then None
      else '(str, r) ← parse_string rest; Some (c :: str, r)
  end%char.

Fixpoint parse_digits (s : list ascii) (acc : N) : N * list ascii :=
  match s with
  | c :: r =>
      match Ascii.is_nat c with
      | Some d => parse_digits r (10 * acc + N.of_nat d)%N
      | None => (acc, s)
      end
  | [] => (acc, [])
  end.

(** An integer literal; a fraction or an exponent after it is rejected. *)
Definition parse_number (s : list ascii) : option (Z * list ascii) :=
  let '(neg, s1) :=
    match s with
    | "-"%char :: r => (true, r)
    | _ => (false, s)
    end in
  let '(n, r) :=
    match s1 with
    | "0"%char :: r => (0%N, r)
    | _ => parse_digits s1 0
    end in
  match s1, r with
  | [], _ => None
  | c :: _, c' :: _ =>
      if bool_decide (Ascii.is_nat c = None) then None
      else if bool_decide (c' ∈ chars ".eE0123456789") then None
      else Some (if neg : bool then (- Z.of_N n)%Z else Z.of_N n, r)
  | c :: _, [] =>
      if bool_decide (Ascii.is_nat c = None) then None
      else Some (if neg : bool then (- Z.of_N n)%Z else Z.of_N n, r)
  end.

Fixpoint strip_prefix (lit s : list ascii) : option (list ascii) :=
  match lit, s with
  | [], _ => Some s
  | c :: lit', c' :: s' => if bool_decide (c = c') then strip_prefix lit' s' else None
  | _ :: _, [] => None
  end.

(** Assigning the members of an object literal in order: a repeated key
    keeps its first position and takes the last value. *)
Fixpoint obj_put (k : string) (v : value) (kvs : list (string * value)) :
    list (string * value) :=
  match kvs with
  | [] => [(k, v)]
  | (k', v') :: kvs' =>
      if bool_decide (k' = k) then (k', v) :: kvs' else (k', v') :: obj_put k v kvs'
  end.

Definition obj_of_members (kvs : list (string * value)) : list (string * value) :=
  foldl (λ acc kv, obj_put kv.1 kv.2 acc) [] kvs.

Fixpoint parse_value (fuel : nat) (s : list ascii) : option (value * list ascii) :=
  match fuel with
  | 0 => None
  | S fuel =>
      match skip_ws s with
      | "n" :: r => r' ← strip_prefix (chars "ull") r; Some (Null, r')
      | "t" :: r => r' ← strip_prefix (chars "rue") r; Some (Bool true, r')
      | "f" :: r => r' ← strip_prefix (chars "alse") r; Some (Bool false, r')
      | dquote :: r =>
          '(str, r') ← parse_string r; Some (Str (string_of_list_ascii str), r')
      | "[" :: r =>
          match skip_ws r with
          | "]" :: r' => Some (Arr [], r')
          | _ => '(l, r') ← parse_elements fuel r; Some (Arr l, r')
          end
      | "{" :: r =>
          match skip_ws r with
          | "}" :: r' => Some (Obj [], r')
          | _ => '(kvs, r') ← parse_members fuel r; Some (Obj (obj_of_members kvs), r')
          end
      | s' => '(n, r') ← parse_number s'; Some (Num n, r')
      end
  end%char
with parse_elements (fuel : nat) (s : list ascii) : option (list value * list ascii) :=
  match fuel with
  | 0 => None
  | S fuel =>
      '(v, r) ← parse_value fuel s;
      match skip_ws r with
      | "," :: r' => '(vs, r'') ← parse_elements fuel r'; Some (v :: vs, r'')
      | "]" :: r' => Some ([v], r')
      | _ => None
      end
  end%char
with parse_members (fuel : nat) (s : list ascii) :
    option (list (string * value) * list ascii) :=
  match fuel with
  | 0 => None
  | S fuel =>
      match skip_ws s with
      | dquote :: r =>
          '(k, r1) ← parse_string r;
          match skip_ws r1 with
          | ":" :: r2 =>
              '(v, r3) ← parse_value fuel r2;
              match skip_ws r3 with
              | "," :: r4 =>
                  '(kvs, r5) ← parse_members fuel r4;
                  Some ((string_of_list_ascii k, v) :: kvs, r5)
              | "}" :: r4 => Some ([(string_of_list_ascii k, v)], r4)
              | _ => None
              end
          | _ => None
          end
      | _ => None
      end
  end%char.

(** [JSON.parse]: one value, then only white space.  [None] is the thrown
    [SyntaxError]. *)
Definition parse (s : string) : option value :=
  match parse_value (S (length (chars s))) (chars s) with
  | Some (v, rest) => if skip_ws rest is [] then Some v else None
  | None => None
  end.

(** *** Measures used by the proofs *)

(** The number of nodes of a value: the recursion depth of the parser on
    its text never exceeds it. *)
Fixpoint size (v : value) : nat :=
  match v with
  | Arr l => S (foldr (λ x n, S (size x + n)) 0 l)
  | Obj kvs => S (foldr (λ kv n, S (size kv.2 + n)) 0 kvs)
  | _ => 1
  end.

Definition sizes (l : list value) : nat := foldr (λ x n, S (size x + n)) 0 l.

Definition msizes (kvs : list (string * value)) : nat :=
  foldr (λ kv n, S (size kv.2 + n)) 0 kvs.

(** The values the catalogue is made of: no numbers, and no object with a
    repeated key. *)
Fixpoint plain (v : value) : bool :=
  match v with
  | Num _ => false
  | Arr l => forallb plain l
  | Obj kvs => bool_decide (NoDup kvs.*1) && forallb (λ kv, plain kv.2) kvs
  | _ => true
  end.

(** [parse] undoes [print] on [x], at any indentation and before any rest. *)
Definition parses (x : value) : Prop :=
  ∀ ind fuel rest,
    size x ≤ fuel → parse_value fuel (print ind x ++ rest) = Some (x, rest).

End JSON.

(** ** The parts of Node and of JavaScript that the servers call *)

Module Node.

(** *** [fs]: a disk is a finite map from paths to file contents *)

Abbreviation Fs := (gmap string string).

Definition existsSync (p : string) (disk : Fs) : bool :=
  bool_decide (is_Some (disk !! p)).

(** [None] is the thrown ENOENT. *)
Definition readFileSync (p : string) (disk : Fs) : option string := disk !! p.

Definition writeFileSync (p data : string) (disk : Fs) : Fs := <[p := data]> disk.

(** [None] is the thrown ENOENT. *)
Definition unlinkSync (p : string) (disk : Fs) : option Fs :=
  if existsSync p disk then Some (delete p disk) else None.

(** [writeFileSync] opens its target with flag [w], which truncates it, and
    then writes the data in order.  If the process dies after [n] bytes the
    disk is left like this. *)
Definition writeFileSync_interrupted (p data : string) (n : nat) (disk : Fs) : Fs :=
  <[p := String.substring 0 n data]> disk.

(** *** [path.join] (POSIX) *)

Fixpoint split_slash (s cur : list ascii) : list string :=
  match s with
  | [] => [string_of_list_ascii (rev cur)]
  | c :: s' =>
      if bool_decide (c = "/"%char)
      then string_of_list_ascii (rev cur) :: split_slash s' []
      else split_slash s' (c :: cur)
  end.

(** [normalizeString]: the segments kept so far are in [res], last first. *)
Fixpoint normalize_segments (allowAboveRoot : bool) (segs res : list string) :
    list string :=
  match segs with
  | [] => rev res
  | seg :: segs' =>
      if bool_decide (seg = "" ∨ seg = ".") then
        normalize_segments allowAboveRoot segs' res
      else if bool_decide (seg = "..") then
        match res with
        | top :: res' =>
            if bool_decide (top = "..")
            then normalize_segments allowAboveRoot segs' (seg :: res)
            else normalize_segments allowAboveRoot segs' res'
        | [] =>
            if allowAboveRoot
            then normalize_segments allowAboveRoot segs' [seg]
            else normalize_segments allowAboveRoot segs' []
        end
      else normalize_segments allowAboveRoot segs' (seg :: res)
  end.

Definition normalize (p : string) : string :=
  if bool_decide (p = "") then "." else
  let isAbsolute := String.prefix "/" p in
  let trailingSeparator := bool_decide (last (chars p) = Some "/"%char) in
  let path :=
    String.concat "/"
      (normalize_segments (negb isAbsolute) (split_slash (chars p) []) []) in
  if bool_decide (path = "") then
    if isAbsolute then "/" else if trailingSeparator then "./" else "."
  else
    (if isAbsolute then "/" else "") +:+ path
      +:+ (if trailingSeparator then "/" else "").

Definition path_join (a b : string) : string :=
  normalize
    (if bool_decide (a = "") then b
     else if bool_decide (b = "") then a
     else a +:+ "/" +:+ b).

(** *** Strings *)

(** [String.prototype.toLowerCase], on the ASCII letters. *)
Definition lower_char (c : ascii) : ascii :=
  let n := nat_of_ascii c in
  if (65 <=? n)%nat && (n <=? 90)%nat then ascii_of_nat (n + 32) else c.

Fixpoint toLowerCase (s : string) : string :=
  match s with
  | EmptyString => EmptyString
  | String c s' => String (lower_char c) (toLowerCase s')
  end.

Definition startsWith (s pre : string) : bool := String.prefix pre s.

(** [String(n)] and [`${n}`] for a non-negative integer. *)
Definition String_ (n : N) : string := pretty n.

(** [x || d] for a request field that is a string when it is present. *)
Definition or_else (x : option string) (d : string) : string :=
  match x with
  | Some s => if bool_decide (s = "") then d else s
  | None => d
  end.

(** [!x] for such a field. *)
Definition falsy (x : option string) : bool := bool_decide (or_else x "" = "").

(** [s.length]: the number of UTF-16 code units of a string held as UTF-8
    bytes.  A continuation byte adds nothing, and the lead byte of a
    four-byte sequence stands for a surrogate pair. *)
Definition code_units (c : ascii) : nat :=
  let n := nat_of_ascii c in
  if (n <? 128)%nat then 1%nat
  else if (n <? 192)%nat then 0%nat
  else if (n <? 240)%nat then 1%nat
  else 2%nat.

Fixpoint code_unit_length (s : string) : nat :=
  match s with
  | EmptyString => 0%nat
  | String c s' => (code_units c + code_unit_length s')%nat
  end.

(** [re.test(s)] for a regular expression that is one plain word: the word
    occurs in [s]. *)
Fixpoint occurs (w s : string) : bool :=
  String.prefix w s
  || match s with
     | EmptyString => false
     | String _ s' => occurs w s'
     end.

(** [w] is a part of [s]. *)
Definition part_of (w s : string) : Prop := ∃ a b, s = a +:+ w +:+ b.

(** Only ASCII characters. *)
Definition ascii_only (s : string) : Prop :=
  Forall (λ c, (nat_of_ascii c < 128)%nat) (chars s).

(** *** Paths, as the proofs read them *)

(** The stack of [normalizeString] after these segments, last kept
    first: [normalize_segments] returns it reversed. *)
Fixpoint kept (allowAboveRoot : bool) (segs res : list string) : list string :=
  match segs with
  | [] => res
  | seg :: segs' =>
      if bool_decide (seg = "" ∨ seg = ".") then kept allowAboveRoot segs' res
      else if bool_decide (seg = "..") then
        match res with
        | top :: res' =>
            if bool_decide (top = "..")
            then kept allowAboveRoot segs' (seg :: res)
            else kept allowAboveRoot segs' res'
        | [] =>
            if allowAboveRoot
            then kept allowAboveRoot segs' [seg]
            else kept allowAboveRoot segs' []
        end
      else kept allowAboveRoot segs' (seg :: res)
  end.

(** A stack that [normalizeString] can have built. *)
Fixpoint settled (allowAboveRoot : bool) (res : list string) : Prop :=
  match res with
  | [] => True
  | top :: res' =>
      top ≠ "" ∧ top ≠ "."
      ∧ (top = ".." → allowAboveRoot = true ∧ Forall (λ s, s = "..") res')
      ∧ settled allowAboveRoot res'
  end.

Definition slash_free (s : string) : Prop := "/"%char ∉ chars s.

(** A name of a file in a directory. *)
Definition file_name (s : string) : Prop :=
  s ≠ "" ∧ s ≠ "." ∧ s ≠ ".." ∧ slash_free s.

(** What [path.extname] returns: nothing, or a dot and what follows it in
    the name of the file. *)
Definition extension (e : string) : Prop :=
  slash_free e ∧ ∀ c, head (chars e) = Some c → c = "."%char.

Definition isAbsolute (p : string) : bool := String.prefix "/" p.

Definition trailingSeparator (p : string) : bool :=
  bool_decide (last (chars p) = Some "/"%char).

(** The stack of [normalize] on [p]. *)
Definition stack (p : string) : list string :=
  kept (negb (isAbsolute p)) (split_slash (chars p) []) [].

(** The result of [normalize] from its parts. *)
Definition assemble (isAbsolute trailingSeparator : bool) (res : list string) : string :=
  let path := String.concat "/" (rev res) in
  if bool_decide (path = "") then
    if isAbsolute then "/" else if trailingSeparator then "./" else "."
  else
    (if isAbsolute then "/" else "") +:+ path
      +:+ (if trailingSeparator then "/" else "").

(** A decimal digit. *)
Definition digit (c : ascii) : Prop := Ascii.is_nat c ≠ None.

(** *** bcrypt

    The servers call [bcrypt.hash(password, rounds)], which draws a salt,
    and [bcrypt.compare(password, hash)].  Both are taken as given. *)
Class Bcrypt := {
  bcrypt_hash : string → nat → string → string;   (* password, rounds, salt *)
  bcrypt_compare : string → string → bool         (* password, hash *)
}.

End Node.

(** ** Express: middleware chains as a state monad with early exit

    A route runs its middlewares and its handler over the server state.
    Each step either goes on ([Next], what [next()] does), sends the
    response and ends the request ([Sent]), or throws ([Thrown]). *)

Module Express.

Inductive Response (J : Type) :=
| Json (status : nat) (j : J)   (* [res.status(status).json(j)] *)
| Uncaught (e : string).        (* the default error handler, status 500 *)
Arguments Json {J} status j.
Arguments Uncaught {J} e.

Definition status {J} (r : Response J) : nat :=
  match r with
  | Json st _ => st
  | Uncaught _ => 500
  end.

Inductive outcome (J A : Type) :=
| Next (a : A)
| Sent (r : Response J)
| Thrown (e : string).
Arguments Next {J A} a.
Arguments Sent {J A} r.
Arguments Thrown {J A} e.

Definition handler (St J A : Type) : Type := St → outcome J A * St.

Section Monad.
Context {St J : Type}.

Definition ret {A} (a : A) : handler St J A := λ st, (Next a, st).

Definition bind {A B} (f : A → handler St J B) (m : handler St J A) :
    handler St J B :=
  λ st,
    match m st with
    | (Next a, st') => f a st'
    | (Sent r, st') => (Sent r, st')
    | (Thrown e, st') => (Thrown e, st')
    end.

(** [return res.status(st).json(j)] *)
Definition send {A} (st : nat) (j : J) : handler St J A :=
  λ s, (Sent (Json st j), s).

Definition throw {A} (e : string) : handler St J A := λ s, (Thrown e, s).

Definition get : handler St J St := λ s, (Next s, s).

Definition put (s : St) : handler St J unit := λ _, (Next tt, s).

(** [try { body } catch (e) { recover e }] *)
Definition try_catch {A} (body : handler St J A) (recover : string → handler St J A) :
    handler St J A :=
  λ st,
    match body st with
    | (Thrown e, st') => recover e st'
    | r => r
    end.

(** A whole route: what the client receives and the state left behind. *)
Definition serve (route : handler St J Empty_set) (st : St) : Response J * St :=
  match route st with
  | (Next a, _) => match a with end
  | (Sent r, st') => (r, st')
  | (Thrown e, st') => (Uncaught e, st')
  end.
End Monad.

#[global] Instance handler_ret {St J} : MRet (handler St J) := @ret St J.
#[global] Instance handler_bind {St J} : MBind (handler St J) := @bind St J.

End Express.

(** ** Variant A: the file-backed server

    Lines 1-207 of [server.js].  The state of the server is the disk: the
    catalogue lives in [data/series.json] and every route reads it and
    writes it back whole. *)

Module VariantA.
Import Node Express.

(** The process: the directory of [server.js] and the environment. *)
Record Process := {
  __dirname : string;
  env_ADMIN_USERNAME : option string
}.

Section Server.
Variable proc : Process.

Definition DATA_DIR : string := path_join (__dirname proc) "data".
Definition SERIES_FILE : string := path_join DATA_DIR "series.json".
Definition UPLOAD_DIR : string := path_join (__dirname proc) "uploads".
Definition ADMIN_USERNAME : string :=
  or_else (env_ADMIN_USERNAME proc) "AnimeForever-admin".

(** *** Records *)

Record Episode := {
  ep_id : string;
  ep_title : string;
  ep_type : string;
  ep_src : string;
  ep_pseudo : string;
  ep_fileName : option string       (* only on uploaded episodes *)
}.

Record Series := {
  series_id : string;
  series_name : string;
  series_desc : string;
  series_image : string;
  series_pseudo : string;
  series_episodes : list Episode
}.

(** The objects as [JSON.stringify] sees them, properties in the order in
    which the object literals of the source list them. *)
Definition episode_json (e : Episode) : JSON.value :=
  JSON.Obj
    ([("id", JSON.Str (ep_id e)); ("title", JSON.Str (ep_title e));
      ("type", JSON.Str (ep_type e)); ("src", JSON.Str (ep_src e));
      ("pseudo", JSON.Str (ep_pseudo e))]
     ++ match ep_fileName e with
        | Some f => [("fileName", JSON.Str f)]
        | None => []
        end).

Definition series_json (s : Series) : JSON.value :=
  JSON.Obj
    [("id", JSON.Str (series_id s)); ("name", JSON.Str (series_name s));
     ("desc", JSON.Str (series_desc s)); ("image", JSON.Str (series_image s));
     ("pseudo", JSON.Str (series_pseudo s));
     ("episodes", JSON.Arr (episode_json <$> series_episodes s))].

Definition collection_json (c : list Series) : JSON.value :=
  JSON.Arr (series_json <$> c).

(** Reading the records back from a parsed value: property access by
    name.  [None] when the value is not a catalogue of such records. *)
Fixpoint prop (k : string) (kvs : list (string * JSON.value)) : option JSON.value :=
  match kvs with
  | [] => None
  | (k', v) :: kvs' => if String.eqb k' k then Some v else prop k kvs'
  end.

Definition str_prop (k : string) (kvs : list (string * JSON.value)) : option string :=
  match prop k kvs with
  | Some (JSON.Str s) => Some s
  | _ => None
  end.

Definition json_episode (v : JSON.value) : option Episode :=
  match v with
  | JSON.Obj kvs =>
      i ← str_prop "id" kvs; t ← str_prop "title" kvs; ty ← str_prop "type" kvs;
      s ← str_prop "src" kvs; p ← str_prop "pseudo" kvs;
      f ← match prop "fileName" kvs with
          | None => Some None
          | Some (JSON.Str f) => Some (Some f)
          | Some _ => None
          end;
      Some {| ep_id := i; ep_title := t; ep_type := ty; ep_src := s;
              ep_pseudo := p; ep_fileName := f |}
  | _ => None
  end.

Definition json_series (v : JSON.value) : option Series :=
  match v with
  | JSON.Obj kvs =>
      i ← str_prop "id" kvs; n ← str_prop "name" kvs; d ← str_prop "desc" kvs;
      im ← str_prop "image" kvs; p ← str_prop "pseudo" kvs;
      eps ← match prop "episodes" kvs with
            | Some (JSON.Arr l) => mapM json_episode l
            | _ => None
            end;
      Some {| series_id := i; series_name := n; series_desc := d;
              series_image := im; series_pseudo := p; series_episodes := eps |}
  | _ => None
  end.

Definition json_collection (v : JSON.value) : option (list Series) :=
  match v with
  | JSON.Arr l => mapM json_series l
  | _ => None
  end.

(** *** Persistence (lines 26-37) *)

Definition readJson (file : string) (fallback : JSON.value) (disk : Fs) : JSON.value :=
  match readFileSync file disk with
  | None => fallback
  | Some text =>
      match JSON.parse (if bool_decide (text = "") then "null" else text) with
      | None => fallback
      | Some v => if JSON.truthy v then v else fallback
      end
  end.

Definition writeJson (file : string) (obj : JSON.value) (disk : Fs) : Fs :=
  writeFileSync file (JSON.stringify obj) disk.

(** The disk when the process dies [n] bytes into the [writeFileSync] of
    [writeJson]. *)
Definition writeJson_interrupted (file : string) (obj : JSON.value) (n : nat)
    (disk : Fs) : Fs :=
  writeFileSync_interrupted file (JSON.stringify obj) n disk.

(** [if (!fs.existsSync(SERIES_FILE)) writeJson(SERIES_FILE, [])] *)
Definition startup (disk : Fs) : Fs :=
  if existsSync SERIES_FILE disk then disk
  else writeJson SERIES_FILE (JSON.Arr []) disk.

(** *** Requests and responses *)

(** What [authMiddleware] finds in the [Authorization] header; the
    signature check of [jwt.verify] is its last case distinction. *)
Inductive Authorization :=
| NoHeader
| NotTwoParts
| RejectedToken
| Bearer (username : string).

(** A file part accepted by multer, with the clock, the random draw and
    the [path.extname] that its [filename] callback reads. *)
Record Upload := {
  up_originalname : string;
  up_extname : string;
  up_data : string;
  up_now : N;
  up_random : N
}.

(** [req.file] *)
Record File := {
  originalname : string;
  filename : string;
  path : string
}.

Inductive Reply :=
| Error (error : string)        (* [{ error }] *)
| Uploaded (url : string)       (* [{ url }] *)
| Catalogue (c : JSON.value)    (* the parsed file *)
| Created (s : Series)          (* the new series *)
| Updated (s : Series)          (* [{ success: true, series }] *)
| Success.                      (* [{ success: true }] *)

Abbreviation route := (handler Fs Reply Empty_set).

(** Lines 59-72. *)
Definition authMiddleware (auth : Authorization) : handler Fs Reply string :=
  match auth with
  | NoHeader => send 401 (Error "No token")
  | NotTwoParts => send 401 (Error "Bad token")
  | RejectedToken => send 401 (Error "Invalid token")
  | Bearer username => mret username
  end.

(** Lines 73-75, on the user that [authMiddleware] left in [req.user]. *)
Definition isAdmin (username : string) : bool :=
  bool_decide (username = ADMIN_USERNAME).

(** Lines 39-47: the disk storage of multer. *)
Definition storage_filename (u : Upload) : string :=
  String_ (up_now u) +:+ "-" +:+ String_ (up_random u) +:+ up_extname u.

Definition stage (u : Upload) : File :=
  {| originalname := up_originalname u;
     filename := storage_filename u;
     path := path_join UPLOAD_DIR (storage_filename u) |}.

Definition upload_single (u : option Upload) : handler Fs Reply (option File) :=
  match u with
  | None => mret None
  | Some u =>
      λ disk, (Next (Some (stage u)), writeFileSync (path (stage u)) (up_data u) disk)
  end.

(** [const series = readJson(SERIES_FILE, [])], read as a catalogue.  On
    other JSON the property accesses of the handlers throw a [TypeError];
    the model throws it here. *)
Definition load : handler Fs Reply (list Series) :=
  λ disk,
    match json_collection (readJson SERIES_FILE (JSON.Arr []) disk) with
    | Some c => (Next c, disk)
    | None => (Thrown "TypeError", disk)
    end.

(** [writeJson(SERIES_FILE, series)] *)
Definition store (c : list Series) : handler Fs Reply unit :=
  λ disk, (Next tt, writeJson SERIES_FILE (collection_json c) disk).

Definition new_id (now random : N) : string :=
  String_ now +:+ "-" +:+ String_ random.

Definition default_title (s : Series) : string :=
  "Épisode " +:+ String_ (N.of_nat (length (series_episodes s)) + 1).

Definition push_episode (s : Series) (e : Episode) : Series :=
  {| series_id := series_id s; series_name := series_name s;
     series_desc := series_desc s; series_image := series_image s;
     series_pseudo := series_pseudo s;
     series_episodes := series_episodes s ++ [e] |}.

Definition set_image (s : Series) (image : string) : Series :=
  {| series_id := series_id s; series_name := series_name s;
     series_desc := series_desc s; series_image := image;
     series_pseudo := series_pseudo s;
     series_episodes := series_episodes s |}.

Definition set_episodes (s : Series) (eps : list Episode) : Series :=
  {| series_id := series_id s; series_name := series_name s;
     series_desc := series_desc s; series_image := series_image s;
     series_pseudo := series_pseudo s;
     series_episodes := eps |}.



(** The persisted text cannot be read back: there is no file, or
    [JSON.parse] throws on it. *)
Definition corrupt (file : string) (disk : Fs) : Prop :=
  ∀ text, readFileSync file disk = Some text → JSON.parse text = None.

(** *** Routes *)

(** [POST /api/upload], lines 109-114. *)
Definition post_upload (auth : Authorization) (upload : option Upload) : route :=
  username ← authMiddleware auth;
  file ← upload_single upload;
  match file with
  | None => send 400 (Error "No file uploaded")
  | Some f => send 200 (Uploaded ("/uploads/" +:+ filename f))
  end.

(** [GET /api/series], lines 117-120. *)
Definition get_series : route :=
  λ disk, (Sent (Json 200 (Catalogue (readJson SERIES_FILE (JSON.Arr []) disk))), disk).

(** [POST /api/series], lines 122-139. *)
Definition post_series (auth : Authorization) (name desc image : option string)
    (now random : N) : route :=
  username ← authMiddleware auth;
  if falsy name then send 400 (Error "Missing series name") else
  series ← load;
  match list_find
          (λ s, toLowerCase (series_name s) = toLowerCase (or_else name "")) series with
  | Some _ => send 400 (Error "Series already exists")
  | None =>
      let newSeries :=
        {| series_id := new_id now random;
           series_name := or_else name "";
           series_desc := or_else desc "";
           series_image := or_else image "";
           series_pseudo := username;
           series_episodes := [] |} in
      store (series ++ [newSeries]);;
      send 200 (Created newSeries)
  end.

(** The episode pushed for an upload, lines 152-154. *)
Definition uploaded_episode (username : string) (f : File) (title : option string)
    (now random : N) (s : Series) : Episode :=
  let url := "/uploads/" +:+ filename f in
  {| ep_id := new_id now random;
     ep_title := or_else title (default_title s);
     ep_type := "url";
     ep_src := url;
     ep_pseudo := username;
     ep_fileName := Some (originalname f) |}.

(** The episode pushed for a JSON body, line 161. *)
Definition linked_episode (username : string) (title type src : option string)
    (now random : N) (s : Series) : Episode :=
  {| ep_id := new_id now random;
     ep_title := or_else title (default_title s);
     ep_type := or_else type "url";
     ep_src := or_else src "";
     ep_pseudo := username;
     ep_fileName := None |}.

(** [POST /api/series/:id/episodes], lines 144-165. *)
Definition post_episode (auth : Authorization) (id : string) (upload : option Upload)
    (title type src : option string) (now random : N) : route :=
  username ← authMiddleware auth;
  file ← upload_single upload;
  series ← load;
  match list_find (λ x, series_id x = id) series with
  | None => send 404 (Error "Series not found")
  | Some (i, s) =>
      match file with
      | Some f =>
          let s' := push_episode s (uploaded_episode username f title now random s) in
          store (<[i := s']> series);;
          send 200 (Updated s')
      | None =>
          if falsy src then send 400 (Error "Missing src") else
          let s' :=
            push_episode s (linked_episode username title type src now random s) in
          store (<[i := s']> series);;
          send 200 (Updated s')
      end
  end.

(** [PUT /api/series/:id/image], lines 168-177. *)
Definition put_image (auth : Authorization) (id : string) (image : option string) : route :=
  username ← authMiddleware auth;
  series ← load;
  match list_find (λ x, series_id x = id) series with
  | None => send 404 (Error "Series not found")
  | Some (i, s) =>
      let s' := set_image s (or_else image "") in
      store (<[i := s']> series);;
      send 200 (Updated s')
  end.

(** [DELETE /api/series/:id/episodes/:epId], lines 180-191. *)
Definition delete_episode (auth : Authorization) (id epId : string) : route :=
  username ← authMiddleware auth;
  if negb (isAdmin username) then send 403 (Error "Forbidden") else
  series ← load;
  match list_find (λ x, series_id x = id) series with
  | None => send 404 (Error "Series not found")
  | Some (i, s) =>
      match list_find (λ e, ep_id e = epId) (series_episodes s) with
      | None => send 404 (Error "Episode not found")
      | Some (idx, _) =>
          let s' := set_episodes s (delete idx (series_episodes s)) in
          store (<[i := s']> series);;
          send 200 Success
      end
  end.

(** [DELETE /api/series/:id], lines 194-203. *)
Definition delete_series (auth : Authorization) (id : string) : route :=
  username ← authMiddleware auth;
  if negb (isAdmin username) then send 403 (Error "Forbidden") else
  series ← load;
  match list_find (λ x, series_id x = id) series with
  | None => send 404 (Error "Series not found")
  | Some (idx, _) =>
      store (delete idx series);;
      send 200 Success
  end.

(** *** Runs of the server *)

Inductive Request :=
| GetSeries
| PostUpload (auth : Authorization) (upload : option Upload)
| PostSeries (auth : Authorization) (name desc image : option string) (now random : N)
| PostEpisode (auth : Authorization) (id : string) (upload : option Upload)
    (title type src : option string) (now random : N)
| PutImage (auth : Authorization) (id : string) (image : option string)
| DeleteEpisode (auth : Authorization) (id epId : string)
| DeleteSeries (auth : Authorization) (id : string).

Definition route_of (r : Request) : route :=
  match r with
  | GetSeries => get_series
  | PostUpload auth upload => post_upload auth upload
  | PostSeries auth name desc image now random =>
      post_series auth name desc image now random
  | PostEpisode auth id upload title type src now random =>
      post_episode auth id upload title type src now random
  | PutImage auth id image => put_image auth id image
  | DeleteEpisode auth id epId => delete_episode auth id epId
  | DeleteSeries auth id => delete_series auth id
  end.

(** Every handler is synchronous: the requests take effect one after the
    other. *)
Definition step (disk : Fs) (r : Request) : Fs := (serve (route_of r) disk).2.

Definition run (disk : Fs) (rs : list Request) : Fs := foldl step disk rs.

(** The upload of the request, if it has one, is not stored onto the
    catalogue file.  The file names that [storage_filename] builds from a
    real [path.extname] hold no slash and are stored under [uploads/]. *)
Definition beside_catalogue (r : Request) : Prop :=
  match r with
  | PostUpload _ (Some u) | PostEpisode _ _ (Some u) _ _ _ _ _ =>
      path (stage u) ≠ SERIES_FILE
  | _ => True
  end.

(** The [Authorization] header that the middlewares of a request read;
    the listing reads none. *)
Definition credentials (r : Request) : option Authorization :=
  match r with
  | GetSeries => None
  | PostUpload auth _ | PostSeries auth _ _ _ _ _ | PostEpisode auth _ _ _ _ _ _ _
  | PutImage auth _ _ | DeleteEpisode auth _ _ | DeleteSeries auth _ => Some auth
  end.

(** The file part that [upload.single('file')] stores: the one of a request
    that [authMiddleware] lets through. *)
Definition stored_upload (r : Request) : option Upload :=
  match r with
  | PostUpload (Bearer _) (Some u) | PostEpisode (Bearer _) _ (Some u) _ _ _ _ _ => Some u
  | _ => None
  end.

(** The request carries the token of the administrator. *)
Definition by_admin (r : Request) : bool :=
  match credentials r with
  | Some (Bearer username) => isAdmin username
  | _ => false
  end.

(** [s'] is [s] with episodes added at the end and, possibly, another
    cover. *)
Definition extends (s s' : Series) : Prop :=
  series_id s' = series_id s ∧ series_name s' = series_name s
  ∧ series_desc s' = series_desc s ∧ series_pseudo s' = series_pseudo s
  ∧ series_episodes s `prefix_of` series_episodes s'.

(** The statuses that the handlers send themselves. *)
Definition sent_statuses : list nat := [200; 400; 401; 403; 404]%nat.

(** The disk once multer has stored the file part of the request. *)
Definition after_upload (r : Request) (disk : Fs) : Fs :=
  match stored_upload r with
  | Some u => writeFileSync (path (stage u)) (up_data u) disk
  | None => disk
  end.

(** [c'] holds every series of [c] at its place, extended. *)
Definition grown (c c' : list Series) : Prop :=
  ∀ i s, c !! i = Some s → ∃ s', c' !! i = Some s' ∧ extends s s'.

End Server.
End VariantA.

(** ** Variant B: the in-memory server

    Lines 208-555 of [server.js].  The catalogue is the module variable
    [series], identifiers come from the counter [nextSeriesId], and only
    the uploaded videos are on disk. *)

Module VariantB.
Import Node Express.

Section Server.
(** The directory of [server.js]. *)
Variable __dirname : string.

Definition uploadsDir : string := path_join __dirname "uploads".

(** *** Records

    An episode built from an episode spec keeps the [title] and the [src]
    of the spec as they were parsed, whatever JSON they are; [None] is
    [undefined]. *)
Record Episode := {
  ep_id : string;
  ep_title : option JSON.value;
  ep_src : option JSON.value;
  ep_pseudo : string
}.

Record Series := {
  series_id : string;
  series_name : string;
  series_desc : string;
  series_image : string;
  series_pseudo : string;
  series_episodes : list Episode
}.

(** [let series = []; let nextSeriesId = 1;] and the disk. *)
Record State := {
  series : list Series;
  nextSeriesId : N;
  disk : Fs
}.

Definition initial (d : Fs) : State :=
  {| series := []; nextSeriesId := 1; disk := d |}.

Definition set_disk (st : State) (d : Fs) : State :=
  {| series := series st; nextSeriesId := nextSeriesId st; disk := d |}.

Definition set_series (st : State) (c : list Series) : State :=
  {| series := c; nextSeriesId := nextSeriesId st; disk := disk st |}.

(** [n++] on a double: exact below 2^53, and 2^53 + 1 rounds back to 2^53. *)
Definition increment (n : N) : N := if (n <? 2 ^ 53)%N then (n + 1)%N else n.

Definition push_episode (s : Series) (e : Episode) : Series :=
  {| series_id := series_id s; series_name := series_name s;
     series_desc := series_desc s; series_image := series_image s;
     series_pseudo := series_pseudo s;
     series_episodes := series_episodes s ++ [e] |}.

Definition set_episodes (s : Series) (eps : list Episode) : Series :=
  {| series_id := series_id s; series_name := series_name s;
     series_desc := series_desc s; series_image := series_image s;
     series_pseudo := series_pseudo s;
     series_episodes := eps |}.

(** *** Requests and responses *)

Record User := {
  username : string;
  isAdmin : bool
}.

(** What [authMiddleware] finds in the [Authorization] header. *)
Inductive Authorization :=
| NoHeader
| RejectedToken
| Bearer (user : User).

(** A file part accepted by multer's [fileFilter] and size limit, with the
    clock, the random draw and the [path.extname] that its [filename]
    callback reads. *)
Record Upload := {
  up_fieldname : string;
  up_originalname : string;
  up_extname : string;
  up_data : string;
  up_now : N;
  up_random : N
}.

(** An entry of [req.files], or [req.file]. *)
Record File := {
  fieldname : string;
  originalname : string;
  filename : string;
  path : string
}.

Inductive Reply :=
| Error (error : string)     (* [{ error }] *)
| Catalogue (c : list Series)
| OneSeries (s : Series)
| OneEpisode (e : Episode)
| Success.                   (* [{ success: true }] *)

Abbreviation route := (handler State Reply Empty_set).

(** Lines 269-283. *)
Definition authMiddleware (auth : Authorization) : handler State Reply User :=
  match auth with
  | NoHeader => send 401 (Error "Token manquant")
  | RejectedToken => send 401 (Error "Token invalide")
  | Bearer user => mret user
  end.

(** Lines 286-291. *)
Definition adminMiddleware (user : User) : handler State Reply unit :=
  if negb (isAdmin user) then send 403 (Error "Accès refusé - Admin uniquement")
  else mret tt.

(** Lines 225-235: the disk storage of multer. *)
Definition storage_filename (u : Upload) : string :=
  "video-" +:+ String_ (up_now u) +:+ "-" +:+ String_ (up_random u) +:+ up_extname u.

Definition stage (u : Upload) : File :=
  {| fieldname := up_fieldname u;
     originalname := up_originalname u;
     filename := storage_filename u;
     path := path_join uploadsDir (storage_filename u) |}.

Definition write_upload (u : Upload) : handler State Reply File :=
  λ st, (Next (stage u),
         set_disk st (writeFileSync (path (stage u)) (up_data u) (disk st))).

(** [upload.any()] *)
Definition upload_any (us : list Upload) : handler State Reply (list File) :=
  mapM write_upload us.

(** [upload.single('video')] *)
Definition upload_single (u : option Upload) : handler State Reply (option File) :=
  match u with
  | None => mret None
  | Some u => f ← write_upload u; mret (Some f)
  end.

(** [fs.unlinkSync(p)] *)
Definition unlink (p : string) : handler State Reply unit :=
  λ st,
    match unlinkSync p (disk st) with
    | Some d => (Next tt, set_disk st d)
    | None => (Thrown "ENOENT", st)
    end.

(** [l.forEach(x => f(x))] *)
Fixpoint forEach {A} (f : A → handler State Reply unit) (l : list A) :
    handler State Reply unit :=
  match l with
  | [] => mret tt
  | x :: l' => f x;; forEach f l'
  end.

(** [req.files.forEach(file => fs.unlinkSync(file.path))] *)
Definition discard (files : list File) : handler State Reply unit :=
  forEach (λ file, unlink (path file)) files.

(** The same with each [unlinkSync] in its own [try], as in the [catch]
    blocks. *)
Definition discard_quietly (files : list File) : handler State Reply unit :=
  forEach (λ file, try_catch (unlink (path file)) (λ _, mret tt)) files.

(** The guarded removal of lines 458-468 and 533-543: [None] is the
    [TypeError] of [startsWith] on a [src] that is not a string. *)
Definition remove_upload (src : option JSON.value) : handler State Reply unit :=
  match src with
  | Some (JSON.Str s) =>
      if startsWith s "/uploads/" then
        λ st,
          let filePath := path_join __dirname s in
          if existsSync filePath (disk st)
          then (Next tt, set_disk st (delete filePath (disk st)))
          else (Next tt, st)
      else mret tt
  | _ => throw "TypeError"
  end.

(** *** Episode specs *)

Fixpoint prop (k : string) (kvs : list (string * JSON.value)) : option JSON.value :=
  match kvs with
  | [] => None
  | (k', v) :: kvs' => if String.eqb k' k then Some v else prop k kvs'
  end.

(** [ep.k] on a parsed value: [inl] is the [TypeError] on [null]. *)
Definition member (k : string) (ep : JSON.value) : unit + option JSON.value :=
  match ep with
  | JSON.Null => inl tt
  | JSON.Obj kvs => inr (prop k kvs)
  | _ => inr None
  end.

(** [`${v}`] *)
Fixpoint template_value (v : JSON.value) : string :=
  match v with
  | JSON.Null => "null"
  | JSON.Bool true => "true"
  | JSON.Bool false => "false"
  | JSON.Num n => pretty n
  | JSON.Str s => s
  | JSON.Arr l =>
      String.concat ","
        (map (λ x, match x with JSON.Null => "" | _ => template_value x end) l)
  | JSON.Obj _ => "[object Object]"
  end.

Definition template (v : option JSON.value) : string :=
  match v with
  | Some v => template_value v
  | None => "undefined"
  end.

Definition truthy (v : option JSON.value) : bool :=
  match v with
  | Some v => JSON.truthy v
  | None => false
  end.

(** The callback of [episodesData.map], lines 398-419: [inl] is the
    message of what it throws. *)
Definition final_episode (files : list File) (next : N) (pseudo : string)
    (idx : nat) (ep : JSON.value) : string + Episode :=
  let id := String_ next +:+ "-" +:+ String_ (N.of_nat idx + 1) in
  match member "hasFile" ep with
  | inl _ => inl "TypeError"
  | inr hasFile =>
      match member "title" ep, member "src" ep, member "index" ep with
      | inr title, inr src, inr index =>
          if truthy hasFile then
            match list_find (λ f, fieldname f = "episode_" +:+ template index) files with
            | None =>
                inl ("Fichier manquant pour l'épisode " +:+ String_ (N.of_nat idx + 1))
            | Some (_, file) =>
                inr {| ep_id := id; ep_title := title;
                       ep_src := Some (JSON.Str ("/uploads/" +:+ filename file));
                       ep_pseudo := pseudo |}
            end
          else
            inr {| ep_id := id; ep_title := title; ep_src := src; ep_pseudo := pseudo |}
      | _, _, _ => inl "TypeError"
      end
  end.

Fixpoint final_episodes (files : list File) (next : N) (pseudo : string)
    (idx : nat) (eps : list JSON.value) : string + list Episode :=
  match eps with
  | [] => inr []
  | ep :: eps' =>
      match final_episode files next pseudo idx ep with
      | inl e => inl e
      | inr e =>
          match final_episodes files next pseudo (S idx) eps' with
          | inl err => inl err
          | inr es => inr (e :: es)
          end
      end
  end.

(** [episodesData.length === 0]: [None] is the [TypeError] on [null]. *)
Definition length_is_zero (v : JSON.value) : option bool :=
  match v with
  | JSON.Null => None
  | JSON.Arr l => Some (bool_decide (l = []))
  | JSON.Str s => Some (bool_decide (s = ""))
  | JSON.Obj kvs =>
      Some (match prop "length" kvs with Some (JSON.Num 0) => true | _ => false end)
  | _ => Some false
  end.

(** *** Routes *)

(** [GET /api/series], lines 357-359. *)
Definition get_series : route :=
  λ st, (Sent (Json 200 (Catalogue (series st))), st).

(** [GET /api/series/:id], lines 361-365. *)
Definition get_one_series (id : string) : route :=
  st ← get;
  match list_find (λ x, series_id x = id) (series st) with
  | None => send 404 (Error "Série introuvable")
  | Some (_, s) => send 200 (OneSeries s)
  end.

(** [POST /api/series], lines 368-446.  The fields of the multipart body
    are strings when present. *)
Definition post_series (auth : Authorization) (uploads : list Upload)
    (pseudo name desc image episodes : option string) : route :=
  user ← authMiddleware auth;
  files ← upload_any uploads;
  try_catch
    (if falsy pseudo || falsy name then
       discard files;;
       send 400 (Error "Pseudo et nom requis")
     else
       match JSON.parse (or_else episodes "[]") with
       | None =>
           discard files;;
           send 400 (Error "Format d'épisodes invalide")
       | Some episodesData =>
           match length_is_zero episodesData with
           | None => throw "TypeError"
           | Some true =>
               discard files;;
               send 400 (Error "Au moins un épisode est requis")
           | Some false =>
               st ← get;
               match episodesData with
               | JSON.Arr eps =>
                   match final_episodes files (nextSeriesId st) (or_else pseudo "") 0 eps with
                   | inl e => throw e
                   | inr finalEpisodes =>
                       let newSeries :=
                         {| series_id := String_ (nextSeriesId st);
                            series_name := or_else name "";
                            series_desc := or_else desc "";
                            series_image := or_else image "";
                            series_pseudo := or_else pseudo "";
                            series_episodes := finalEpisodes |} in
                       put {| series := series st ++ [newSeries];
                              nextSeriesId := increment (nextSeriesId st);
                              disk := disk st |};;
                       send 200 (OneSeries newSeries)
                   end
               | _ => throw "TypeError"
               end
           end
       end)
    (λ e,
       discard_quietly files;;
       send 500 (Error (or_else (Some e) "Erreur serveur"))).

(** [DELETE /api/series/:id], lines 449-473. *)
Definition delete_series (auth : Authorization) (id : string) : route :=
  user ← authMiddleware auth;
  adminMiddleware user;;
  st ← get;
  match list_find (λ s, series_id s = id) (series st) with
  | None => send 404 (Error "Série introuvable")
  | Some (idx, seriesToDelete) =>
      forEach (λ ep, remove_upload (ep_src ep)) (series_episodes seriesToDelete);;
      st' ← get;
      put (set_series st' (delete idx (series st')));;
      send 200 Success
  end.

(** [POST /api/series/:id/episodes], lines 476-516. *)
Definition post_episode (auth : Authorization) (id : string) (upload : option Upload)
    (title url pseudo : option string) : route :=
  user ← authMiddleware auth;
  file ← upload_single upload;
  try_catch
    (st ← get;
     match list_find (λ s, series_id s = id) (series st) with
     | None =>
         match file with
         | Some f => unlink (path f)
         | None => mret tt
         end;;
         send 404 (Error "Série introuvable")
     | Some (i, seriesObj) =>
         let epNumber := (N.of_nat (length (series_episodes seriesObj)) + 1)%N in
         match
           match file with
           | Some f => Some ("/uploads/" +:+ filename f)
           | None => if falsy url then None else Some (or_else url "")
           end
         with
         | None => send 400 (Error "Fichier ou URL requis")
         | Some src =>
             let newEpisode :=
               {| ep_id := series_id seriesObj +:+ "-" +:+ String_ epNumber;
                  ep_title :=
                    Some (JSON.Str (or_else title ("Épisode " +:+ String_ epNumber)));
                  ep_src := Some (JSON.Str src);
                  ep_pseudo := or_else pseudo (username user) |} in
             put (set_series st (<[i := push_episode seriesObj newEpisode]> (series st)));;
             send 200 (OneEpisode newEpisode)
         end
     end)
    (λ _,
       match file with
       | Some f => try_catch (unlink (path f)) (λ _, mret tt)
       | None => mret tt
       end;;
       send 500 (Error "Erreur serveur")).

(** [DELETE /api/series/:seriesId/episodes/:episodeId], lines 519-547. *)
Definition delete_episode (auth : Authorization) (seriesId episodeId : string) : route :=
  user ← authMiddleware auth;
  adminMiddleware user;;
  st ← get;
  match list_find (λ s, series_id s = seriesId) (series st) with
  | None => send 404 (Error "Série introuvable")
  | Some (i, seriesObj) =>
      match list_find (λ ep, ep_id ep = episodeId) (series_episodes seriesObj) with
      | None => send 404 (Error "Épisode introuvable")
      | Some (epIdx, episode) =>
          remove_upload (ep_src episode);;
          st' ← get;
          put (set_series st'
                 (<[i := set_episodes seriesObj (delete epIdx (series_episodes seriesObj))]>
                    (series st')));;
          send 200 Success
      end
  end.

(** *** Runs of the server *)

Inductive Request :=
| GetSeries
| GetOneSeries (id : string)
| PostSeries (auth : Authorization) (uploads : list Upload)
    (pseudo name desc image episodes : option string)
| PostEpisode (auth : Authorization) (id : string) (upload : option Upload)
    (title url pseudo : option string)
| DeleteSeries (auth : Authorization) (id : string)
| DeleteEpisode (auth : Authorization) (seriesId episodeId : string).

Definition route_of (r : Request) : route :=
  match r with
  | GetSeries => get_series
  | GetOneSeries id => get_one_series id
  | PostSeries auth uploads pseudo name desc image episodes =>
      post_series auth uploads pseudo name desc image episodes
  | PostEpisode auth id upload title url pseudo =>
      post_episode auth id upload title url pseudo
  | DeleteSeries auth id => delete_series auth id
  | DeleteEpisode auth seriesId episodeId => delete_episode auth seriesId episodeId
  end.

(** Node runs one handler at a time, and no handler yields before it has
    answered: the requests take effect one after the other. *)
Definition step (st : State) (r : Request) : State := (serve (route_of r) st).2.

Definition run (d : Fs) (rs : list Request) : State := foldl step (initial d) rs.

(** The files that deleting these episodes removes: the [src] that start
    with [/uploads/], joined to the directory of the server. *)
Definition removed_paths (eps : list Episode) : list string :=
  omap (λ ep, match ep_src ep with
              | Some (JSON.Str s) =>
                  if startsWith s "/uploads/" then Some (path_join __dirname s) else None
              | _ => None
              end) eps.

(** *** Invariants of a run *)

(** A step that touches nothing but the disk. *)
Definition disk_only {A} (m : handler State Reply A) : Prop :=
  ∀ st, series (m st).2 = series st ∧ nextSeriesId (m st).2 = nextSeriesId st.

(** [st'] has the counter of [st] and no series identifier that [st] has not. *)
Definition keeps (st st' : State) : Prop :=
  nextSeriesId st' = nextSeriesId st
  ∧ ∀ s', s' ∈ series st' → ∃ s, s ∈ series st ∧ series_id s' = series_id s.

(** Every identifier in the catalogue is the decimal of a number below the
    counter. *)
Definition ids_below (st : State) : Prop :=
  ∀ s, s ∈ series st → ∃ k, series_id s = String_ k ∧ (k < nextSeriesId st)%N.

(** The [Authorization] header that the middlewares of a request read. *)
Definition credentials (r : Request) : option Authorization :=
  match r with
  | GetSeries | GetOneSeries _ => None
  | PostSeries auth _ _ _ _ _ _ | PostEpisode auth _ _ _ _ _
  | DeleteSeries auth _ | DeleteEpisode auth _ _ => Some auth
  end.

(** The request carries a token whose payload says [isAdmin]. *)
Definition by_admin (r : Request) : bool :=
  match credentials r with
  | Some (Bearer user) => isAdmin user
  | _ => false
  end.

(** The disk once multer has stored these file parts, in order. *)
Definition stored (uploads : list Upload) (d : Fs) : Fs :=
  foldl (λ d u, writeFileSync (path (stage u)) (up_data u) d) d uploads.

(** The file parts go to paths that are free and differ from one another. *)
Definition fresh (uploads : list Upload) (d : Fs) : Prop :=
  NoDup ((λ u, path (stage u)) <$> uploads)
  ∧ ∀ u, u ∈ uploads → d !! path (stage u) = None.

(** [s'] is [s] with episodes added at the end. *)
Definition extends (s s' : Series) : Prop :=
  series_id s' = series_id s ∧ series_name s' = series_name s
  ∧ series_desc s' = series_desc s ∧ series_image s' = series_image s
  ∧ series_pseudo s' = series_pseudo s
  ∧ series_episodes s `prefix_of` series_episodes s'.

(** [c'] holds every series of [c] at its place, extended. *)
Definition grown (c c' : list Series) : Prop :=
  ∀ i s, c !! i = Some s → ∃ s', c' !! i = Some s' ∧ extends s s'.

(** *** The filter of multer, lines 237-254 *)

(** [const allowedTypes = /mp4|mkv|avi|webm|mov/] *)
Definition allowedTypes : list string := ["mp4"; "mkv"; "avi"; "webm"; "mov"].

Definition allowedTypes_test (s : string) : bool :=
  existsb (λ w, occurs w s) allowedTypes.

(** [fileFilter] on the [path.extname] of the original name and on the MIME
    type of the file part: [true] is [cb(null, true)], [false] is the
    error. *)
Definition fileFilter (extname mimetype : string) : bool :=
  allowedTypes_test (toLowerCase extname) && allowedTypes_test mimetype.

End Server.
End VariantB.

(** ** The accounts of the file-backed server

    Lines 17, 36 and 56-106 of [server.js]: the users are kept in
    [data/users.json].  A reply that carries a token names the payload
    that [jwt.sign] was given.  The fields of a body are strings when
    present. *)

Module AccountsA.
Import Node Express.

Section Server.
Variable proc : VariantA.Process.
Context `{Bcrypt}.

Definition USERS_FILE : string := path_join (VariantA.DATA_DIR proc) "users.json".

Record User := {
  username : string;
  passwordHash : string
}.

Definition user_json (u : User) : JSON.value :=
  JSON.Obj [("username", JSON.Str (username u));
            ("passwordHash", JSON.Str (passwordHash u))].

Definition users_json (us : list User) : JSON.value := JSON.Arr (user_json <$> us).

Definition json_user (v : JSON.value) : option User :=
  match v with
  | JSON.Obj kvs =>
      u ← VariantA.str_prop "username" kvs;
      h ← VariantA.str_prop "passwordHash" kvs;
      Some {| username := u; passwordHash := h |}
  | _ => None
  end.

Definition json_users (v : JSON.value) : option (list User) :=
  match v with
  | JSON.Arr l => mapM json_user l
  | _ => None
  end.

Inductive Reply :=
| Error (error : string)                     (* [{ error }] *)
| Token (username : string)                  (* [{ token, username }], the token of [{ username }] *)
| Me (username : string) (isAdmin : bool).   (* [{ username, isAdmin }] *)

Abbreviation route := (handler Fs Reply Empty_set).

(** Lines 36-37: both stores are created empty when they are missing. *)
Definition startup (disk : Fs) : Fs :=
  VariantA.startup proc
    (if existsSync USERS_FILE disk then disk
     else VariantA.writeJson USERS_FILE (JSON.Arr []) disk).

(** [const users = readJson(USERS_FILE, [])], read as a list of users.  On
    other JSON the property accesses of the handlers throw a [TypeError];
    the model throws it here. *)
Definition load_users : handler Fs Reply (list User) :=
  λ disk,
    match json_users (VariantA.readJson USERS_FILE (JSON.Arr []) disk) with
    | Some us => (Next us, disk)
    | None => (Thrown "TypeError", disk)
    end.

(** [writeJson(USERS_FILE, users)] *)
Definition store_users (us : list User) : handler Fs Reply unit :=
  λ disk, (Next tt, VariantA.writeJson USERS_FILE (users_json us) disk).

(** *** [POST /api/register], lines 78-90

    The handler awaits [bcrypt.hash] between reading the users and writing
    them back: other requests are served in between.  What it holds while
    it waits is the array it read and the fields of its body. *)
Record Registration := {
  snapshot : list User;
  reg_username : string;
  reg_password : string
}.

(** Lines 79-84, up to the [await]. *)
Definition register_begin (username_ password : option string) :
    handler Fs Reply Registration :=
  if falsy username_ || falsy password then send 400 (Error "Missing fields") else
  users ← load_users;
  match list_find
          (λ u, toLowerCase (username u) = toLowerCase (or_else username_ "")) users with
  | Some _ => send 400 (Error "User exists")
  | None =>
      mret {| snapshot := users; reg_username := or_else username_ "";
              reg_password := or_else password "" |}
  end.

(** Lines 85-89, once [bcrypt.hash] has drawn [salt]. *)
Definition register_end (r : Registration) (salt : string) : route :=
  let hash := bcrypt_hash (reg_password r) 10 salt in
  store_users (snapshot r ++ [{| username := reg_username r; passwordHash := hash |}]);;
  send 200 (Token (reg_username r)).

(** A registration that no other request interrupts. *)
Definition register (username_ password : option string) (salt : string) : route :=
  r ← register_begin username_ password;
  register_end r salt.

(** [POST /api/login], lines 92-102.  Nothing is written, and nothing is
    read after the [await] of [bcrypt.compare]. *)
Definition login (username_ password : option string) : route :=
  if falsy username_ || falsy password then send 400 (Error "Missing fields") else
  users ← load_users;
  match list_find
          (λ u, toLowerCase (username u) = toLowerCase (or_else username_ "")) users with
  | None => send 400 (Error "Invalid credentials")
  | Some (_, user) =>
      if bcrypt_compare (or_else password "") (passwordHash user)
      then send 200 (Token (username user))
      else send 400 (Error "Invalid credentials")
  end.

(** [authMiddleware], lines 59-72, before a handler of this module. *)
Definition authMiddleware (auth : VariantA.Authorization) : handler Fs Reply string :=
  match auth with
  | VariantA.NoHeader => send 401 (Error "No token")
  | VariantA.NotTwoParts => send 401 (Error "Bad token")
  | VariantA.RejectedToken => send 401 (Error "Invalid token")
  | VariantA.Bearer u => mret u
  end.

(** [GET /api/me], lines 104-106. *)
Definition me (auth : VariantA.Authorization) : route :=
  u ← authMiddleware auth;
  send 200 (Me u (bool_decide (u = VariantA.ADMIN_USERNAME proc))).

(** *** Interleavings

    The server with the registrations that wait for their hash. *)
Record Server := {
  disk : Fs;
  hashing : list Registration
}.

Inductive Event :=
| Register (username_ password : option string)  (* a registration arrives *)
| Hashed (k : nat) (salt : string)                (* the hash of the [k]-th waiting one is ready *)
| Login (username_ password : option string).

Definition handle (sv : Server) (e : Event) : Server :=
  match e with
  | Register u p =>
      match register_begin u p (disk sv) with
      | (Next r, d) => {| disk := d; hashing := hashing sv ++ [r] |}
      | (_, d) => {| disk := d; hashing := hashing sv |}
      end
  | Hashed k salt =>
      match hashing sv !! k with
      | Some r =>
          {| disk := (serve (register_end r salt) (disk sv)).2;
             hashing := delete k (hashing sv) |}
      | None => sv
      end
  | Login _ _ => sv
  end.

(** What the event sends, if it sends anything. *)
Definition answer (sv : Server) (e : Event) : option (Response Reply) :=
  match e with
  | Register u p =>
      match register_begin u p (disk sv) with
      | (Next _, _) => None
      | (Sent r, _) => Some r
      | (Thrown e, _) => Some (Uncaught e)
      end
  | Hashed k salt =>
      match hashing sv !! k with
      | Some r => Some (serve (register_end r salt) (disk sv)).1
      | None => None
      end
  | Login u p => Some (serve (login u p) (disk sv)).1
  end.

Definition schedule (d : Fs) (es : list Event) : Server :=
  foldl handle {| disk := d; hashing := [] |} es.




End Server.
End AccountsA.

(** ** The accounts of the in-memory server

    Lines 262-264 and 293-354 of [server.js]: the users are the module
    variable [users].  A reply that carries a token names the payload that
    [jwt.sign] was given.  The fields of a body are strings when present. *)

Module AccountsB.
Import Node Express.

Section Server.
Context `{Bcrypt}.

Record User := {
  username : string;
  password : string;      (* the hash *)
  isAdmin : bool
}.

(** [let users = [{ username: 'admin', password: bcrypt.hashSync('admin', 8),
    isAdmin: true }]], with the salt that [hashSync] drew. *)
Definition admin (salt : string) : User :=
  {| username := "admin"; password := bcrypt_hash "admin" 8 salt; isAdmin := true |}.

Definition initial (salt : string) : list User := [admin salt].

Inductive Reply :=
| Error (error : string)                        (* [{ error }] *)
| Token (username : string) (isAdmin : bool)    (* [{ token, user }], the token of [user] *)
| Me (username : string) (isAdmin : bool).      (* [{ username, isAdmin }] *)

Abbreviation route := (handler (list User) Reply Empty_set).

(** *** [POST /api/register], lines 294-324

    The handler awaits [bcrypt.hash] between looking the name up and
    pushing the user: other requests are served in between.  What it holds
    while it waits is the fields of its body. *)
Record Registration := {
  reg_username : string;
  reg_password : string
}.

(** Lines 295-312, up to the [await]. *)
Definition register_begin (username_ password_ : option string) :
    handler (list User) Reply Registration :=
  try_catch
    (if falsy username_ || falsy password_ then
       send 400 (Error "Username et password requis")
     else if (code_unit_length (or_else username_ "") <? 3)%nat then
       send 400 (Error "Le pseudo doit contenir au moins 3 caractères")
     else if (code_unit_length (or_else password_ "") <? 6)%nat then
       send 400 (Error "Le mot de passe doit contenir au moins 6 caractères")
     else
       users ← get;
       match list_find (λ u, username u = or_else username_ "") users with
       | Some _ => send 400 (Error "Ce pseudo est déjà pris")
       | None =>
           mret {| reg_username := or_else username_ "";
                   reg_password := or_else password_ "" |}
       end)
    (λ _, send 500 (Error "Erreur serveur")).

(** Lines 314-319, once [bcrypt.hash] has drawn [salt]: the user is pushed
    onto the array as it is by then. *)
Definition register_end (r : Registration) (salt : string) : route :=
  try_catch
    (users ← get;
     put (users ++ [{| username := reg_username r;
                       password := bcrypt_hash (reg_password r) 8 salt;
                       isAdmin := false |}]);;
     send 200 (Token (reg_username r) false))
    (λ _, send 500 (Error "Erreur serveur")).

(** A registration that no other request interrupts. *)
Definition register (username_ password_ : option string) (salt : string) : route :=
  r ← register_begin username_ password_;
  register_end r salt.

(** [POST /api/login], lines 326-350. *)
Definition login (username_ password_ : option string) : route :=
  try_catch
    (if falsy username_ || falsy password_ then
       send 400 (Error "Username et password requis")
     else
       users ← get;
       match list_find (λ u, username u = or_else username_ "") users with
       | None => send 401 (Error "Identifiants incorrects")
       | Some (_, user) =>
           if bcrypt_compare (or_else password_ "") (password user)
           then send 200 (Token (username user) (isAdmin user))
           else send 401 (Error "Identifiants incorrects")
       end)
    (λ _, send 500 (Error "Erreur serveur")).

(** [authMiddleware], lines 269-283, before a handler of this module. *)
Definition authMiddleware (auth : VariantB.Authorization) :
    handler (list User) Reply VariantB.User :=
  match auth with
  | VariantB.NoHeader => send 401 (Error "Token manquant")
  | VariantB.RejectedToken => send 401 (Error "Token invalide")
  | VariantB.Bearer user => mret user
  end.

(** [GET /api/me], lines 352-354. *)
Definition me (auth : VariantB.Authorization) : route :=
  user ← authMiddleware auth;
  send 200 (Me (VariantB.username user) (VariantB.isAdmin user)).

(** *** Interleavings *)

Record Server := {
  users : list User;
  hashing : list Registration
}.

Inductive Event :=
| Register (username_ password_ : option string)  (* a registration arrives *)
| Hashed (k : nat) (salt : string)                 (* the hash of the [k]-th waiting one is ready *)
| Login (username_ password_ : option string).

Definition handle (sv : Server) (e : Event) : Server :=
  match e with
  | Register u p =>
      match register_begin u p (users sv) with
      | (Next r, us) => {| users := us; hashing := hashing sv ++ [r] |}
      | (_, us) => {| users := us; hashing := hashing sv |}
      end
  | Hashed k salt =>
      match hashing sv !! k with
      | Some r =>
          {| users := (serve (register_end r salt) (users sv)).2;
             hashing := delete k (hashing sv) |}
      | None => sv
      end
  | Login _ _ => sv
  end.

(** What the event sends, if it sends anything. *)
Definition answer (sv : Server) (e : Event) : option (Response Reply) :=
  match e with
  | Register u p =>
      match register_begin u p (users sv) with
      | (Next _, _) => None
      | (Sent r, _) => Some r
      | (Thrown e, _) => Some (Uncaught e)
      end
  | Hashed k salt =>
      match hashing sv !! k with
      | Some r => Some (serve (register_end r salt) (users sv)).1
      | None => None
      end
  | Login u p => Some (serve (login u p) (users sv)).1
  end.

Definition schedule (salt : string) (es : list Event) : Server :=
  foldl handle {| users := initial salt; hashing := [] |} es.

(** Every registration is hashed before the next request arrives: each
    [Register] is followed at once by the [Hashed] of the one it left
    waiting. *)
Fixpoint one_at_a_time (es : list Event) : Prop :=
  match es with
  | [] => True
  | Register _ _ :: Hashed 0 _ :: es' => one_at_a_time es'
  | Login _ _ :: es' => one_at_a_time es'
  | _ => False
  end.

(** The name of an account that a registration made, or of one that
    waits to be made. *)
Definition member_name (n : string) : Prop :=
  n ≠ "admin" ∧ 3 ≤ code_unit_length n.

(** The first user is the initial administrator, and every other account,
    made or waiting, is one of a member. *)
Definition accounts_ok (salt : string) (sv : Server) : Prop :=
  (∃ rest, users sv = admin salt :: rest
           ∧ Forall (λ u, isAdmin u = false ∧ member_name (username u)) rest)
  ∧ Forall (λ r, member_name (reg_username r)) (hashing sv).

End Server.
End AccountsB.

(** ** Sample data for the examples *)

Module Samples.
Import Node Express.
Module A := VariantA.
Module B := VariantB.

(** A deployment. *)
Definition proc0 : A.Process :=
  {| A.__dirname := "/srv/anime-forever"; A.env_ADMIN_USERNAME := None |}.

Definition dir0 : string := "/srv/anime-forever".

Definition bob : B.User := {| B.username := "bob"; B.isAdmin := false |}.

Definition admin : B.User := {| B.username := "admin"; B.isAdmin := true |}.

Definition one_url_episode : option string :=
  Some (JSON.stringify
          (JSON.Arr
             [JSON.Obj [("title", JSON.Str "E1");
                        ("src", JSON.Str "https://cdn.example/e1.mp4")]])).

Definition video : B.Upload :=
  {| B.up_fieldname := "episode_0"; B.up_originalname := "e1.mp4";
     B.up_extname := ".mp4"; B.up_data := "bytes";
     B.up_now := 1700000000000; B.up_random := 42 |}.

Definition clip : A.Upload :=
  {| A.up_originalname := "e1.mp4"; A.up_extname := ".mp4"; A.up_data := "bytes";
     A.up_now := 1700000000000; A.up_random := 42 |}.

(** A catalogue of the file-backed variant with one series whose cover and
    whose only episode are uploads, both on disk. *)
Definition blob_series : A.Series :=
  {| A.series_id := "1700000000000-7"; A.series_name := "Naruto"; A.series_desc := "";
     A.series_image := "/uploads/1700000000001-8.png"; A.series_pseudo := "bob";
     A.series_episodes :=
       [{| A.ep_id := "1700000000003-10"; A.ep_title := "Épisode 1"; A.ep_type := "url";
           A.ep_src := "/uploads/1700000000002-9.mp4"; A.ep_pseudo := "bob";
           A.ep_fileName := Some "e1.mp4" |}] |}.

Definition blob_disk : Fs :=
  writeFileSync "/srv/anime-forever/uploads/1700000000002-9.mp4" "video"
    (writeFileSync "/srv/anime-forever/uploads/1700000000001-8.png" "cover"
       (A.writeJson (A.SERIES_FILE proc0) (A.collection_json [blob_series]) ∅)).

(** The same series in the in-memory variant, with its video on disk. *)
Definition blob_state : B.State :=
  (serve (B.post_series dir0 (B.Bearer bob) [video] (Some "bob") (Some "Naruto") None
            (Some "/uploads/cover.png")
            (Some (JSON.stringify
                     (JSON.Arr
                        [JSON.Obj [("title", JSON.Str "E1"); ("hasFile", JSON.Bool true);
                                   ("index", JSON.Num 0)]]))))
     (B.initial {[ "/srv/anime-forever/uploads/cover.png" := "cover" ]})).2.


Definition two_episodes : option string :=
  Some (JSON.stringify
          (JSON.Arr
             [JSON.Obj [("title", JSON.Str "E1"); ("hasFile", JSON.Bool true);
                        ("index", JSON.Num 0)];
              JSON.Obj [("title", JSON.Str "E2");
                        ("src", JSON.Str "https://cdn.example/e2.mp4")]])).

Definition first_creation : B.Request :=
  B.PostSeries (B.Bearer bob) [] (Some "bob") (Some "Naruto") None None one_url_episode.

(** A stand-in for bcrypt in the examples: the hash is the password. *)
#[export] Instance toy_bcrypt : Bcrypt := {|
  bcrypt_hash password rounds salt := password;
  bcrypt_compare password hash := String.eqb password hash
|}.

End Samples.

(** * Proofs *)

(** ** JSON: parsing what was printed *)

Module JSONFacts.
Import JSON.

#[local] Arguments print_items : simpl never.
#[local] Arguments print : simpl never.
#[local] Arguments indent : simpl never.
#[local] Arguments print_string : simpl never.

Ltac reassoc := repeat (rewrite <- app_assoc || rewrite <- app_comm_cons).

Lemma value_ind' (P : value → Prop) :
  P Null → (∀ b, P (Bool b)) → (∀ n, P (Num n)) → (∀ s, P (Str s)) →
  (∀ l, Forall P l → P (Arr l)) →
  (∀ kvs, Forall (λ kv, P kv.2) kvs → P (Obj kvs)) →
  ∀ v, P v.
Proof.
  intros HN HB HZ HS HA HO. fix IH 1.
  intros [ | b | n | s | l | kvs ];
    [ exact HN | apply HB | apply HZ | apply HS | apply HA | apply HO ].
  - induction l as [ | x l IHl ]; constructor; [ apply IH | exact IHl ].
  - induction kvs as [ | [k x] kvs IHl ]; constructor; [ apply IH | exact IHl ].
Qed.

Lemma skip_ws_indent n s : skip_ws (indent n ++ s) = skip_ws s.
Proof. induction n as [ | n IH ]; simpl; auto. Qed.

Lemma parse_string_escape_char c t :
  parse_string (escape_char c ++ t)
  = '(str, r) ← parse_string t; Some (c :: str, r).
Proof. destruct c as [[] [] [] [] [] [] [] []]; reflexivity. Qed.

Lemma parse_string_escape s rest :
  parse_string (escape s ++ quote :: rest) = Some (s, rest).
Proof.
  induction s as [ | c s IH ]; [ reflexivity | ].
  simpl escape. rewrite <- app_assoc, parse_string_escape_char, IH. reflexivity.
Qed.

Lemma skip_ws_idemp s : skip_ws (skip_ws s) = skip_ws s.
Proof.
  induction s as [ | c s IH ]; [ reflexivity | ].
  simpl. destruct (is_ws c) eqn:E; [ exact IH | ]. simpl. rewrite E. reflexivity.
Qed.

Lemma parse_value_ws fuel s s' :
  skip_ws s = skip_ws s' → parse_value fuel s = parse_value fuel s'.
Proof. intros H. destruct fuel; [ reflexivity | ]. simpl. rewrite H. reflexivity. Qed.

Lemma parse_elements_ws fuel s s' :
  skip_ws s = skip_ws s' → parse_elements fuel s = parse_elements fuel s'.
Proof.
  intros H. destruct fuel; [ reflexivity | ]. simpl.
  rewrite (parse_value_ws _ _ _ H). reflexivity.
Qed.

Lemma parse_members_ws fuel s s' :
  skip_ws s = skip_ws s' → parse_members fuel s = parse_members fuel s'.
Proof. intros H. destruct fuel; [ reflexivity | ]. simpl. rewrite H. reflexivity. Qed.

Lemma print_head ind v :
  plain v → ∃ c t, print ind v = c :: t ∧ is_ws c = false ∧ c ≠ "]"%char.
Proof.
  destruct v as [ | [] | n | s | [ | x l] | [ | kv kvs] ]; simpl; intros H;
    try done; eexists _, _; (split; [ reflexivity | split; [ reflexivity | discriminate ] ]).
Qed.

Lemma skip_ws_head c t : is_ws c = false → skip_ws (c :: t) = c :: t.
Proof. intros H. simpl. rewrite H. reflexivity. Qed.

Lemma parse_value_arr f r c t :
  skip_ws r = c :: t → c ≠ "]"%char →
  parse_value (S f) ("["%char :: r) = '(l, r') ← parse_elements f r; Some (Arr l, r').
Proof.
  intros H Hc. change (parse_value (S f) ("["%char :: r))
    with (match skip_ws r with
          | "]"%char :: r' => Some (Arr [], r')
          | _ => '(l, r') ← parse_elements f r; Some (Arr l, r')
          end).
  rewrite H. destruct c as [[] [] [] [] [] [] [] []]; try reflexivity; congruence.
Qed.

Lemma parse_value_obj f r c t :
  skip_ws r = c :: t → c ≠ "}"%char →
  parse_value (S f) ("{"%char :: r)
  = '(kvs, r') ← parse_members f r; Some (Obj (obj_of_members kvs), r').
Proof.
  intros H Hc. change (parse_value (S f) ("{"%char :: r))
    with (match skip_ws r with
          | "}"%char :: r' => Some (Obj [], r')
          | _ => '(kvs, r') ← parse_members f r; Some (Obj (obj_of_members kvs), r')
          end).
  rewrite H. destruct c as [[] [] [] [] [] [] [] []]; try reflexivity; congruence.
Qed.

Lemma parse_elements_eq f s :
  parse_elements (S f) s =
  '(v, r) ← parse_value f s;
  match skip_ws r with
  | ","%char :: r' => '(vs, r'') ← parse_elements f r'; Some (v :: vs, r'')
  | "]"%char :: r' => Some ([v], r')
  | _ => None
  end.
Proof. reflexivity. Qed.

Lemma print_items_cons {A} (pr : A → list ascii) k x y l :
  print_items pr k (x :: y :: l)
  = pr x ++ ","%char :: nl :: indent k ++ print_items pr k (y :: l).
Proof. reflexivity. Qed.

Lemma parse_elements_items l :
  Forall parses l → l ≠ [] →
  ∀ ind k j fuel rest, sizes l ≤ fuel →
    parse_elements fuel
      (print_items (print ind) k l ++ nl :: indent j ++ "]"%char :: rest)
    = Some (l, rest).
Proof.
  induction 1 as [ | x l Hx Hl IH ]; [ done | ]. intros _ ind k j fuel rest Hfuel.
  destruct fuel as [ | f ]; [ simpl in Hfuel; lia | ].
  rewrite parse_elements_eq. simpl in Hfuel.
  destruct l as [ | y l ].
  - change (print_items (print ind) k [x]) with (print ind x). rewrite Hx by lia. simpl. rewrite skip_ws_indent. reflexivity.
  - rewrite print_items_cons, <- app_assoc. rewrite Hx by lia. simpl.
    erewrite parse_elements_ws; last first.
    { simpl. rewrite <- app_assoc. apply skip_ws_indent. }
    rewrite IH; [ reflexivity | done | ]. fold (sizes (y :: l)) in Hfuel. lia.
Qed.

Lemma parse_members_eq f s :
  parse_members (S f) s =
  match skip_ws s with
  | dquote :: r =>
      '(k, r1) ← parse_string r;
      match skip_ws r1 with
      | ":"%char :: r2 =>
          '(v, r3) ← parse_value f r2;
          match skip_ws r3 with
          | ","%char :: r4 =>
              '(kvs, r5) ← parse_members f r4;
              Some ((string_of_list_ascii k, v) :: kvs, r5)
          | "}"%char :: r4 => Some ([(string_of_list_ascii k, v)], r4)
          | _ => None
          end
      | _ => None
      end
  | _ => None
  end.
Proof. reflexivity. Qed.

Lemma parse_member_head f k v ind tail :
  parses v → size v ≤ f →
  parse_members (S f) (print_string k ++ ":"%char :: " "%char :: print ind v ++ tail)
  = match skip_ws tail with
    | ","%char :: r4 =>
        '(kvs, r5) ← parse_members f r4; Some ((k, v) :: kvs, r5)
    | "}"%char :: r4 => Some ([(k, v)], r4)
    | _ => None
    end.
Proof.
  intros Hv Hf. rewrite parse_members_eq. unfold print_string.
  rewrite <- app_comm_cons, <- app_assoc. simpl.
  rewrite parse_string_escape. simpl.
  erewrite parse_value_ws; last first.
  { instantiate (1 := print ind v ++ tail). reflexivity. }
  rewrite Hv by exact Hf. simpl.
  rewrite string_of_list_ascii_of_string. reflexivity.
Qed.

Lemma parse_members_items kvs :
  Forall (λ kv, parses kv.2) kvs → kvs ≠ [] →
  ∀ ind k j fuel rest, msizes kvs ≤ fuel →
    parse_members fuel
      (print_items (λ kv, print_string kv.1 ++ ":"%char :: " "%char :: print ind kv.2)
         k kvs ++ nl :: indent j ++ "}"%char :: rest)
    = Some (kvs, rest).
Proof.
  induction 1 as [ | [key x] l Hx Hl IH ]; [ done | ]. intros _ ind k j fuel rest Hfuel.
  destruct fuel as [ | f ]; [ simpl in Hfuel; lia | ]. simpl in Hfuel, Hx.
  destruct l as [ | y l ].
  - change (print_items ?pr k [(key, x)]) with (pr (key, x)). cbv beta. simpl fst; simpl snd.
    reassoc.
    rewrite parse_member_head by (done || lia).
    simpl. rewrite skip_ws_indent. reflexivity.
  - rewrite print_items_cons. cbv beta. simpl fst; simpl snd.
    reassoc.
    rewrite parse_member_head by (done || lia). cbn.
    erewrite parse_members_ws; last first.
    { cbn. apply skip_ws_indent. }
    rewrite IH; [ reflexivity | done | ]. fold (msizes (y :: l)) in Hfuel. lia.
Qed.

Lemma obj_put_fresh k v kvs : k ∉ kvs.*1 → obj_put k v kvs = kvs ++ [(k, v)].
Proof.
  induction kvs as [ | [k' v'] kvs IH ]; [ reflexivity | ].
  rewrite fmap_cons, not_elem_of_cons. intros [Hne Hk]. simpl in *.
  rewrite bool_decide_eq_false_2 by congruence. rewrite IH by exact Hk. reflexivity.
Qed.

Lemma obj_of_members_nodup kvs : NoDup kvs.*1 → obj_of_members kvs = kvs.
Proof.
  unfold obj_of_members.
  enough (∀ acc, NoDup ((acc ++ kvs).*1) →
            foldl (λ a kv, obj_put kv.1 kv.2 a) acc kvs = acc ++ kvs) as H.
  { intros Hnd. apply (H []). exact Hnd. }
  induction kvs as [ | [k v] kvs IH ]; intros acc Hnd.
  - simpl. rewrite app_nil_r. reflexivity.
  - simpl. rewrite obj_put_fresh.
    + rewrite IH; rewrite <- app_assoc; [ reflexivity | exact Hnd ].
    + rewrite fmap_app in Hnd. apply NoDup_app in Hnd as (_ & Hd & _).
      intros Hin. apply (Hd k Hin). rewrite fmap_cons. left.
Qed.

Lemma parse_print v : plain v → parses v.
Proof.
  induction v as [ | b | n | s | l IH | kvs IH ] using value_ind';
    intros Hp ind fuel rest Hfuel;
    (destruct fuel as [ | f ]; [ simpl in Hfuel; lia | ]).
  - reflexivity.
  - destruct b; reflexivity.
  - destruct Hp.
  - unfold print, print_string. fold print. simpl. rewrite <- app_assoc. simpl.
    rewrite parse_string_escape. simpl.
    rewrite string_of_list_ascii_of_string. reflexivity.
  - destruct l as [ | x l ]; [ reflexivity | ].
    simpl in Hp. apply andb_prop_elim in Hp as [Hx Hl]. apply Is_true_eq_true in Hx.
    assert (Forall parses (x :: l)) as Hall.
    { apply Forall_forall. intros y Hy. rewrite Forall_forall in IH. apply IH; [ done | ].
      apply elem_of_cons in Hy as [-> | Hy]; [ by apply Is_true_eq_left | ].
      apply Is_true_eq_true in Hl. rewrite forallb_forall in Hl.
      apply Is_true_eq_left, Hl, list_elem_of_In, Hy. }
    change (print ind (Arr (x :: l)))
      with ("["%char :: nl :: indent (S (S ind))
              ++ print_items (print (S (S ind))) (S (S ind)) (x :: l)
              ++ nl :: indent ind ++ ["]"%char]).
    destruct (print_head (S (S ind)) x (Is_true_eq_left _ Hx)) as (c & t & Hc & Hws & Hcl).
    assert (∃ t', print_items (print (S (S ind))) (S (S ind)) (x :: l) = c :: t') as [t' Ht'].
    { destruct l; [ exists t; exact Hc | ]. rewrite print_items_cons, Hc. eauto. }
    reassoc. erewrite parse_value_arr; [ | | exact Hcl ]; last first.
    { cbn. rewrite skip_ws_indent, Ht'. reassoc. apply skip_ws_head, Hws. }
    erewrite parse_elements_ws; last first.
    { cbn. apply skip_ws_indent. }
    rewrite parse_elements_items; [ reflexivity | exact Hall | done | ].
    change (size (Arr (x :: l))) with (S (sizes (x :: l))) in Hfuel. lia.
  - destruct kvs as [ | [k x] l ]; [ reflexivity | ].
    simpl in Hp. apply andb_prop_elim in Hp as [Hnd Hp].
    apply andb_prop_elim in Hp as [Hx Hl]. apply bool_decide_unpack in Hnd.
    assert (Forall (λ kv, parses kv.2) ((k, x) :: l)) as Hall.
    { apply Forall_forall. intros y Hy. rewrite Forall_forall in IH. apply IH; [ done | ].
      apply elem_of_cons in Hy as [-> | Hy]; [ exact Hx | ].
      apply Is_true_eq_true in Hl. rewrite forallb_forall in Hl.
      apply Is_true_eq_left, (Hl y), list_elem_of_In, Hy. }
    change (print ind (Obj ((k, x) :: l)))
      with ("{"%char :: nl :: indent (S (S ind))
              ++ print_items
                   (λ kv, print_string kv.1 ++ ":"%char :: " "%char :: print (S (S ind)) kv.2)
                   (S (S ind)) ((k, x) :: l)
              ++ nl :: indent ind ++ ["}"%char]).
    assert (∃ t', print_items
                   (λ kv, print_string kv.1 ++ ":"%char :: " "%char :: print (S (S ind)) kv.2)
                   (S (S ind)) ((k, x) :: l) = quote :: t') as [t' Ht'].
    { destruct l; [ | rewrite print_items_cons ]; eexists; reflexivity. }
    reassoc. erewrite (parse_value_obj _ _ quote); [ | | discriminate ]; last first.
    { cbn. rewrite skip_ws_indent, Ht'. reassoc. reflexivity. }
    erewrite parse_members_ws; last first.
    { cbn. apply skip_ws_indent. }
    rewrite parse_members_items; [ | exact Hall | done | ].
    + simpl. rewrite obj_of_members_nodup by exact Hnd. reflexivity.
    + change (size (Obj ((k, x) :: l))) with (S (msizes ((k, x) :: l))) in Hfuel. lia.
Qed.

Lemma size_items {A} (pr : A → list ascii) (sz : A → nat) k l :
  Forall (λ x, sz x ≤ length (pr x)) l →
  foldr (λ x n, S (sz x + n)) 0 l ≤ length (print_items pr k l) + 1.
Proof.
  induction 1 as [ | x l Hx Hl IH ]; [ simpl; lia | ].
  destruct l as [ | y l ].
  - change (print_items pr k [x]) with (pr x). simpl. lia.
  - rewrite print_items_cons. change (foldr ?f 0 (x :: ?t)) with (S (sz x + foldr f 0 t)).
    rewrite length_app. simpl length. rewrite length_app. lia.
Qed.

Lemma size_block {A} (pr : A → list ascii) (sz : A → nat) op cl ind l :
  Forall (λ x, sz x ≤ length (pr x)) l →
  S (foldr (λ x n, S (sz x + n)) 0 l) ≤ length (print_block op cl pr ind l).
Proof.
  intros H. destruct l as [ | x l ]; [ simpl; lia | ].
  pose proof (size_items pr sz (2 + ind) _ H) as Hi.
  unfold print_block. cbn [length]. rewrite !length_app. cbn [length].
  rewrite !length_app. cbn [length].
  lia.
Qed.

Lemma size_le_print v : plain v → ∀ ind, size v ≤ length (print ind v).
Proof.
  induction v as [ | b | n | s | l IH | kvs IH ] using value_ind'; intros Hp ind.
  - cbv. lia.
  - destruct b; cbv; lia.
  - destruct Hp.
  - change (print ind (Str s)) with (print_string s). unfold print_string.
    cbn [length size]. lia.
  - apply (size_block (print (2 + ind)) size). simpl in Hp.
    apply Forall_forall. intros x Hx. rewrite Forall_forall in IH. apply IH; [ done | ].
    apply Is_true_eq_true in Hp. rewrite forallb_forall in Hp.
    apply Is_true_eq_left, Hp, list_elem_of_In, Hx.
  - apply (size_block
             (λ kv, print_string kv.1 ++ ":"%char :: " "%char :: print (2 + ind) kv.2)
             (λ kv, size kv.2)).
    simpl in Hp. apply andb_prop_elim in Hp as [_ Hp].
    apply Forall_forall. intros x Hx. rewrite Forall_forall in IH.
    rewrite length_app. simpl length.
    enough (size x.2 ≤ length (print (S (S ind)) x.2)) by lia.
    apply IH; [ done | ].
    apply Is_true_eq_true in Hp. rewrite forallb_forall in Hp.
    apply Is_true_eq_left, (Hp x), list_elem_of_In, Hx.
Qed.

Theorem parse_stringify v : plain v → parse (stringify v) = Some v.
Proof.
  intros Hp. unfold parse, stringify.
  rewrite list_ascii_of_string_of_list_ascii.
  pose proof (parse_print v Hp 0 (S (length (print 0 v))) []) as H.
  rewrite app_nil_r in H. rewrite H; [ reflexivity | ].
  pose proof (size_le_print v Hp 0). lia.
Qed.

End JSONFacts.

(** ** Express: running a bind *)

Import Node Express.

Lemma bind_eq {St J A B} (f : A → handler St J B) (m : handler St J A) st :
  (m ≫= f) st =
  match m st with
  | (Next a, st') => f a st'
  | (Sent r, st') => (Sent r, st')
  | (Thrown e, st') => (Thrown e, st')
  end.
Proof. reflexivity. Qed.

Lemma list_find_lookup {A} (P : A → Prop) `{∀ x, Decision (P x)} l i x :
  list_find P l = Some (i, x) → l !! i = Some x.
Proof. intros Hf. apply list_find_Some in Hf as (Hi & _). exact Hi. Qed.

(** ** Variant A *)

Module ProofsA.
Import VariantA.

Section Server.
Variable proc : Process.

Lemma json_episode_inv e : json_episode (episode_json e) = Some e.
Proof. destruct e as [i t ty s p [f | ]]; reflexivity. Qed.

Lemma json_episodes_inv l : mapM json_episode (episode_json <$> l) = Some l.
Proof.
  induction l as [ | e l IH ]; [ reflexivity | ].
  rewrite fmap_cons. cbn [mapM]. rewrite json_episode_inv. cbn.
  rewrite IH. reflexivity.
Qed.

Lemma json_series_inv s : json_series (series_json s) = Some s.
Proof.
  destruct s as [i n d im p eps]. cbn -[mapM fmap]. rewrite json_episodes_inv. reflexivity.
Qed.

Lemma json_collection_inv c : json_collection (collection_json c) = Some c.
Proof.
  unfold collection_json, json_collection.
  induction c as [ | s c IH ]; [ reflexivity | ].
  rewrite fmap_cons. cbn [mapM]. rewrite json_series_inv. cbn. rewrite IH. reflexivity.
Qed.

Lemma plain_episode e : JSON.plain (episode_json e).
Proof. destruct e as [i t ty s p [f | ]]; vm_compute; exact I. Qed.

Lemma forallb_fmap {A B} (f : A → B) (P : B → bool) l :
  (∀ x, P (f x)) → forallb P (f <$> l).
Proof.
  intros H. induction l as [ | x l IH ]; [ exact I | ].
  rewrite fmap_cons. cbn. apply andb_prop_intro. split; [ apply H | exact IH ].
Qed.

Lemma plain_series s : JSON.plain (series_json s).
Proof.
  destruct s as [i n d im p eps]. cbn -[forallb bool_decide].
  apply andb_prop_intro. split; [ vm_compute; exact I | ].
  cbn. apply andb_prop_intro. split; [ | exact I ].
  apply (forallb_fmap episode_json JSON.plain), plain_episode.
Qed.

Lemma plain_collection c : JSON.plain (collection_json c).
Proof. apply (forallb_fmap series_json JSON.plain), plain_series. Qed.

Lemma stringify_arr_nonempty l : JSON.stringify (JSON.Arr l) ≠ "".
Proof. destruct l; discriminate. Qed.

Lemma readJson_writeJson file fallback c disk :
  readJson file fallback (writeJson file (collection_json c) disk) = collection_json c.
Proof.
  unfold readJson, writeJson, readFileSync, writeFileSync.
  rewrite lookup_insert_eq.
  rewrite bool_decide_eq_false_2 by apply stringify_arr_nonempty.
  rewrite JSONFacts.parse_stringify by apply plain_collection. reflexivity.
Qed.

Lemma load_store c disk :
  load proc (writeJson (SERIES_FILE proc) (collection_json c) disk)
  = (Next c, writeJson (SERIES_FILE proc) (collection_json c) disk).
Proof.
  unfold load. rewrite readJson_writeJson, json_collection_inv. reflexivity.
Qed.


Lemma serve_post_series auth name desc image now random disk :
  serve (post_series proc auth name desc image now random) disk =
  match auth with
  | Bearer username =>
      if falsy name then (Json 400 (Error "Missing series name"), disk) else
      match load proc disk with
      | (Next c, _) =>
          match list_find
                  (λ s, toLowerCase (series_name s) = toLowerCase (or_else name "")) c with
          | Some _ => (Json 400 (Error "Series already exists"), disk)
          | None =>
              let newSeries :=
                {| series_id := new_id now random;
                   series_name := or_else name "";
                   series_desc := or_else desc "";
                   series_image := or_else image "";
                   series_pseudo := username;
                   series_episodes := [] |} in
              (Json 200 (Created newSeries),
               writeJson (SERIES_FILE proc) (collection_json (c ++ [newSeries])) disk)
          end
      | (Sent r, _) => (r, disk)
      | (Thrown e, _) => (Uncaught e, disk)
      end
  | NoHeader => (Json 401 (Error "No token"), disk)
  | NotTwoParts => (Json 401 (Error "Bad token"), disk)
  | RejectedToken => (Json 401 (Error "Invalid token"), disk)
  end.
Proof.
  unfold serve, post_series. rewrite bind_eq.
  destruct auth; try reflexivity. cbn [authMiddleware mret handler_ret ret].
  destruct (falsy name); [ reflexivity | ].
  rewrite bind_eq. unfold load.
  destruct (json_collection _) as [c | ]; [ | reflexivity ].
  destruct (list_find _ c) as [[i s] | ]; reflexivity.
Qed.











(** *** Persistence *)


Lemma readJson_corrupt file fallback disk :
  corrupt file disk → readJson file fallback disk = fallback.
Proof.
  unfold corrupt, readJson. intros H.
  destruct (readFileSync file disk) as [text | ]; [ | reflexivity ].
  case_bool_decide as Htext; [ reflexivity | ].
  rewrite (H text eq_refl). reflexivity.
Qed.

(** *** The other routes *)

Lemma writeJson_other file obj disk p :
  p ≠ file → writeJson file obj disk !! p = disk !! p.
Proof. intros Hp. apply lookup_insert_ne. congruence. Qed.

Lemma serve_put_image username id image disk c i s :
  load proc disk = (Next c, disk) →
  list_find (λ x, series_id x = id) c = Some (i, s) →
  serve (put_image proc (Bearer username) id image) disk
  = (Json 200 (Updated (set_image s (or_else image ""))),
     writeJson (SERIES_FILE proc)
       (collection_json (<[i := set_image s (or_else image "")]> c)) disk).
Proof.
  intros Hload Hfind. unfold serve, put_image.
  rewrite bind_eq. cbn [authMiddleware mret handler_ret ret].
  rewrite bind_eq, Hload, Hfind. reflexivity.
Qed.

Lemma serve_delete_series username id disk :
  serve (delete_series proc (Bearer username) id) disk =
  if negb (isAdmin proc username) then (Json 403 (Error "Forbidden"), disk) else
  match load proc disk with
  | (Next c, _) =>
      match list_find (λ x, series_id x = id) c with
      | None => (Json 404 (Error "Series not found"), disk)
      | Some (idx, _) =>
          (Json 200 Success,
           writeJson (SERIES_FILE proc) (collection_json (delete idx c)) disk)
      end
  | (Sent r, _) => (r, disk)
  | (Thrown e, _) => (Uncaught e, disk)
  end.
Proof.
  unfold serve, delete_series.
  rewrite bind_eq. cbn [authMiddleware mret handler_ret ret].
  destruct (negb (isAdmin proc username)); [ reflexivity | ].
  rewrite bind_eq. unfold load.
  destruct (json_collection _) as [c | ]; [ | reflexivity ].
  destruct (list_find _ c) as [[i s] | ]; reflexivity.
Qed.

Lemma serve_post_episode username id upload title type src now random disk :
  serve (post_episode proc (Bearer username) id upload title type src now random) disk =
  let disk1 := (upload_single proc upload disk).2 in
  match load proc disk1 with
  | (Next c, _) =>
      match list_find (λ x, series_id x = id) c with
      | None => (Json 404 (Error "Series not found"), disk1)
      | Some (i, s) =>
          match upload with
          | Some u =>
              let s' :=
                push_episode s
                  (uploaded_episode username (stage proc u) title now random s) in
              (Json 200 (Updated s'),
               writeJson (SERIES_FILE proc) (collection_json (<[i := s']> c)) disk1)
          | None =>
              if falsy src then (Json 400 (Error "Missing src"), disk1) else
              let s' :=
                push_episode s (linked_episode username title type src now random s) in
              (Json 200 (Updated s'),
               writeJson (SERIES_FILE proc) (collection_json (<[i := s']> c)) disk1)
          end
      end
  | (Sent r, _) => (r, disk1)
  | (Thrown e, _) => (Uncaught e, disk1)
  end.
Proof.
  unfold serve, post_episode.
  rewrite bind_eq. cbn [authMiddleware mret handler_ret ret].
  rewrite bind_eq. destruct upload as [u | ]; cbn [upload_single mret handler_ret ret snd].
  - rewrite bind_eq. unfold load.
    destruct (json_collection _) as [c | ]; [ | reflexivity ].
    destruct (list_find _ c) as [[i s] | ]; reflexivity.
  - rewrite bind_eq. unfold load.
    destruct (json_collection _) as [c | ]; [ | reflexivity ].
    destruct (list_find _ c) as [[i s] | ]; [ | reflexivity ].
    destruct (falsy src); reflexivity.
Qed.

(** *** Names along a run *)

Lemma load_other (disk : Fs) c p data :
  p ≠ SERIES_FILE proc → load proc disk = (Next c, disk) →
  load proc (writeFileSync p data disk) = (Next c, writeFileSync p data disk).
Proof.
  intros Hp. unfold load, readJson, readFileSync, writeFileSync.
  rewrite lookup_insert_ne by exact Hp.
  destruct (json_collection _) as [c' | ]; [ | discriminate ].
  intros [= ->]. reflexivity.
Qed.





End Server.
End ProofsA.

(** ** Variant B *)

Module ProofsB.
Import VariantB.

Section Server.
Variable dir : string.

Lemma disk_only_bind {A B} (m : handler State Reply A) (f : A → handler State Reply B) :
  disk_only m → (∀ a, disk_only (f a)) → disk_only (m ≫= f).
Proof.
  intros Hm Hf st. rewrite bind_eq. specialize (Hm st).
  destruct (m st) as [[a | r | e] st']; cbn [snd] in *; [ | exact Hm | exact Hm ].
  destruct (Hf a st') as [H1 H2]. rewrite H1, H2. exact Hm.
Qed.

Lemma disk_only_ret {A} (a : A) : disk_only (mret a : handler State Reply A).
Proof. intros st. split; reflexivity. Qed.

Lemma disk_only_send {A} code j : disk_only (send code j : handler State Reply A).
Proof. intros st. split; reflexivity. Qed.

Lemma disk_only_throw {A} e : disk_only (throw e : handler State Reply A).
Proof. intros st. split; reflexivity. Qed.

Lemma disk_only_try {A} (m : handler State Reply A) h :
  disk_only m → (∀ e, disk_only (h e)) → disk_only (try_catch m h).
Proof.
  intros Hm Hh st. unfold try_catch. specialize (Hm st).
  destruct (m st) as [[a | r | e] st']; cbn [snd] in *; [ exact Hm | exact Hm | ].
  destruct (Hh e st') as [H1 H2]. rewrite H1, H2. exact Hm.
Qed.

Lemma disk_only_unlink p : disk_only (unlink p).
Proof. intros st. unfold unlink. destruct (unlinkSync p (disk st)); split; reflexivity. Qed.

Lemma disk_only_forEach {A} (f : A → handler State Reply unit) l :
  (∀ x, disk_only (f x)) → disk_only (forEach f l).
Proof.
  intros Hf. induction l as [ | x l IH ]; [ apply disk_only_ret | ].
  cbn [forEach]. apply disk_only_bind; [ apply Hf | intros _; exact IH ].
Qed.

Lemma disk_only_remove_upload src : disk_only (remove_upload dir src).
Proof.
  intros st. unfold remove_upload.
  destruct src as [[ | | | s | | ] | ]; try (split; reflexivity).
  destruct (startsWith s "/uploads/"); [ | split; reflexivity ].
  destruct (existsSync _ (disk st)); split; reflexivity.
Qed.

Lemma disk_only_write_upload u : disk_only (write_upload dir u).
Proof. intros st. split; reflexivity. Qed.

Lemma disk_only_upload_any us : disk_only (upload_any dir us).
Proof.
  unfold upload_any. induction us as [ | u us IH ]; [ apply disk_only_ret | ].
  cbn [mapM]. apply disk_only_bind; [ apply disk_only_write_upload | ].
  intros f. apply disk_only_bind; [ exact IH | intros fs; apply disk_only_ret ].
Qed.

Lemma disk_only_discard files : disk_only (discard files).
Proof. apply disk_only_forEach. intros f. apply disk_only_unlink. Qed.

Lemma disk_only_discard_quietly files : disk_only (discard_quietly files).
Proof.
  apply disk_only_forEach. intros f.
  apply disk_only_try; [ apply disk_only_unlink | intros _; apply disk_only_ret ].
Qed.


Lemma upload_any_next us st : ∃ files, (upload_any dir us st).1 = Next files.
Proof.
  unfold upload_any. revert st. induction us as [ | u us IH ]; intros st.
  - eexists. reflexivity.
  - cbn [mapM]. rewrite bind_eq. cbn [write_upload]. rewrite bind_eq.
    destruct (IH (set_disk st (writeFileSync (path (stage dir u)) (up_data u) (disk st))))
      as [fs Hfs].
    match type of Hfs with (?X).1 = _ => destruct X as [o st'] end.
    cbn [fst] in Hfs. subst o. eexists. reflexivity.
Qed.

Lemma discard_not_sent files st r : (discard files st).1 ≠ Sent r.
Proof.
  unfold discard. revert st. induction files as [ | f files IH ]; intros st.
  - discriminate.
  - cbn [forEach]. rewrite bind_eq. unfold unlink at 1.
    destruct (unlinkSync _ _); [ apply IH | discriminate ].
Qed.

Lemma discard_quietly_next files st : (discard_quietly files st).1 = Next tt.
Proof.
  unfold discard_quietly. revert st. induction files as [ | f files IH ]; intros st.
  - reflexivity.
  - cbn [forEach]. rewrite bind_eq. unfold try_catch, unlink.
    destruct (unlinkSync _ _); apply IH.
Qed.

(** How [POST /api/series] ends: with the new series appended and the
    counter advanced, or with an error and the catalogue untouched. *)
Lemma post_series_cases auth uploads pseudo name desc image episodes st :
  let res := serve (post_series dir auth uploads pseudo name desc image episodes) st in
  (∃ s eps files,
      res.1 = Json 200 (OneSeries s)
      ∧ series res.2 = series st ++ [s]
      ∧ nextSeriesId res.2 = increment (nextSeriesId st)
      ∧ series_id s = String_ (nextSeriesId st)
      ∧ series_name s = or_else name ""
      ∧ JSON.parse (or_else episodes "[]") = Some (JSON.Arr eps)
      ∧ (upload_any dir uploads st).1 = Next files
      ∧ final_episodes files (nextSeriesId st) (or_else pseudo "") 0 eps
        = inr (series_episodes s))
  ∨ (status res.1 ≠ 200
     ∧ series res.2 = series st ∧ nextSeriesId res.2 = nextSeriesId st).
Proof.
  cbv zeta.
  remember (serve (post_series dir auth uploads pseudo name desc image episodes) st)
    as res eqn:Hres.
  unfold serve, post_series in Hres. rewrite bind_eq in Hres.
  destruct auth as [ | | user ];
    try (right; subst res; split; [ discriminate | split; reflexivity ]).
  cbn [authMiddleware mret handler_ret ret] in Hres. rewrite bind_eq in Hres.
  destruct (upload_any_next uploads st) as [files Hfiles].
  destruct (disk_only_upload_any uploads st) as [Hs1 Hn1].
  destruct (upload_any dir uploads st) as [o st1]. cbn [fst snd] in *. subst o.
  (* every failing branch: a 400 after [discard], or the [catch] block *)
  assert (∀ e, ∃ r st2,
            ((discard_quietly files;;
              send 500 (Error (or_else (Some e) "Erreur serveur")))
               : handler State Reply Empty_set) st1 = (Sent r, st2)
            ∧ status r ≠ 200
            ∧ series st2 = series st ∧ nextSeriesId st2 = nextSeriesId st)
    as Hcatch.
  { intros e. rewrite bind_eq.
    pose proof (discard_quietly_next files st1) as Hq.
    destruct (disk_only_discard_quietly files st1) as [Hs3 Hn3].
    destruct (discard_quietly files st1) as [o st3]. cbn [fst snd] in *. subst o.
    eexists _, _. split; [ reflexivity | ]. split; [ discriminate | ]. split; congruence. }
  assert (∀ (code : nat) msg, code ≠ 200 →
            ∃ r st2,
              try_catch (A := Empty_set) (discard files;; send code (Error msg))
                (λ e, discard_quietly files;;
                      send 500 (Error (or_else (Some e) "Erreur serveur")))
                st1 = (Sent r, st2)
              ∧ status r ≠ 200
              ∧ series st2 = series st ∧ nextSeriesId st2 = nextSeriesId st)
    as Hfail.
  { intros code msg Hcode. unfold try_catch. rewrite bind_eq.
    pose proof (discard_not_sent files st1) as Hns.
    destruct (disk_only_discard files st1) as [Hs2 Hn2].
    destruct (discard files st1) as [[[] | r | e] st2]; cbn [fst snd] in *.
    - eexists _, _. split; [ reflexivity | ]. split; [ exact Hcode | ]. split; congruence.
    - exfalso. exact (Hns r eq_refl).
    - rewrite bind_eq. pose proof (discard_quietly_next files st2) as Hq.
      destruct (disk_only_discard_quietly files st2) as [Hs3 Hn3].
      destruct (discard_quietly files st2) as [o st3]. cbn [fst snd] in *. subst o.
      eexists _, _. split; [ reflexivity | ]. split; [ discriminate | ].
      split; congruence. }
  destruct (falsy pseudo || falsy name) eqn:Hfalsy.
  { right. destruct (Hfail 400 "Pseudo et nom requis" ltac:(discriminate))
      as (r & st2 & Hout & Hr & Hs & Hn).
    rewrite Hout in Hres. subst res. cbn [fst snd]. auto. }
  destruct (JSON.parse (or_else episodes "[]")) as [episodesData | ] eqn:Hparse.
  2: { right. destruct (Hfail 400 "Format d'épisodes invalide" ltac:(discriminate))
         as (r & st2 & Hout & Hr & Hs & Hn).
       rewrite Hout in Hres. subst res. cbn [fst snd]. auto. }
  destruct (length_is_zero episodesData) as [[ | ] | ] eqn:Hzero.
  { right. destruct (Hfail 400 "Au moins un épisode est requis" ltac:(discriminate))
      as (r & st2 & Hout & Hr & Hs & Hn).
    rewrite Hout in Hres. subst res. cbn [fst snd]. auto. }
  2: { right. destruct (Hcatch "TypeError") as (r & st2 & Hout & Hr & Hs & Hn).
       unfold try_catch, throw in Hres. rewrite Hout in Hres.
       subst res. cbn [fst snd]. auto. }
  unfold try_catch in Hres. rewrite bind_eq in Hres. cbn [get] in Hres.
  destruct episodesData as [ | b | n | s | eps | kvs ];
    try (right; destruct (Hcatch "TypeError") as (r & st2 & Hout & Hr & Hs & Hn);
         unfold throw in Hres; rewrite Hout in Hres; subst res; cbn [fst snd]; auto).
  destruct (final_episodes files (nextSeriesId st1) (or_else pseudo "") 0 eps)
    as [e | finalEpisodes] eqn:Hfinal.
  { right. destruct (Hcatch e) as (r & st2 & Hout & Hr & Hs & Hn).
    unfold throw in Hres. rewrite Hout in Hres. subst res. cbn [fst snd]. auto. }
  left. rewrite bind_eq in Hres. cbn [put send] in Hres. subst res.
  cbn [fst snd series nextSeriesId].
  eexists _, eps, files. rewrite Hs1, Hn1 in *.
  repeat split; try reflexivity. exact Hfinal.
Qed.


(** *** Identifiers along a run *)

Lemma keeps_refl st : keeps st st.
Proof. split; [ reflexivity | ]. intros s Hs. exists s. auto. Qed.

Lemma keeps_trans st1 st2 st3 : keeps st1 st2 → keeps st2 st3 → keeps st1 st3.
Proof.
  intros [Hn1 Hs1] [Hn2 Hs2]. split; [ congruence | ].
  intros s3 H3. destruct (Hs2 s3 H3) as (s2 & H2 & E2).
  destruct (Hs1 s2 H2) as (s1 & H1 & E1). exists s1. split; [ exact H1 | congruence ].
Qed.

Lemma keeps_disk_only {A} (m : handler State Reply A) st :
  disk_only m → keeps st (m st).2.
Proof.
  intros Hm. destruct (Hm st) as [Hs Hn]. split; [ exact Hn | ].
  rewrite Hs. intros s H. exists s. auto.
Qed.

Lemma keeps_bind {A B} (m : handler State Reply A) (f : A → handler State Reply B) st :
  keeps st (m st).2 → (∀ a st1, m st = (Next a, st1) → keeps st1 (f a st1).2) →
  keeps st ((m ≫= f) st).2.
Proof.
  intros Hm Hf. rewrite bind_eq.
  destruct (m st) as [[a | r | e] st1]; cbn [snd] in *; [ | exact Hm | exact Hm ].
  exact (keeps_trans _ _ _ Hm (Hf a st1 eq_refl)).
Qed.

Lemma keeps_try {A} (m : handler State Reply A) h st :
  keeps st (m st).2 → (∀ e st1, keeps st1 (h e st1).2) → keeps st (try_catch m h st).2.
Proof.
  intros Hm Hh. unfold try_catch.
  destruct (m st) as [[a | r | e] st1]; cbn [snd] in *; [ exact Hm | exact Hm | ].
  exact (keeps_trans _ _ _ Hm (Hh e st1)).
Qed.

Lemma keeps_insert st i s s' :
  series st !! i = Some s → series_id s' = series_id s →
  keeps st (set_series st (<[i := s']> (series st))).
Proof.
  intros Hi Hid. split; [ reflexivity | ]. cbn [series set_series].
  intros x Hx. apply list_elem_of_lookup in Hx as [j Hj].
  destruct (decide (i = j)) as [-> | Hne].
  - rewrite list_lookup_insert_eq in Hj by (eapply lookup_lt_Some; eauto).
    injection Hj as <-. exists s. split; [ | exact Hid ].
    apply list_elem_of_lookup. eauto.
  - rewrite list_lookup_insert_ne in Hj by exact Hne.
    exists x. split; [ | reflexivity ]. apply list_elem_of_lookup. eauto.
Qed.

Lemma keeps_delete st idx :
  keeps st (set_series st (delete idx (series st))).
Proof.
  split; [ reflexivity | ]. cbn [series set_series]. intros x Hx.
  exists x. split; [ | reflexivity ].
  eapply list_elem_of_delete_inv, Hx.
Qed.

Lemma keeps_post_episode auth id upload title url pseudo st :
  keeps st (serve (post_episode dir auth id upload title url pseudo) st).2.
Proof.
  assert (keeps st (post_episode dir auth id upload title url pseudo st).2) as H.
  { unfold post_episode. apply keeps_bind.
    { apply keeps_disk_only. intros st0. destruct auth; split; reflexivity. }
    intros user st0 _. apply keeps_bind.
    { apply keeps_disk_only. destruct upload as [u | ]; [ | apply disk_only_ret ].
      apply disk_only_bind; [ apply disk_only_write_upload | intros; apply disk_only_ret ]. }
    intros file st1 _. apply keeps_try.
    - rewrite bind_eq. cbn [get].
      destruct (list_find _ (series st1)) as [[i seriesObj] | ] eqn:Hfind.
      + destruct (match file with Some _ => _ | None => _ end) as [src | ];
          [ | apply keeps_refl ].
        rewrite bind_eq. cbn [put send snd].
        apply (keeps_insert st1 i seriesObj);
          [ exact (list_find_lookup _ _ _ _ Hfind) | reflexivity ].
      + apply keeps_disk_only. apply disk_only_bind; [ | intros; apply disk_only_send ].
        destruct file; [ apply disk_only_unlink | apply disk_only_ret ].
    - intros e st2. apply keeps_disk_only.
      apply disk_only_bind; [ | intros; apply disk_only_send ].
      destruct file; [ | apply disk_only_ret ].
      apply disk_only_try; [ apply disk_only_unlink | intros; apply disk_only_ret ]. }
  unfold serve. destruct (post_episode _ _ _ _ _ _ _ st) as [[[] | r | e] st']; exact H.
Qed.


Lemma keeps_serve (m : handler State Reply Empty_set) st :
  keeps st (m st).2 → keeps st (serve m st).2.
Proof. unfold serve. destruct (m st) as [[[] | r | e] st']; auto. Qed.

Lemma keeps_auth auth st : keeps st (authMiddleware auth st).2.
Proof. apply keeps_disk_only. intros st0. destruct auth; split; reflexivity. Qed.

Lemma keeps_admin user st : keeps st (adminMiddleware user st).2.
Proof.
  apply keeps_disk_only. intros st0. unfold adminMiddleware.
  destruct (negb (isAdmin user)); split; reflexivity.
Qed.

Lemma keeps_delete_series auth id st :
  keeps st (serve (delete_series dir auth id) st).2.
Proof.
  apply keeps_serve. unfold delete_series.
  apply keeps_bind; [ apply keeps_auth | ]. intros user st0 _.
  apply keeps_bind; [ apply keeps_admin | ]. intros _ st1 _.
  rewrite bind_eq. cbn [get].
  destruct (list_find _ (series st1)) as [[idx seriesToDelete] | ]; [ | apply keeps_refl ].
  apply keeps_bind.
  { apply keeps_disk_only, disk_only_forEach. intros ep. apply disk_only_remove_upload. }
  intros _ st2 _. rewrite bind_eq. cbn [get]. rewrite bind_eq. cbn [put send snd].
  apply keeps_delete.
Qed.

Lemma keeps_delete_episode auth seriesId episodeId st :
  keeps st (serve (delete_episode dir auth seriesId episodeId) st).2.
Proof.
  apply keeps_serve. unfold delete_episode.
  apply keeps_bind; [ apply keeps_auth | ]. intros user st0 _.
  apply keeps_bind; [ apply keeps_admin | ]. intros _ st1 _.
  rewrite bind_eq. cbn [get].
  destruct (list_find _ (series st1)) as [[i seriesObj] | ] eqn:Hfind;
    [ | apply keeps_refl ].
  destruct (list_find _ (series_episodes seriesObj)) as [[epIdx episode] | ];
    [ | apply keeps_refl ].
  apply keeps_bind.
  { apply keeps_disk_only, disk_only_remove_upload. }
  intros [] st2 Hrm. rewrite bind_eq. cbn [get]. rewrite bind_eq. cbn [put send snd].
  pose proof (proj1 (disk_only_remove_upload (ep_src episode) st1)) as Hs.
  rewrite Hrm in Hs. cbn [snd] in Hs.
  apply (keeps_insert st2 i seriesObj); [ | reflexivity ].
  rewrite Hs. exact (list_find_lookup _ _ _ _ Hfind).
Qed.

(** Every request but a successful creation keeps the identifiers. *)
Lemma step_cases st r :
  (∃ auth uploads pseudo name desc image episodes s,
      r = PostSeries auth uploads pseudo name desc image episodes
      ∧ series (step dir st r) = series st ++ [s]
      ∧ nextSeriesId (step dir st r) = increment (nextSeriesId st)
      ∧ series_id s = String_ (nextSeriesId st))
  ∨ keeps st (step dir st r).
Proof.
  destruct r as [ | id | auth uploads pseudo name desc image episodes
                | auth id upload title url pseudo | auth id | auth sid eid ];
    unfold step; cbn [route_of].
  - right. apply keeps_refl.
  - right. apply keeps_serve. unfold get_one_series. rewrite bind_eq. cbn [get].
    destruct (list_find _ _) as [[i s] | ]; apply keeps_refl.
  - destruct (post_series_cases auth uploads pseudo name desc image episodes st)
      as [(s & eps & files & _ & Hs & Hn & Hid & _) | (_ & Hs & Hn)].
    + left. eexists _, _, _, _, _, _, _, s. split; [ reflexivity | ]. auto.
    + right. split; [ exact Hn | ]. rewrite Hs. intros x Hx. exists x. auto.
  - right. apply keeps_post_episode.
  - right. apply keeps_delete_series.
  - right. apply keeps_delete_episode.
Qed.

Lemma increment_ge n : (n ≤ increment n)%N.
Proof. unfold increment. destruct (n <? 2 ^ 53)%N; lia. Qed.

Lemma step_counter st r : (nextSeriesId st ≤ nextSeriesId (step dir st r))%N.
Proof.
  destruct (step_cases st r) as [(? & ? & ? & ? & ? & ? & ? & s & _ & _ & Hn & _) | [Hn _]].
  - rewrite Hn. apply increment_ge.
  - rewrite Hn. reflexivity.
Qed.

Lemma step_ids_below st r :
  ((nextSeriesId st < 2 ^ 53)%N → ids_below st) →
  (nextSeriesId (step dir st r) < 2 ^ 53)%N → ids_below (step dir st r).
Proof.
  intros Hinv Hlt. pose proof (step_counter st r) as Hmono.
  assert (ids_below st) as Hst by (apply Hinv; lia).
  destruct (step_cases st r)
    as [(? & ? & ? & ? & ? & ? & ? & s & _ & Hs & Hn & Hid) | [Hn Hs]].
  - intros z Hx. rewrite Hs in Hx. rewrite Hn.
    assert (increment (nextSeriesId st) = (nextSeriesId st + 1)%N) as ->.
    { unfold increment. destruct (N.ltb_spec (nextSeriesId st) (2 ^ 53)); [ reflexivity | ].
      rewrite Hn in Hlt. unfold increment in Hlt.
      destruct (N.ltb_spec (nextSeriesId st) (2 ^ 53)); lia. }
    apply elem_of_app in Hx as [Hx | Hx].
    + destruct (Hst z Hx) as (k & Hk & Hlt'). exists k. split; [ exact Hk | lia ].
    + apply list_elem_of_singleton in Hx. subst z.
      exists (nextSeriesId st). split; [ exact Hid | lia ].
  - intros z Hz. destruct (Hs z Hz) as (y & Hy & Ezy).
    destruct (Hst y Hy) as (k & Hk & Hlt'). exists k. rewrite Hn. split; congruence.
Qed.

Lemma run_ids_below d rs :
  (nextSeriesId (run dir d rs) < 2 ^ 53)%N → ids_below (run dir d rs).
Proof.
  unfold run. induction rs as [ | r rs IH ] using rev_ind.
  - intros _ s Hs. cbn in Hs. apply elem_of_nil in Hs. destruct Hs.
  - rewrite foldl_app. cbn [foldl]. apply step_ids_below, IH.
Qed.


(** *** Episodes built from specs *)




(** *** Removing uploads *)

Lemma set_disk_same st : set_disk st (disk st) = st.
Proof. destruct st. reflexivity. Qed.

Lemma remove_upload_cases src st :
  match src with
  | Some (JSON.Str s) =>
      remove_upload dir src st
      = (Next tt,
         set_disk st (if startsWith s "/uploads/"
                      then delete (path_join dir s) (disk st) else disk st))
  | _ => remove_upload dir src st = (Thrown "TypeError", st)
  end.
Proof.
  destruct src as [[ | | | s | | ] | ]; try reflexivity. unfold remove_upload.
  destruct (startsWith s "/uploads/"); [ | rewrite set_disk_same; reflexivity ].
  unfold existsSync. case_bool_decide as Hex; [ reflexivity | ].
  rewrite delete_id, set_disk_same; [ reflexivity | ].
  destruct (disk st !! path_join dir s) eqn:E; [ | reflexivity ].
  exfalso. apply Hex. eauto.
Qed.

Lemma removed_paths_cons ep eps :
  removed_paths dir (ep :: eps)
  = match ep_src ep with
    | Some (JSON.Str s) =>
        if startsWith s "/uploads/"
        then path_join dir s :: removed_paths dir eps
        else removed_paths dir eps
    | _ => removed_paths dir eps
    end.
Proof.
  unfold removed_paths. cbn [omap list_omap].
  destruct (ep_src ep) as [[ | | | s | | ] | ]; try reflexivity.
  destruct (startsWith s "/uploads/"); reflexivity.
Qed.

Lemma forEach_remove_cases eps st :
  forEach (λ ep, remove_upload dir (ep_src ep)) eps st
  = (Next tt, set_disk st (foldl (λ d p, delete p d) (disk st) (removed_paths dir eps)))
  ∨ ∃ st', forEach (λ ep, remove_upload dir (ep_src ep)) eps st
           = (Thrown "TypeError", st').
Proof.
  revert st. induction eps as [ | ep eps IH ]; intros st.
  - left. cbn. rewrite set_disk_same. reflexivity.
  - cbn [forEach]. rewrite bind_eq. pose proof (remove_upload_cases (ep_src ep) st) as Hr.
    rewrite removed_paths_cons.
    destruct (ep_src ep) as [[ | | | s | | ] | ];
      try (right; rewrite Hr; eauto; fail).
    rewrite Hr. destruct (IH (set_disk st (if startsWith s "/uploads/"
                                           then delete (path_join dir s) (disk st)
                                           else disk st))) as [Hok | [st' Hthrow]].
    + left. rewrite Hok. destruct (startsWith s "/uploads/"); reflexivity.
    + right. rewrite Hthrow. eauto.
Qed.




(** [POST /api/series/:id/episodes] for a series that is not there. *)
Lemma serve_post_episode_missing user id u title url pseudo st :
  list_find (λ s, series_id s = id) (series st) = None →
  serve (post_episode dir (Bearer user) id (Some u) title url pseudo) st
  = (Json 404 (Error "Série introuvable"),
     set_disk st (delete (path (stage dir u)) (disk st))).
Proof.
  intros Hfind. unfold serve, post_episode. rewrite bind_eq.
  cbn [authMiddleware mret handler_ret ret]. rewrite bind_eq.
  cbn [upload_single]. rewrite bind_eq. cbn [write_upload mret handler_ret ret].
  unfold try_catch. rewrite bind_eq. cbn [get series set_disk]. rewrite Hfind.
  rewrite bind_eq. unfold unlink, unlinkSync, existsSync, writeFileSync.
  cbn [disk set_disk]. rewrite lookup_insert_eq.
  rewrite bool_decide_eq_true_2 by eauto. cbn [send].
  rewrite delete_insert_eq. reflexivity.
Qed.


End Server.
End ProofsB.

(** ** The properties of the specification *)

Module Properties.
Module A := VariantA.
Module B := VariantB.
Import ProofsA ProofsB Samples.

(** Closed conjunctions of equations between values of the model. *)
Ltac by_computation :=
  cbv zeta;
  repeat match goal with |- _ ∧ _ => split end;
  vm_compute; reflexivity.

(** *** C1: names unique up to case *)





(** *** C2: an upload for a series that does not exist *)





(** *** C3: the files of a deleted series *)




(** *** C4: how a commit reaches the disk *)

(** C4, as the code has it.  A commit is one [writeFileSync] of the whole
    serialization onto [series.json] itself: once it is done the file holds
    the serialization and no other path has changed, so there is no
    temporary file; after [n] bytes the file holds the first [n] bytes and
    nothing of what it held before, and when those do not parse the next
    load reads the empty catalogue. *)
Theorem commit_overwrites_in_place proc c disk n :
  let text := JSON.stringify (A.collection_json c) in
  let committed := (A.store proc c disk).2 in
  let crashed :=
    A.writeJson_interrupted (A.SERIES_FILE proc) (A.collection_json c) n disk in
  committed !! A.SERIES_FILE proc = Some text
  ∧ (∀ p, p ≠ A.SERIES_FILE proc → committed !! p = disk !! p)
  ∧ crashed !! A.SERIES_FILE proc = Some (String.substring 0 n text)
  ∧ (∀ p, p ≠ A.SERIES_FILE proc → crashed !! p = disk !! p)
  ∧ (JSON.parse (String.substring 0 n text) = None →
     A.load proc crashed = (Next [], crashed)).
Proof.
  cbv zeta. unfold A.store, A.writeJson_interrupted, A.writeJson, writeFileSync,
    writeFileSync_interrupted. cbn [snd].
  split; [ apply lookup_insert_eq | ].
  split; [ intros p Hp; apply lookup_insert_ne; congruence | ].
  split; [ apply lookup_insert_eq | ].
  split; [ intros p Hp; apply lookup_insert_ne; congruence | ].
  intros Hparse. unfold A.load. rewrite readJson_corrupt; [ reflexivity | ].
  intros text. unfold readFileSync. rewrite lookup_insert_eq. congruence.
Qed.

Lemma commit_overwrites_in_place_witness :
  let text := JSON.stringify (A.collection_json [blob_series]) in
  let crashed :=
    A.writeJson_interrupted (A.SERIES_FILE proc0) (A.collection_json [blob_series]) 40 ∅ in
  JSON.parse (String.substring 0 40 text) = None
  ∧ A.load proc0 crashed = (Next [], crashed).
Proof.
  cbv zeta.
  assert (JSON.parse
            (String.substring 0 40 (JSON.stringify (A.collection_json [blob_series])))
          = None) as Hparse by (vm_compute; reflexivity).
  split; [ exact Hparse | ].
  exact (proj2 (proj2 (proj2 (proj2
           (commit_overwrites_in_place proc0 [blob_series] ∅ 40)))) Hparse).
Defined.

(** C4 fails: a commit interrupted after 40 bytes leaves a truncated
    catalogue on disk, and the next load reads neither the old catalogue
    nor the new one but the empty one. *)
Lemma interrupted_commit_visible :
  let old := A.writeJson (A.SERIES_FILE proc0) (A.collection_json [blob_series]) ∅ in
  let new := A.collection_json [blob_series; A.set_image blob_series ""] in
  let crashed := A.writeJson_interrupted (A.SERIES_FILE proc0) new 40 old in
  A.load proc0 old = (Next [blob_series], old)
  ∧ crashed !! A.SERIES_FILE proc0
    = Some (String.substring 0 40 (JSON.stringify new))
  ∧ String.length (JSON.stringify new) = 716
  ∧ A.load proc0 crashed = (Next [], crashed).
Proof. by_computation. Qed.

(** *** C5: a catalogue file that cannot be read *)






(** *** C6: replacing the cover image *)

(** C6, as the code has it.  An authenticated update of the cover of a
    series that exists installs the new image, or the empty string when
    none is given, in the first series with that id, writes the catalogue
    back, and touches no other file: the file of the previous cover is not
    deleted, before or after the commit. *)
Theorem put_image_keeps_files proc username id image disk c i s :
  A.load proc disk = (Next c, disk) →
  list_find (λ x, A.series_id x = id) c = Some (i, s) →
  let res := serve (A.put_image proc (A.Bearer username) id image) disk in
  let s' := A.set_image s (or_else image "") in
  res.1 = Json 200 (A.Updated s')
  ∧ A.load proc res.2 = (Next (<[i := s']> c), res.2)
  ∧ ∀ p, p ≠ A.SERIES_FILE proc → res.2 !! p = disk !! p.
Proof.
  intros Hload Hfind. cbv zeta.
  rewrite (serve_put_image proc username id image disk c i s Hload Hfind). cbn [fst snd].
  split; [ reflexivity | ]. split; [ apply load_store | ].
  intros p Hp. apply writeJson_other, Hp.
Qed.

Lemma put_image_keeps_files_witness :
  A.load proc0 blob_disk = (Next [blob_series], blob_disk)
  ∧ list_find (λ x, A.series_id x = "1700000000000-7") [blob_series]
    = Some (0, blob_series)
  ∧ let res :=
      serve (A.put_image proc0 (A.Bearer "bob") "1700000000000-7"
               (Some "https://cdn.example/cover.png")) blob_disk in
    let s' := A.set_image blob_series (or_else (Some "https://cdn.example/cover.png") "") in
    res.1 = Json 200 (A.Updated s')
    ∧ A.load proc0 res.2 = (Next (<[0 := s']> [blob_series]), res.2)
    ∧ ∀ p, p ≠ A.SERIES_FILE proc0 → res.2 !! p = blob_disk !! p.
Proof.
  assert (A.load proc0 blob_disk = (Next [blob_series], blob_disk)) as Hload
    by (vm_compute; reflexivity).
  split; [ exact Hload | ]. split; [ reflexivity | ].
  exact (put_image_keeps_files proc0 "bob" "1700000000000-7"
           (Some "https://cdn.example/cover.png") blob_disk [blob_series] 0 blob_series
           Hload eq_refl).
Defined.

(** C6 fails: the cover is replaced and the file of the previous cover, an
    upload, is still on disk. *)
Lemma previous_cover_kept :
  let res :=
    serve (A.put_image proc0 (A.Bearer "bob") "1700000000000-7"
             (Some "https://cdn.example/cover.png")) blob_disk in
  A.series_image blob_series = "/uploads/1700000000001-8.png"
  ∧ existsSync (path_join (A.UPLOAD_DIR proc0) "1700000000001-8.png") blob_disk = true
  ∧ (∃ s, res.1 = Json 200 (A.Updated s)
          ∧ A.series_image s = "https://cdn.example/cover.png")
  ∧ existsSync (path_join (A.UPLOAD_DIR proc0) "1700000000001-8.png") res.2 = true.
Proof.
  cbv zeta. split; [ reflexivity | ]. split; [ vm_compute; reflexivity | ].
  split; [ eexists; split; vm_compute; reflexivity | vm_compute; reflexivity ].
Qed.

(** *** C7: deleting a series without the right to *)

(** C7.  When the check on the authenticated user fails, delete-series is
    answered 403 and the state of the server is the one before the request:
    in the file-backed variant the whole disk, in the in-memory variant the
    catalogue, the counter and the disk. *)
Theorem delete_series_forbidden :
  (∀ proc username id disk,
      A.isAdmin proc username = false →
      serve (A.delete_series proc (A.Bearer username) id) disk
      = (Json 403 (A.Error "Forbidden"), disk))
  ∧ (∀ dir user id st,
        B.isAdmin user = false →
        serve (B.delete_series dir (B.Bearer user) id) st
        = (Json 403 (B.Error "Accès refusé - Admin uniquement"), st)).
Proof.
  split.
  - intros proc username id disk HA. rewrite serve_delete_series, HA. reflexivity.
  - intros dir user id st HB. unfold serve, B.delete_series. rewrite bind_eq.
    cbn [B.authMiddleware mret handler_ret ret]. rewrite bind_eq.
    unfold B.adminMiddleware. rewrite HB. reflexivity.
Qed.

Lemma delete_series_forbidden_witness :
  (A.isAdmin proc0 "bob" = false
   ∧ serve (A.delete_series proc0 (A.Bearer "bob") "1700000000000-7") blob_disk
     = (Json 403 (A.Error "Forbidden"), blob_disk))
  ∧ (B.isAdmin bob = false
     ∧ serve (B.delete_series dir0 (B.Bearer bob) "1") blob_state
       = (Json 403 (B.Error "Accès refusé - Admin uniquement"), blob_state)).
Proof.
  split.
  - split; [ reflexivity | ].
    exact (proj1 delete_series_forbidden proc0 "bob" "1700000000000-7" blob_disk eq_refl).
  - split; [ reflexivity | ].
    exact (proj2 delete_series_forbidden dir0 bob "1" blob_state eq_refl).
Defined.

(** *** C8: identifiers *)




(** *** C9: persisting and reloading *)



(** *** C10: which episodes own a file *)



End Properties.

(** * Further properties of the two servers *)

(** ** Lists *)

Module ListFacts.

(** The first element that satisfies [P] is the one added last, when no
    earlier one does. *)
Lemma list_find_snoc {A} (P : A → Prop) `{∀ x, Decision (P x)} l x :
  list_find P l = None → P x → list_find P (l ++ [x]) = Some (length l, x).
Proof.
  intros Hnone Hx. apply list_find_Some. split; [ | split ].
  - rewrite lookup_app_r by lia. rewrite Nat.sub_diag. reflexivity.
  - exact Hx.
  - intros j y Hj Hlt. apply list_find_None in Hnone. rewrite Forall_forall in Hnone.
    apply Hnone. apply list_elem_of_lookup. exists j.
    rewrite lookup_app_l in Hj by exact Hlt. exact Hj.
Qed.


Lemma list_find_insert {A} (P : A → Prop) `{∀ x, Decision (P x)} l i x x' :
  list_find P l = Some (i, x) → P x' → list_find P (<[i := x']> l) = Some (i, x').
Proof.
  intros Hfind Hx'. apply list_find_Some in Hfind as (Hi & Hx & Hfirst).
  apply list_find_Some. split; [ | split ].
  - apply list_lookup_insert_eq. eapply lookup_lt_Some; eauto.
  - exact Hx'.
  - intros j y Hj Hlt. rewrite list_lookup_insert_ne in Hj by lia.
    exact (Hfirst j y Hj Hlt).
Qed.

Lemma delete_snoc {A} (l : list A) x : delete (length l) (l ++ [x]) = l.
Proof.
  induction l as [ | y l IH ]; [ reflexivity | ].
  cbn [length app]. cbn [delete list_delete]. f_equal. exact IH.
Qed.


End ListFacts.

(** ** [path.join] and the decimal numbers *)

Module PathFacts.

Lemma normalize_segments_kept a segs res :
  normalize_segments a segs res = rev (kept a segs res).
Proof.
  revert res. induction segs as [ | seg segs IH ]; intros res; [ reflexivity | ].
  cbn [normalize_segments kept].
  repeat case_bool_decide; try apply IH.
  destruct res as [ | top res ]; [ destruct a; apply IH | ].
  case_bool_decide; apply IH.
Qed.

Lemma kept_app a l1 l2 res : kept a (l1 ++ l2) res = kept a l2 (kept a l1 res).
Proof.
  revert res. induction l1 as [ | seg l1 IH ]; intros res; [ reflexivity | ].
  cbn [app kept].
  repeat case_bool_decide; try apply IH.
  destruct res as [ | top res ]; [ destruct a; apply IH | ].
  case_bool_decide; apply IH.
Qed.

Lemma kept_settled a segs res : settled a res → settled a (kept a segs res).
Proof.
  revert res. induction segs as [ | seg segs IH ]; intros res Hres; [ exact Hres | ].
  cbn [kept]. case_bool_decide as H1; [ apply IH, Hres | ].
  case_bool_decide as H2.
  - subst seg. destruct res as [ | top res ].
    + destruct a; apply IH; [ | exact I ].
      cbn. repeat split; try discriminate. constructor.
    + case_bool_decide as H3.
      * subst top. apply IH. destruct Hres as (_ & _ & Hd & Hr).
        destruct (Hd eq_refl) as [Ha Hall].
        cbn. repeat split; try discriminate; try assumption.
        constructor; [ reflexivity | exact Hall ].
      * apply IH. destruct Hres as (_ & _ & _ & Hr). exact Hr.
  - apply IH. cbn. repeat split; tauto.
Qed.

Lemma kept_push a seg res :
  seg ≠ "" → seg ≠ "." → seg ≠ ".." → kept a [seg] res = seg :: res.
Proof.
  intros H1 H2 H3. cbn [kept].
  rewrite bool_decide_eq_false_2 by tauto.
  rewrite bool_decide_eq_false_2 by exact H3. reflexivity.
Qed.

Lemma kept_rev a res : settled a res → kept a (rev res) [] = res.
Proof.
  induction res as [ | top res IH ]; intros Hres; [ reflexivity | ].
  destruct Hres as (H1 & H2 & Hd & Hr).
  cbn [rev]. rewrite kept_app, (IH Hr).
  destruct (decide (top = "..")) as [-> | H3]; [ | apply kept_push; assumption ].
  destruct (Hd eq_refl) as [-> Hall]. cbn [kept].
  rewrite bool_decide_eq_false_2 by (intros [ | ]; discriminate).
  rewrite bool_decide_eq_true_2 by reflexivity.
  destruct res as [ | top res ]; [ reflexivity | ].
  apply Forall_cons in Hall as [-> _].
  rewrite bool_decide_eq_true_2 by reflexivity. reflexivity.
Qed.

Lemma kept_Forall (P : string → Prop) a segs res :
  Forall P segs → Forall P res → Forall P (kept a segs res).
Proof.
  intros Hsegs. revert res. induction Hsegs as [ | seg segs Hseg _ IH ]; intros res Hres;
    [ exact Hres | ].
  cbn [kept]. repeat case_bool_decide; try (apply IH; assumption).
  - destruct res as [ | top res ].
    + destruct a; apply IH; repeat constructor; assumption.
    + case_bool_decide; apply IH; [ constructor; assumption | ].
      apply Forall_cons in Hres as [_ Hres]. exact Hres.
  - apply IH. constructor; assumption.
Qed.

(** *** Splitting at the slashes *)

Lemma chars_app a b : chars (a +:+ b) = chars a ++ chars b.
Proof. induction a as [ | c a IH ]; [ reflexivity | ]. cbn. rewrite <- IH. reflexivity. Qed.

Lemma split_slash_app l r cur :
  split_slash (l ++ "/"%char :: r) cur = split_slash l cur ++ split_slash r [].
Proof.
  revert cur. induction l as [ | c l IH ]; intros cur; cbn [app split_slash].
  - rewrite bool_decide_eq_true_2 by reflexivity. reflexivity.
  - case_bool_decide; rewrite IH; reflexivity.
Qed.

Lemma split_slash_one l cur :
  "/"%char ∉ l → split_slash l cur = [string_of_list_ascii (rev cur ++ l)].
Proof.
  revert cur. induction l as [ | c l IH ]; intros cur Hl; cbn [split_slash].
  - rewrite app_nil_r. reflexivity.
  - apply not_elem_of_cons in Hl as [Hc Hl].
    rewrite bool_decide_eq_false_2 by congruence.
    rewrite IH by exact Hl. cbn [rev]. rewrite <- app_assoc. reflexivity.
Qed.

Lemma split_slash_free l cur :
  "/"%char ∉ cur → Forall slash_free (split_slash l cur).
Proof.
  revert cur. induction l as [ | c l IH ]; intros cur Hcur; cbn [split_slash].
  - constructor; [ | constructor ]. unfold slash_free.
    rewrite list_ascii_of_string_of_list_ascii. rewrite list_elem_of_In, <- in_rev, <- list_elem_of_In. exact Hcur.
  - case_bool_decide as Hc.
    + constructor; [ | apply IH; apply not_elem_of_nil ].
      unfold slash_free. rewrite list_ascii_of_string_of_list_ascii.
      rewrite list_elem_of_In, <- in_rev, <- list_elem_of_In. exact Hcur.
    + apply IH. apply not_elem_of_cons. split; [ congruence | exact Hcur ].
Qed.

Lemma split_concat L :
  L ≠ [] → Forall slash_free L → split_slash (chars (String.concat "/" L)) [] = L.
Proof.
  induction L as [ | x L IH ]; intros Hne Hfree; [ contradiction | ].
  apply Forall_cons in Hfree as [Hx Hfree].
  destruct L as [ | y L ].
  - cbn [String.concat]. rewrite split_slash_one by exact Hx. cbn [rev app].
    rewrite string_of_list_ascii_of_string. reflexivity.
  - change (String.concat "/" (x :: y :: L))
      with (x +:+ "/" +:+ String.concat "/" (y :: L)).
    rewrite !chars_app. cbn [list_ascii_of_string app].
    rewrite split_slash_app, split_slash_one by exact Hx. cbn [rev app].
    rewrite string_of_list_ascii_of_string, IH by (discriminate || exact Hfree).
    reflexivity.
Qed.

Lemma concat_inj L1 L2 :
  L1 ≠ [] → L2 ≠ [] → Forall slash_free L1 → Forall slash_free L2 →
  String.concat "/" L1 = String.concat "/" L2 → L1 = L2.
Proof.
  intros H1 H2 F1 F2 E.
  rewrite <- (split_concat L1 H1 F1), <- (split_concat L2 H2 F2), E. reflexivity.
Qed.

(** *** [normalize] from its parts *)

Lemma normalize_assemble p :
  p ≠ "" → normalize p = assemble (isAbsolute p) (trailingSeparator p) (stack p).
Proof.
  intros Hp. unfold normalize, assemble, stack, isAbsolute, trailingSeparator.
  rewrite bool_decide_eq_false_2 by exact Hp.
  rewrite normalize_segments_kept. reflexivity.
Qed.

Lemma prefix_nil s : String.prefix "" s = true.
Proof. destruct s; reflexivity. Qed.

Lemma isAbsolute_app p q : p ≠ "" → isAbsolute (p +:+ q) = isAbsolute p.
Proof.
  destruct p as [ | c p ]; [ contradiction | ]. intros _. unfold isAbsolute.
  change (String c p +:+ q) with (String c (p +:+ q)). cbn -[ascii_dec].
  destruct (ascii_dec "/" c); [ | reflexivity ]. rewrite !prefix_nil. reflexivity.
Qed.

Lemma last_app_nonempty {A} (l1 l2 : list A) : l2 ≠ [] → last (l1 ++ l2) = last l2.
Proof.
  intros H2. induction l1 as [ | x l1 IH ]; [ reflexivity | ].
  cbn [app]. destruct (l1 ++ l2) eqn:E; [ | exact IH ].
  apply app_eq_nil in E as [_ ->]. contradiction.
Qed.

Lemma chars_nonempty s : s ≠ "" → chars s ≠ [].
Proof. destruct s; [ contradiction | discriminate ]. Qed.

Lemma trailingSeparator_app p q :
  q ≠ "" → trailingSeparator (p +:+ q) = trailingSeparator q.
Proof.
  intros Hq. unfold trailingSeparator. rewrite chars_app.
  rewrite last_app_nonempty by (apply chars_nonempty, Hq). reflexivity.
Qed.

Lemma trailingSeparator_free s : slash_free s → trailingSeparator s = false.
Proof.
  intros Hs. unfold trailingSeparator. apply bool_decide_eq_false. intros Hl.
  apply Hs. apply last_Some in Hl as [l' ->]. apply elem_of_app. right. left.
Qed.

Lemma append_nonempty_r p q : q ≠ "" → p +:+ q ≠ "".
Proof. destruct p, q; try discriminate. contradiction. Qed.

Lemma append_nonempty_l p q : p ≠ "" → p +:+ q ≠ "".
Proof. destruct p; [ contradiction | discriminate ]. Qed.

Lemma append_nil_r p : p +:+ "" = p.
Proof.
  induction p as [ | c p IH ]; [ reflexivity | ].
  change (String c p +:+ "") with (String c (p +:+ "")). rewrite IH. reflexivity.
Qed.

Lemma stack_settled p : settled (negb (isAbsolute p)) (stack p).
Proof. apply kept_settled. exact I. Qed.

Lemma stack_free p : Forall slash_free (stack p).
Proof.
  apply kept_Forall; [ | constructor ]. apply split_slash_free, not_elem_of_nil.
Qed.

Lemma stack_join p q :
  p ≠ "" →
  stack (p +:+ "/" +:+ q)
  = kept (negb (isAbsolute p)) (split_slash (chars q) []) (stack p).
Proof.
  intros Hp. unfold stack. rewrite isAbsolute_app by exact Hp.
  rewrite !chars_app. cbn [list_ascii_of_string app].
  rewrite split_slash_app, kept_app. reflexivity.
Qed.

Lemma split_file_name a : slash_free a → split_slash (chars a) [] = [a].
Proof.
  intros Ha. rewrite split_slash_one by exact Ha. cbn [rev app].
  rewrite string_of_list_ascii_of_string. reflexivity.
Qed.

Lemma settled_nonempty a res : settled a res → Forall (λ s, s ≠ "") res.
Proof.
  induction res as [ | top res IH ]; intros Hres; [ constructor | ].
  destruct Hres as (H1 & _ & _ & Hr). constructor; [ exact H1 | exact (IH Hr) ].
Qed.

Lemma concat_nonempty L :
  L ≠ [] → Forall slash_free L → Forall (λ s, s ≠ "") L → String.concat "/" L ≠ "".
Proof.
  intros Hne Hfree Hs E. pose proof (split_concat L Hne Hfree) as H.
  rewrite E in H. cbn in H. subst L. apply Forall_cons in Hs as [Hs _]. contradiction.
Qed.

Lemma rev_nonempty {A} (l : list A) : l ≠ [] → rev l ≠ [].
Proof. destruct l; [ contradiction | ]. intros _ E. cbn in E. destruct (rev l); discriminate. Qed.

Lemma rev_Forall {A} (P : A → Prop) l : Forall P l → Forall P (rev l).
Proof.
  intros H. apply Forall_forall. intros x Hx. rewrite Forall_forall in H. apply H.
  apply list_elem_of_In. apply (proj2 (in_rev l x)). apply list_elem_of_In, Hx.
Qed.

(** A path whose stack is not empty, put back together. *)
Lemma normalize_stack p :
  p ≠ "" → stack p ≠ [] →
  normalize p
  = (if isAbsolute p then "/" else "") +:+ String.concat "/" (rev (stack p))
      +:+ (if trailingSeparator p then "/" else "").
Proof.
  intros Hp Hst. rewrite normalize_assemble by exact Hp. unfold assemble.
  rewrite bool_decide_eq_false_2; [ reflexivity | ].
  apply concat_nonempty.
  - apply rev_nonempty, Hst.
  - apply rev_Forall, stack_free.
  - apply rev_Forall. exact (settled_nonempty _ _ (stack_settled p)).
Qed.

Lemma prefix_slash_concat L :
  L ≠ [] → Forall slash_free L → Forall (λ s, s ≠ "") L →
  String.prefix "/" (String.concat "/" L) = false.
Proof.
  intros Hne Hfree Hs. destruct L as [ | x L ]; [ contradiction | ].
  apply Forall_cons in Hfree as [Hx _]. apply Forall_cons in Hs as [Hx' _].
  destruct x as [ | c x ]; [ contradiction | ].
  assert (c ≠ "/"%char) as Hc.
  { intros ->. apply Hx. cbn. left. }
  destruct L as [ | y L ].
  - cbn -[ascii_dec]. destruct (ascii_dec "/" c); [ congruence | reflexivity ].
  - change (String.concat "/" (String c x :: y :: L))
      with (String c (x +:+ "/" +:+ String.concat "/" (y :: L))).
    cbn -[ascii_dec String.concat].
    destruct (ascii_dec "/" c); [ congruence | reflexivity ].
Qed.

(** Normalising again changes nothing of a path that has no trailing slash. *)
Lemma normalize_again p :
  p ≠ "" → stack p ≠ [] → trailingSeparator p = false →
  normalize p ≠ ""
  ∧ isAbsolute (normalize p) = isAbsolute p
  ∧ stack (normalize p) = stack p.
Proof.
  intros Hp Hst Htr. rewrite normalize_stack by assumption. rewrite Htr, append_nil_r.
  pose proof (stack_settled p) as Hset. pose proof (stack_free p) as Hfree.
  assert (rev (stack p) ≠ []) as Hne by (apply rev_nonempty, Hst).
  assert (Forall slash_free (rev (stack p))) as Hfree' by (apply rev_Forall, Hfree).
  assert (Forall (λ s, s ≠ "") (rev (stack p))) as Hs'
    by (apply rev_Forall; exact (settled_nonempty _ _ Hset)).
  pose proof (concat_nonempty _ Hne Hfree' Hs') as Hc.
  pose proof (prefix_slash_concat _ Hne Hfree' Hs') as Hpre.
  assert (isAbsolute ((if isAbsolute p then "/" else "")
                        +:+ String.concat "/" (rev (stack p))) = isAbsolute p) as Habs.
  { destruct (isAbsolute p); [ | exact Hpre ].
    unfold isAbsolute.
    change ("/" +:+ String.concat "/" (rev (stack p)))
      with (String "/" (String.concat "/" (rev (stack p)))).
    cbn. apply prefix_nil. }
  split; [ apply append_nonempty_r, Hc | ]. split; [ exact Habs | ].
  unfold stack at 1. rewrite Habs. rewrite chars_app.
  assert (split_slash
            (chars (if isAbsolute p then "/" else "")
               ++ chars (String.concat "/" (rev (stack p)))) []
          = (if isAbsolute p then [""] else []) ++ rev (stack p)) as ->.
  { destruct (isAbsolute p); cbn [list_ascii_of_string app split_slash].
    - rewrite bool_decide_eq_true_2 by reflexivity. cbn [rev].
      rewrite split_concat by assumption. reflexivity.
    - rewrite split_concat by assumption. reflexivity. }
  rewrite kept_app.
  assert (kept (negb (isAbsolute p)) (if isAbsolute p then [""] else []) [] = []) as ->
    by (destruct (isAbsolute p); reflexivity).
  apply kept_rev, Hset.
Qed.

Lemma file_name_last a : file_name a → trailingSeparator a = false.
Proof. intros (_ & _ & _ & Ha). apply trailingSeparator_free, Ha. Qed.

Lemma file_name_relative a : file_name a → isAbsolute a = false.
Proof.
  intros (Ha1 & _ & _ & Ha4). destruct a as [ | c a ]; [ contradiction | ].
  unfold isAbsolute. cbn -[ascii_dec].
  destruct (ascii_dec "/" c) as [<- | ]; [ | reflexivity ].
  exfalso. apply Ha4. cbn. left.
Qed.

Lemma stack_file_name a : file_name a → stack a = [a].
Proof.
  intros Ha. pose proof Ha as (Ha1 & Ha2 & Ha3 & Ha4). unfold stack.
  rewrite split_file_name by exact Ha4. apply kept_push; assumption.
Qed.

(** [path.join(dir, a)] for a file name [a]. *)
Lemma path_join_name dir a :
  file_name a →
  path_join dir a ≠ ""
  ∧ isAbsolute (path_join dir a) = isAbsolute dir
  ∧ stack (path_join dir a) = a :: stack dir.
Proof.
  intros Ha. pose proof Ha as (Ha1 & Ha2 & Ha3 & Ha4). unfold path_join.
  case_bool_decide as Hdir.
  - subst dir.
    destruct (normalize_again a Ha1
                ltac:(rewrite (stack_file_name a Ha); discriminate)
                (file_name_last a Ha)) as (H1 & H2 & H3).
    split; [ exact H1 | ]. split.
    + rewrite H2. apply file_name_relative, Ha.
    + rewrite H3. apply stack_file_name, Ha.
  - rewrite bool_decide_eq_false_2 by exact Ha1.
    assert (dir +:+ "/" +:+ a ≠ "") as Hp by (apply append_nonempty_l, Hdir).
    assert (stack (dir +:+ "/" +:+ a) = a :: stack dir) as Hst.
    { rewrite stack_join by exact Hdir. rewrite split_file_name by exact Ha4.
      apply kept_push; assumption. }
    assert (trailingSeparator (dir +:+ "/" +:+ a) = false) as Htr.
    { rewrite (trailingSeparator_app dir ("/" +:+ a)) by discriminate.
      rewrite (trailingSeparator_app "/" a) by exact Ha1. apply file_name_last, Ha. }
    destruct (normalize_again _ Hp ltac:(rewrite Hst; discriminate) Htr) as (H1 & H2 & H3).
    split; [ exact H1 | ]. split.
    + rewrite H2. apply isAbsolute_app, Hdir.
    + rewrite H3. exact Hst.
Qed.


(** The same one directory further down. *)
Lemma path_join_name_inj2 dir a b f g :
  file_name a → file_name b → file_name f → file_name g →
  path_join (path_join dir a) f = path_join (path_join dir b) g → a = b ∧ f = g.
Proof.
  intros Ha Hb Hf Hg E.
  destruct (path_join_name dir a Ha) as (_ & _ & Hsa).
  destruct (path_join_name dir b Hb) as (_ & _ & Hsb).
  destruct (path_join_name (path_join dir a) f Hf) as (_ & _ & Hsf).
  destruct (path_join_name (path_join dir b) g Hg) as (_ & _ & Hsg).
  rewrite E, Hsg, Hsa, Hsb in Hsf. split; congruence.
Qed.

(** Joining in two steps or in one: [path.join(path.join(dir, a), f)] is
    [path.join(dir, "/a/f")]. *)
Lemma path_join_twice dir a f :
  dir ≠ "" → file_name a → f ≠ "" →
  path_join (path_join dir a) f = path_join dir ("/" +:+ a +:+ "/" +:+ f).
Proof.
  intros Hdir Ha Hf. destruct (path_join_name dir a Ha) as (HU & Habs & Hst).
  pose proof Ha as (Ha1 & Ha2 & Ha3 & Ha4).
  unfold path_join at 1.
  rewrite bool_decide_eq_false_2 by exact HU.
  rewrite bool_decide_eq_false_2 by exact Hf.
  unfold path_join at 2.
  rewrite bool_decide_eq_false_2 by exact Hdir.
  rewrite bool_decide_eq_false_2 by discriminate.
  rewrite !normalize_assemble by (apply append_nonempty_l; assumption).
  f_equal.
  - rewrite !isAbsolute_app by assumption. exact Habs.
  - rewrite (trailingSeparator_app (path_join dir a)) by discriminate.
    rewrite (trailingSeparator_app "/" f) by exact Hf.
    rewrite (trailingSeparator_app dir) by discriminate.
    rewrite (trailingSeparator_app "/") by discriminate.
    rewrite (trailingSeparator_app "/") by (apply append_nonempty_l, Ha1).
    rewrite (trailingSeparator_app a) by discriminate.
    rewrite (trailingSeparator_app "/" f) by exact Hf. reflexivity.
  - rewrite !stack_join by assumption. rewrite Habs, Hst.
    assert (split_slash (chars ("/" +:+ a +:+ "/" +:+ f)) []
            = "" :: a :: split_slash (chars f) []) as ->.
    { rewrite !chars_app. cbn [list_ascii_of_string app split_slash].
      rewrite bool_decide_eq_true_2 by reflexivity. cbn [rev].
      rewrite split_slash_app, (split_file_name a) by exact Ha4. reflexivity. }
    change ("" :: a :: split_slash (chars f) [])
      with ([""; a] ++ split_slash (chars f) []).
    rewrite kept_app. f_equal.
    change [""; a] with ([""] ++ [a]). rewrite kept_app.
    rewrite kept_push by assumption. reflexivity.
Qed.

(** *** Decimal numbers *)

Lemma pretty_N_char_digit x : digit (pretty_N_char x).
Proof.
  unfold digit, pretty_N_char.
  destruct x as [ | p ]; [ discriminate | ].
  do 4 (try destruct p as [ p | p | ]); discriminate.
Qed.

Lemma pretty_N_go_digits x :
  ∀ s, Forall digit (chars s) → Forall digit (chars (pretty_N_go x s)).
Proof.
  induction x as [x IH] using (well_founded_ind N.lt_wf_0). intros s Hs.
  destruct (decide (x = 0%N)) as [-> | Hx]; [ rewrite pretty_N_go_0; exact Hs | ].
  rewrite pretty_N_go_step by lia. apply IH.
  - apply N.div_lt; lia.
  - cbn. constructor; [ apply pretty_N_char_digit | exact Hs ].
Qed.

Lemma pretty_N_go_nonempty x : ∀ s, s ≠ "" → pretty_N_go x s ≠ "".
Proof.
  induction x as [x IH] using (well_founded_ind N.lt_wf_0). intros s Hs.
  destruct (decide (x = 0%N)) as [-> | Hx]; [ rewrite pretty_N_go_0; exact Hs | ].
  rewrite pretty_N_go_step by lia. apply IH; [ apply N.div_lt; lia | discriminate ].
Qed.

Lemma String_digits (n : N) : Forall digit (chars (String_ n)).
Proof.
  unfold String_, pretty, pretty_N. case_decide; [ repeat constructor; discriminate | ].
  apply pretty_N_go_digits. constructor.
Qed.

Lemma String_nonempty (n : N) : String_ n ≠ "".
Proof.
  unfold String_, pretty, pretty_N. case_decide as Hn; [ discriminate | ].
  rewrite pretty_N_go_step by lia. apply pretty_N_go_nonempty. discriminate.
Qed.

Lemma digits_free (c : ascii) l : ¬ digit c → Forall digit l → c ∉ l.
Proof.
  intros Hc Hl Hin. rewrite Forall_forall in Hl. exact (Hc (Hl c Hin)).
Qed.

(** Two decimal numbers followed by a character that is no digit. *)
Lemma digits_split (c : ascii) x x' y y' :
  ¬ digit c → Forall digit x → Forall digit x' →
  x ++ c :: y = x' ++ c :: y' → x = x' ∧ y = y'.
Proof.
  intros Hc Hx. revert x'. induction Hx as [ | d x Hd Hx IH ]; intros x' Hx' E.
  - destruct Hx' as [ | d' x' Hd' Hx' ]; cbn in E.
    + injection E as <-. auto.
    + injection E as <- _. contradiction.
  - destruct Hx' as [ | d' x' Hd' Hx' ]; cbn in E.
    + injection E as -> _. contradiction.
    + injection E as <- E. destruct (IH x' Hx' E) as [-> ->]. auto.
Qed.

Ltac literal_name :=
  repeat split; try discriminate;
  unfold slash_free; apply (bool_decide_unpack _); vm_compute; exact I.

Lemma file_name_uploads : file_name "uploads".
Proof. literal_name. Qed.

Lemma file_name_data : file_name "data".
Proof. literal_name. Qed.

Lemma file_name_series_json : file_name "series.json".
Proof. literal_name. Qed.

Lemma file_name_users_json : file_name "users.json".
Proof. literal_name. Qed.

Lemma not_digit_dash : ¬ digit "-"%char.
Proof. intros H. apply H. reflexivity. Qed.

Lemma not_digit_slash : ¬ digit "/"%char.
Proof. intros H. apply H. reflexivity. Qed.

Lemma not_digit_dot : ¬ digit "."%char.
Proof. intros H. apply H. reflexivity. Qed.

Lemma chars_inj a b : chars a = chars b → a = b.
Proof.
  intros E. rewrite <- (string_of_list_ascii_of_string a), E.
  apply string_of_list_ascii_of_string.
Qed.

Lemma String_inj (n m : N) : String_ n = String_ m → n = m.
Proof. apply pretty_N_inj. Qed.

(** A decimal number, a dash, a decimal number and an extension: the name
    of a file. *)
Lemma file_name_stamp (pre : string) (now random : N) (ext : string) :
  slash_free pre → (∀ c, head (chars pre) = Some c → c ≠ "."%char) →
  slash_free ext →
  file_name (pre +:+ String_ now +:+ "-" +:+ String_ random +:+ ext).
Proof.
  intros Hpre Hhead Hext.
  pose proof (String_digits now) as Hn. pose proof (String_digits random) as Hr.
  pose proof (String_nonempty now) as Hne.
  assert (∃ c rest, chars (pre +:+ String_ now +:+ "-" +:+ String_ random +:+ ext)
                    = c :: rest ∧ c ≠ "."%char) as (c & rest & Hc & Hdot).
  { rewrite !chars_app. destruct (chars pre) as [ | c l ] eqn:Epre.
    - destruct (chars (String_ now)) as [ | d l ] eqn:Enow.
      + exfalso. apply Hne. apply chars_inj. exact Enow.
      + exists d, (l ++ chars "-" ++ chars (String_ random) ++ chars ext).
        split; [ reflexivity | ]. intros ->.
        apply Forall_cons in Hn as [Hd _]. exact (not_digit_dot Hd).
    - eexists c, _. split; [ reflexivity | ]. apply Hhead. reflexivity. }
  repeat split.
  - intros E. rewrite E in Hc. discriminate.
  - intros E. rewrite E in Hc. injection Hc as <- _. contradiction.
  - intros E. rewrite E in Hc. injection Hc as <- _. contradiction.
  - unfold slash_free. rewrite !chars_app. rewrite !elem_of_app.
    intros [H | [H | [H | [H | H]]]].
    + exact (Hpre H).
    + exact (digits_free _ _ not_digit_slash Hn H).
    + cbn in H. apply elem_of_cons in H as [H | H]; [ discriminate | ].
      apply elem_of_nil in H. exact H.
    + exact (digits_free _ _ not_digit_slash Hr H).
    + exact (Hext H).
Qed.

(** Digits followed by something that does not start with a digit. *)
Lemma digits_then x x' (e e' : list ascii) :
  Forall digit x → Forall digit x' →
  (∀ c, head e = Some c → ¬ digit c) → (∀ c, head e' = Some c → ¬ digit c) →
  x ++ e = x' ++ e' → x = x' ∧ e = e'.
Proof.
  intros Hx. revert x'. induction Hx as [ | d x Hd Hx IH ]; intros x' Hx' He He' E.
  - destruct Hx' as [ | d' x' Hd' Hx' ]; [ auto | ].
    cbn in E. subst e. exfalso. exact (He d' eq_refl Hd').
  - destruct Hx' as [ | d' x' Hd' Hx' ].
    + cbn in E. subst e'. exfalso. exact (He' d eq_refl Hd).
    + cbn in E. injection E as <- E. destruct (IH x' Hx' He He' E) as [-> ->]. auto.
Qed.

Lemma stamp_inj (now random now' random' : N) (ext ext' : string) :
  (∀ c, head (chars ext) = Some c → ¬ digit c) →
  (∀ c, head (chars ext') = Some c → ¬ digit c) →
  String_ now +:+ "-" +:+ String_ random +:+ ext
  = String_ now' +:+ "-" +:+ String_ random' +:+ ext' →
  now = now' ∧ random = random' ∧ ext = ext'.
Proof.
  intros He He' E. apply (f_equal chars) in E. rewrite !chars_app in E.
  cbn [list_ascii_of_string app] in E.
  destruct (digits_split "-"%char _ _ _ _ not_digit_dash
              (String_digits now) (String_digits now') E) as [E1 E2].
  destruct (digits_then _ _ _ _ (String_digits random) (String_digits random')
              He He' E2) as [E3 E4].
  split; [ apply String_inj, chars_inj, E1 | ].
  split; [ apply String_inj, chars_inj, E3 | apply chars_inj, E4 ].
Qed.

End PathFacts.

(** ** The filter of multer *)

Module FilterFacts.
Import VariantB PathFacts.

Lemma prefix_append w s : String.prefix w s = true → ∃ b, s = w +:+ b.
Proof.
  revert s. induction w as [ | c w IH ]; intros s Hp.
  - exists s. reflexivity.
  - destruct s as [ | c' s ]; [ discriminate | ]. cbn -[ascii_dec] in Hp.
    destruct (ascii_dec c c') as [<- | ]; [ | discriminate ].
    destruct (IH s Hp) as [b ->]. exists b. reflexivity.
Qed.

Lemma prefix_of_append w b : String.prefix w (w +:+ b) = true.
Proof.
  induction w as [ | c w IH ]; [ apply prefix_nil | ].
  change (String c w +:+ b) with (String c (w +:+ b)). cbn -[ascii_dec].
  destruct (ascii_dec c c); [ exact IH | contradiction ].
Qed.

Lemma occurs_part_of w s : occurs w s = true ↔ part_of w s.
Proof.
  split.
  - induction s as [ | c s IH ]; cbn [occurs]; intros H.
    + rewrite orb_false_r in H. apply prefix_append in H as [b Hb].
      exists "", b. exact Hb.
    + apply orb_true_iff in H as [H | H].
      * apply prefix_append in H as [b Hb]. exists "", b. exact Hb.
      * destruct (IH H) as (a & b & ->). exists (String c a), b. reflexivity.
  - intros (a & b & ->). induction a as [ | c a IH ].
    + change ("" +:+ w +:+ b) with (w +:+ b).
      destruct (w +:+ b) eqn:E; cbn [occurs]; rewrite <- E, prefix_of_append; reflexivity.
    + change (String c a +:+ w +:+ b) with (String c (a +:+ w +:+ b)).
      cbn [occurs]. rewrite IH. apply orb_true_r.
Qed.

Lemma allowedTypes_test_part s :
  allowedTypes_test s = true ↔ ∃ w, w ∈ allowedTypes ∧ part_of w s.
Proof.
  unfold allowedTypes_test. rewrite existsb_exists. split.
  - intros (w & Hw & Ho). exists w. split; [ apply list_elem_of_In, Hw | ].
    apply occurs_part_of, Ho.
  - intros (w & Hw & Hp). exists w. split; [ apply list_elem_of_In, Hw | ].
    apply occurs_part_of, Hp.
Qed.

End FilterFacts.

(** ** Variant A: the routes *)

Module FactsA.
Import VariantA ProofsA ListFacts PathFacts.

Section Server.
Variable proc : Process.

Lemma serve_rejected r a disk :
  credentials r = Some a → (∀ u, a ≠ Bearer u) →
  serve (route_of proc r) disk
  = (Json 401 (Error match a with
                     | NoHeader => "No token"
                     | NotTwoParts => "Bad token"
                     | _ => "Invalid token"
                     end), disk).
Proof.
  intros Hr Ha.
  destruct r; cbn [credentials] in Hr; try discriminate; injection Hr as ->;
    cbn [route_of]; unfold serve;
    (destruct a as [ | | | u ]; [ reflexivity | reflexivity | reflexivity | ]);
    exfalso; exact (Ha u eq_refl).
Qed.

Lemma serve_post_upload username upload disk :
  serve (post_upload proc (Bearer username) upload) disk
  = match upload with
    | None => (Json 400 (Error "No file uploaded"), disk)
    | Some u =>
        (Json 200 (Uploaded ("/uploads/" +:+ storage_filename u)),
         writeFileSync (path (stage proc u)) (up_data u) disk)
    end.
Proof. destruct upload; reflexivity. Qed.

Lemma serve_put_image_cases username id image disk :
  serve (put_image proc (Bearer username) id image) disk =
  match load proc disk with
  | (Next c, _) =>
      match list_find (λ x, series_id x = id) c with
      | None => (Json 404 (Error "Series not found"), disk)
      | Some (i, s) =>
          (Json 200 (Updated (set_image s (or_else image ""))),
           writeJson (SERIES_FILE proc)
             (collection_json (<[i := set_image s (or_else image "")]> c)) disk)
      end
  | (Sent r, _) => (r, disk)
  | (Thrown e, _) => (Uncaught e, disk)
  end.
Proof.
  unfold serve, put_image. rewrite bind_eq. cbn [authMiddleware mret handler_ret ret].
  rewrite bind_eq. unfold load.
  destruct (json_collection _) as [c | ]; [ | reflexivity ].
  destruct (list_find _ c) as [[i s] | ]; reflexivity.
Qed.

Lemma serve_delete_episode username id epId disk :
  serve (delete_episode proc (Bearer username) id epId) disk =
  if negb (isAdmin proc username) then (Json 403 (Error "Forbidden"), disk) else
  match load proc disk with
  | (Next c, _) =>
      match list_find (λ x, series_id x = id) c with
      | None => (Json 404 (Error "Series not found"), disk)
      | Some (i, s) =>
          match list_find (λ e, ep_id e = epId) (series_episodes s) with
          | None => (Json 404 (Error "Episode not found"), disk)
          | Some (idx, _) =>
              (Json 200 Success,
               writeJson (SERIES_FILE proc)
                 (collection_json
                    (<[i := set_episodes s (delete idx (series_episodes s))]> c)) disk)
          end
      end
  | (Sent r, _) => (r, disk)
  | (Thrown e, _) => (Uncaught e, disk)
  end.
Proof.
  unfold serve, delete_episode. rewrite bind_eq. cbn [authMiddleware mret handler_ret ret].
  destruct (negb (isAdmin proc username)); [ reflexivity | ].
  rewrite bind_eq. unfold load.
  destruct (json_collection _) as [c | ]; [ | reflexivity ].
  destruct (list_find _ c) as [[i s] | ]; [ | reflexivity ].
  destruct (list_find _ (series_episodes s)) as [[idx e] | ]; reflexivity.
Qed.

(** What a request writes: its file part, and on a 200 possibly the
    catalogue. *)
Lemma serve_shape r disk :
  let res := serve (route_of proc r) disk in
  res.2 = after_upload proc r disk
  ∨ (status res.1 = 200
     ∧ ∃ text, res.2 = writeFileSync (SERIES_FILE proc) text (after_upload proc r disk)).
Proof.
  cbv zeta.
  destruct r as [ | auth upload | auth name desc image now random
                | auth id upload title type src now random | auth id image
                | auth id epId | auth id ];
    [ left; reflexivity | .. ];
    (destruct auth as [ | | | username ];
     [ left; reflexivity | left; reflexivity | left; reflexivity | ]);
    cbn [route_of]; unfold after_upload; cbn [stored_upload].
  - rewrite serve_post_upload. destruct upload; left; reflexivity.
  - rewrite serve_post_series. destruct (falsy name); [ left; reflexivity | ].
    destruct (load proc disk) as [[c | r | e] d]; try (left; reflexivity).
    destruct (list_find _ c) as [[i s] | ]; [ left; reflexivity | ].
    right. split; [ reflexivity | ]. eexists. reflexivity.
  - rewrite serve_post_episode. cbv zeta.
    assert ((upload_single proc upload disk).2
            = match upload with
              | Some u => writeFileSync (path (stage proc u)) (up_data u) disk
              | None => disk
              end) as -> by (destruct upload; reflexivity).
    destruct (load proc _) as [[c | r | e] d]; try (left; destruct upload; reflexivity).
    destruct (list_find _ c) as [[i s] | ]; [ | left; destruct upload; reflexivity ].
    destruct upload as [u | ].
    + right. split; [ reflexivity | ]. eexists. reflexivity.
    + destruct (falsy src); [ left; reflexivity | ].
      right. split; [ reflexivity | ]. eexists. reflexivity.
  - rewrite serve_put_image_cases.
    destruct (load proc disk) as [[c | r | e] d]; try (left; reflexivity).
    destruct (list_find _ c) as [[i s] | ]; [ | left; reflexivity ].
    right. split; [ reflexivity | ]. eexists. reflexivity.
  - rewrite serve_delete_episode.
    destruct (negb (isAdmin proc username)); [ left; reflexivity | ].
    destruct (load proc disk) as [[c | r | e] d]; try (left; reflexivity).
    destruct (list_find _ c) as [[i s] | ]; [ | left; reflexivity ].
    destruct (list_find _ (series_episodes s)) as [[idx e] | ]; [ | left; reflexivity ].
    right. split; [ reflexivity | ]. eexists. reflexivity.
  - rewrite serve_delete_series.
    destruct (negb (isAdmin proc username)); [ left; reflexivity | ].
    destruct (load proc disk) as [[c | r | e] d]; try (left; reflexivity).
    destruct (list_find _ c) as [[i s] | ]; [ | left; reflexivity ].
    right. split; [ reflexivity | ]. eexists. reflexivity.
Qed.

(** *** The catalogue after a request *)

Lemma extends_refl s : extends s s.
Proof. repeat split; reflexivity. Qed.

Lemma extends_trans s1 s2 s3 : extends s1 s2 → extends s2 s3 → extends s1 s3.
Proof.
  intros (A1 & A2 & A3 & A4 & A5) (B1 & B2 & B3 & B4 & B5).
  repeat split; try congruence. etrans; eassumption.
Qed.

Lemma extends_push s e : extends s (push_episode s e).
Proof. repeat split; try reflexivity. cbn. apply prefix_app_r. reflexivity. Qed.

Lemma extends_image s image : extends s (set_image s image).
Proof. repeat split; reflexivity. Qed.

Lemma grown_refl c : grown c c.
Proof. intros i s Hi. exists s. split; [ exact Hi | apply extends_refl ]. Qed.

Lemma grown_trans c1 c2 c3 : grown c1 c2 → grown c2 c3 → grown c1 c3.
Proof.
  intros H12 H23 i s1 H1. destruct (H12 i s1 H1) as (s2 & H2 & E12).
  destruct (H23 i s2 H2) as (s3 & H3 & E23). exists s3.
  split; [ exact H3 | exact (extends_trans _ _ _ E12 E23) ].
Qed.

Lemma grown_snoc c s : grown c (c ++ [s]).
Proof.
  intros i t Hi. exists t. split; [ | apply extends_refl ].
  apply lookup_app_l_Some, Hi.
Qed.

Lemma grown_insert c i s s' : c !! i = Some s → extends s s' → grown c (<[i := s']> c).
Proof.
  intros Hi He j t Hj. destruct (decide (i = j)) as [<- | Hne].
  - exists s'. rewrite list_lookup_insert_eq by (eapply lookup_lt_Some; eauto).
    split; [ reflexivity | congruence ].
  - exists t. rewrite list_lookup_insert_ne by exact Hne.
    split; [ exact Hj | apply extends_refl ].
Qed.

Ltac listed := apply (bool_decide_unpack _); vm_compute; exact I.

Lemma load_after_upload r disk c :
  beside_catalogue proc r → load proc disk = (Next c, disk) →
  load proc (after_upload proc r disk) = (Next c, after_upload proc r disk).
Proof.
  intros Hr Hload. unfold after_upload.
  destruct r as [ | [ | | | u] [up | ] | | [ | | | u] id [up | ] | | | ];
    cbn [stored_upload]; try exact Hload; exact (load_other proc _ _ _ _ Hr Hload).
Qed.

(** A request on a readable catalogue: the status is one that the handlers
    send, the catalogue stays readable, and unless the administrator sent
    the request every series is still there, extended. *)
Lemma serve_catalogue r disk c :
  beside_catalogue proc r → load proc disk = (Next c, disk) →
  let res := serve (route_of proc r) disk in
  ∃ code j c',
    res.1 = Json code j ∧ code ∈ sent_statuses
    ∧ load proc res.2 = (Next c', res.2)
    ∧ (by_admin proc r = false → grown c c').
Proof.
  intros Hr Hload. cbv zeta.
  assert (∀ (code : nat) j, code ∈ sent_statuses →
            ∃ code' j' c',
              (Json code j : Response Reply, disk).1 = Json code' j'
              ∧ code' ∈ sent_statuses
              ∧ load proc (Json code j : Response Reply, disk).2
                = (Next c', (Json code j : Response Reply, disk).2)
              ∧ (by_admin proc r = false → grown c c')) as Hsame.
  { intros code j Hcode. exists code, j, c. cbn [fst snd].
    split; [ reflexivity | ]. split; [ exact Hcode | ].
    split; [ exact Hload | intros _; apply grown_refl ]. }
  pose proof (load_after_upload r disk c Hr Hload) as Hload1.
  destruct r as [ | auth upload | auth name desc image now random
                | auth id upload title type src now random | auth id image
                | auth id epId | auth id ];
    [ apply Hsame; listed | .. ];
    (destruct auth as [ | | | username ];
     [ apply Hsame; listed | apply Hsame; listed | apply Hsame; listed | ]);
    cbn [route_of]; unfold after_upload in Hload1; cbn [stored_upload] in Hload1.
  - rewrite serve_post_upload. destruct upload as [u | ]; [ | apply Hsame; listed ].
    eexists _, _, c. cbn [fst snd]. split; [ reflexivity | ]. split; [ listed | ].
    split; [ exact Hload1 | intros _; apply grown_refl ].
  - rewrite serve_post_series. destruct (falsy name); [ apply Hsame; listed | ].
    rewrite Hload. destruct (list_find _ c) as [[i s] | ]; [ apply Hsame; listed | ].
    eexists _, _, _. cbn [fst snd]. split; [ reflexivity | ]. split; [ listed | ].
    split; [ apply load_store | intros _; apply grown_snoc ].
  - rewrite serve_post_episode. cbv zeta.
    assert ((upload_single proc upload disk).2
            = match upload with
              | Some u => writeFileSync (path (stage proc u)) (up_data u) disk
              | None => disk
              end) as -> by (destruct upload; reflexivity).
    assert (load proc match upload with
                      | Some u => writeFileSync (path (stage proc u)) (up_data u) disk
                      | None => disk
                      end
            = (Next c, match upload with
                       | Some u => writeFileSync (path (stage proc u)) (up_data u) disk
                       | None => disk
                       end)) as Hload2 by (destruct upload; exact Hload1).
    rewrite Hload2.
    destruct (list_find _ c) as [[i s] | ] eqn:Hfind.
    2: { eexists _, _, c. cbn [fst snd]. split; [ reflexivity | ]. split; [ listed | ].
         split; [ exact Hload2 | intros _; apply grown_refl ]. }
    apply list_find_lookup in Hfind.
    destruct upload as [u | ].
    + eexists _, _, _. cbn [fst snd]. split; [ reflexivity | ]. split; [ listed | ].
      split; [ apply load_store | intros _ ].
      exact (grown_insert c i s _ Hfind (extends_push s _)).
    + destruct (falsy src); [ apply Hsame; listed | ].
      eexists _, _, _. cbn [fst snd]. split; [ reflexivity | ]. split; [ listed | ].
      split; [ apply load_store | intros _ ].
      exact (grown_insert c i s _ Hfind (extends_push s _)).
  - rewrite serve_put_image_cases, Hload.
    destruct (list_find _ c) as [[i s] | ] eqn:Hfind; [ | apply Hsame; listed ].
    apply list_find_lookup in Hfind.
    eexists _, _, _. cbn [fst snd]. split; [ reflexivity | ]. split; [ listed | ].
    split; [ apply load_store | intros _ ].
    exact (grown_insert c i s _ Hfind (extends_image s _)).
  - rewrite serve_delete_episode.
    destruct (isAdmin proc username) eqn:Hadmin; cbn [negb]; [ | apply Hsame; listed ].
    rewrite Hload.
    destruct (list_find _ c) as [[i s] | ]; [ | apply Hsame; listed ].
    destruct (list_find _ (series_episodes s)) as [[idx e] | ]; [ | apply Hsame; listed ].
    eexists _, _, _. cbn [fst snd]. split; [ reflexivity | ]. split; [ listed | ].
    split; [ apply load_store | ].
    unfold by_admin. cbn [credentials]. rewrite Hadmin. discriminate.
  - rewrite serve_delete_series.
    destruct (isAdmin proc username) eqn:Hadmin; cbn [negb]; [ | apply Hsame; listed ].
    rewrite Hload.
    destruct (list_find _ c) as [[i s] | ]; [ | apply Hsame; listed ].
    eexists _, _, _. cbn [fst snd]. split; [ reflexivity | ]. split; [ listed | ].
    split; [ apply load_store | ].
    unfold by_admin. cbn [credentials]. rewrite Hadmin. discriminate.
Qed.

End Server.

Section Server.
Variable proc : Process.

Lemma run_snoc disk rs r : run proc disk (rs ++ [r]) = step proc (run proc disk rs) r.
Proof. unfold run. rewrite foldl_app. reflexivity. Qed.

Lemma run_catalogue disk c rs :
  Forall (beside_catalogue proc) rs → load proc disk = (Next c, disk) →
  ∃ c', load proc (run proc disk rs) = (Next c', run proc disk rs)
        ∧ (Forall (λ r, by_admin proc r = false) rs → grown c c').
Proof.
  intros Hrs. revert disk c. unfold run.
  induction Hrs as [ | r rs Hr _ IH ]; intros disk c Hload.
  - exists c. split; [ exact Hload | intros _; apply grown_refl ].
  - cbn [foldl].
    destruct (serve_catalogue proc r disk c Hr Hload) as (code & j & c1 & _ & _ & Hload1 & Hg1).
    destruct (IH _ c1 Hload1) as (c2 & Hload2 & Hg2).
    exists c2. split; [ exact Hload2 | ]. intros Hall.
    apply Forall_cons in Hall as [Hr' Hall].
    exact (grown_trans _ _ _ (Hg1 Hr') (Hg2 Hall)).
Qed.

Lemma after_upload_is_Some r (disk : Fs) p :
  is_Some (disk !! p) → is_Some (after_upload proc r disk !! p).
Proof.
  intros Hp. unfold after_upload. destruct (stored_upload r) as [u | ]; [ | exact Hp ].
  unfold writeFileSync. apply lookup_insert_is_Some.
  destruct (decide (path (stage proc u) = p)); auto.
Qed.

Lemma step_is_Some r (disk : Fs) p :
  is_Some (disk !! p) → is_Some (step proc disk r !! p).
Proof.
  intros Hp. unfold step.
  destruct (serve_shape proc r disk) as [-> | (_ & text & ->)].
  - apply after_upload_is_Some, Hp.
  - unfold writeFileSync. apply lookup_insert_is_Some.
    destruct (decide (SERIES_FILE proc = p)); [ auto | ].
    right. split; [ assumption | ]. apply after_upload_is_Some, Hp.
Qed.

Lemma step_other r (disk : Fs) p :
  p ≠ SERIES_FILE proc →
  (∀ u, stored_upload r = Some u → path (stage proc u) ≠ p) →
  step proc disk r !! p = disk !! p.
Proof.
  intros Hp Hu. unfold step.
  assert (after_upload proc r disk !! p = disk !! p) as Hup.
  { unfold after_upload. destruct (stored_upload r) as [u | ]; [ | reflexivity ].
    apply lookup_insert_ne. exact (Hu u eq_refl). }
  destruct (serve_shape proc r disk) as [-> | (_ & text & ->)]; [ exact Hup | ].
  unfold writeFileSync. rewrite lookup_insert_ne by congruence. exact Hup.
Qed.

End Server.

Section Server.
Variable proc : Process.
Context `{Bcrypt}.


Lemma file_name_storage u : extension (up_extname u) → file_name (storage_filename u).
Proof.
  intros [Hext _]. unfold storage_filename.
  apply (file_name_stamp "" (up_now u) (up_random u) (up_extname u));
    [ apply not_elem_of_nil | discriminate | exact Hext ].
Qed.

Lemma upload_apart u :
  extension (up_extname u) →
  path (stage proc u) ≠ SERIES_FILE proc ∧ path (stage proc u) ≠ AccountsA.USERS_FILE proc.
Proof.
  intros Hext. pose proof (file_name_storage u Hext) as Hname.
  cbn [path stage]. unfold UPLOAD_DIR, SERIES_FILE, AccountsA.USERS_FILE, DATA_DIR.
  split; intros E; apply path_join_name_inj2 in E as [E _];
    try discriminate;
    first [ exact Hname | apply file_name_uploads | apply file_name_data
          | apply file_name_series_json | apply file_name_users_json ].
Qed.

End Server.

End FactsA.

(** ** Variant A: the accounts *)

Module AccountFactsA.
Import AccountsA ProofsA ListFacts PathFacts FactsA.

Section Server.
Variable proc : VariantA.Process.
Context `{Bcrypt}.





Lemma load_users_next disk us st : load_users proc disk = (Next us, st) → st = disk.
Proof. unfold load_users. destruct (json_users _); congruence. Qed.

(** *** The two halves of a registration *)













End Server.

End AccountFactsA.

(** ** Variant B: the routes *)

Module FactsB.
Import VariantB ProofsB ListFacts PathFacts.

Section Server.
Variable dir : string.

Lemma serve_unverified r a st :
  credentials r = Some a → (∀ u, a ≠ Bearer u) →
  serve (route_of dir r) st
  = (Json 401 (Error match a with
                     | NoHeader => "Token manquant"
                     | _ => "Token invalide"
                     end), st).
Proof.
  intros Hr Ha.
  destruct r; cbn [credentials] in Hr; try discriminate; injection Hr as ->;
    cbn [route_of]; unfold serve;
    (destruct a as [ | | u ]; [ reflexivity | reflexivity | ]);
    exfalso; exact (Ha u eq_refl).
Qed.

(** *** What multer stores and what the clean-up removes *)

Lemma upload_any_eq uploads st :
  upload_any dir uploads st
  = (Next (stage dir <$> uploads), set_disk st (stored dir uploads (disk st))).
Proof.
  unfold upload_any, stored. revert st.
  induction uploads as [ | u us IH ]; intros st.
  - cbn. rewrite set_disk_same. reflexivity.
  - cbn [mapM foldl fmap list_fmap]. rewrite bind_eq. cbn [write_upload].
    rewrite bind_eq, IH. destruct st. reflexivity.
Qed.

Lemma stored_lookup_other uploads (d : Fs) p :
  p ∉ ((λ u, path (stage dir u)) <$> uploads) → stored dir uploads d !! p = d !! p.
Proof.
  unfold stored. revert d. induction uploads as [ | u us IH ]; intros d Hp; [ reflexivity | ].
  rewrite fmap_cons in Hp. apply not_elem_of_cons in Hp as [Hne Hp].
  cbn [foldl]. rewrite IH by exact Hp. apply lookup_insert_ne. congruence.
Qed.

Lemma stored_delete uploads (d : Fs) p :
  p ∉ ((λ u, path (stage dir u)) <$> uploads) →
  delete p (stored dir uploads d) = stored dir uploads (delete p d).
Proof.
  unfold stored. revert d. induction uploads as [ | u us IH ]; intros d Hp; [ reflexivity | ].
  rewrite fmap_cons in Hp. apply not_elem_of_cons in Hp as [Hne Hp].
  cbn [foldl]. rewrite IH by exact Hp. unfold writeFileSync.
  rewrite delete_insert_ne by congruence. reflexivity.
Qed.

Lemma fresh_cons u us (d : Fs) :
  fresh dir (u :: us) d →
  d !! path (stage dir u) = None
  ∧ (path (stage dir u) ∉ (λ u, path (stage dir u)) <$> us)
  ∧ fresh dir us d.
Proof.
  intros [Hnd Hfree]. rewrite fmap_cons in Hnd. apply NoDup_cons in Hnd as [Hu Hnd].
  split; [ apply Hfree; left | ]. split; [ exact Hu | ].
  split; [ exact Hnd | ]. intros x Hx. apply Hfree. right. exact Hx.
Qed.

(** With every file part on a path of its own that was free, removing the
    stored files gives the disk back. *)
Lemma forEach_unlink_fresh (wrap : handler State Reply unit → handler State Reply unit)
    uploads st :
  (∀ m s, (∃ s', m s = (Next tt, s')) → wrap m s = m s) →
  fresh dir uploads (disk st) →
  forEach (λ file, wrap (unlink (path file))) (stage dir <$> uploads)
    (set_disk st (stored dir uploads (disk st)))
  = (Next tt, st).
Proof.
  intros Hwrap. revert st. induction uploads as [ | u us IH ]; intros st Hfresh.
  - cbn. rewrite set_disk_same. reflexivity.
  - apply fresh_cons in Hfresh as (Hfree & Hu & Hfresh).
    rewrite fmap_cons. cbn [forEach]. rewrite bind_eq.
    assert (unlink (path (stage dir u)) (set_disk st (stored dir (u :: us) (disk st)))
            = (Next tt, set_disk st (stored dir us (disk st)))) as Hunlink.
    { assert (stored dir (u :: us) (disk st) !! path (stage dir u) = Some (up_data u))
        as Hl.
      { change (stored dir (u :: us) (disk st))
          with (stored dir us (writeFileSync (path (stage dir u)) (up_data u) (disk st))).
        rewrite stored_lookup_other by exact Hu. apply lookup_insert_eq. }
      assert (delete (path (stage dir u)) (stored dir (u :: us) (disk st))
              = stored dir us (disk st)) as Hd.
      { change (stored dir (u :: us) (disk st))
          with (stored dir us (writeFileSync (path (stage dir u)) (up_data u) (disk st))).
        rewrite stored_delete by exact Hu. unfold writeFileSync.
        rewrite delete_insert_eq, delete_id by exact Hfree. reflexivity. }
      unfold unlink, unlinkSync, existsSync. cbn [disk set_disk].
      rewrite Hl, Hd. rewrite bool_decide_eq_true_2 by eauto.
      destruct st. reflexivity. }
    rewrite Hwrap by eauto. rewrite Hunlink.
    specialize (IH st Hfresh). exact IH.
Qed.

Lemma discard_fresh uploads st :
  fresh dir uploads (disk st) →
  discard (stage dir <$> uploads) (set_disk st (stored dir uploads (disk st)))
  = (Next tt, st).
Proof.
  intros Hfresh. unfold discard.
  exact (forEach_unlink_fresh (λ m, m) uploads st (λ _ _ _, eq_refl) Hfresh).
Qed.

Lemma discard_quietly_fresh uploads st :
  fresh dir uploads (disk st) →
  discard_quietly (stage dir <$> uploads) (set_disk st (stored dir uploads (disk st)))
  = (Next tt, st).
Proof.
  intros Hfresh. unfold discard_quietly.
  apply (forEach_unlink_fresh (λ m, try_catch m (λ _, mret tt)) uploads st);
    [ | exact Hfresh ].
  intros m s [s' Hm]. unfold try_catch. rewrite Hm. reflexivity.
Qed.

(** *** [POST /api/series] *)

(** How [POST /api/series] ends: with the new series appended, the counter
    advanced and every file part on the disk; or with an error, the
    catalogue and the counter untouched and, when the file parts went to
    free paths of their own, the disk as it was. *)
Lemma post_series_outcome auth uploads pseudo name desc image episodes st :
  let res := serve (post_series dir auth uploads pseudo name desc image episodes) st in
  (∃ eps finalEpisodes,
      JSON.parse (or_else episodes "[]") = Some (JSON.Arr eps)
      ∧ final_episodes (stage dir <$> uploads) (nextSeriesId st) (or_else pseudo "") 0 eps
        = inr finalEpisodes
      ∧ res
        = let newSeries :=
            {| series_id := String_ (nextSeriesId st);
               series_name := or_else name "";
               series_desc := or_else desc "";
               series_image := or_else image "";
               series_pseudo := or_else pseudo "";
               series_episodes := finalEpisodes |} in
          (Json 200 (OneSeries newSeries),
           {| series := series st ++ [newSeries];
              nextSeriesId := increment (nextSeriesId st);
              disk := stored dir uploads (disk st) |}))
  ∨ (status res.1 ≠ 200
     ∧ series res.2 = series st ∧ nextSeriesId res.2 = nextSeriesId st
     ∧ (fresh dir uploads (disk st) → res.2 = st)).
Proof.
  cbv zeta.
  remember (serve (post_series dir auth uploads pseudo name desc image episodes) st)
    as res eqn:Hres.
  unfold serve, post_series in Hres. rewrite bind_eq in Hres.
  destruct auth as [ | | user ];
    try (right; subst res; split; [ discriminate | repeat split; reflexivity ]).
  cbn [authMiddleware mret handler_ret ret] in Hres. rewrite bind_eq in Hres.
  rewrite upload_any_eq in Hres.
  remember (set_disk st (stored dir uploads (disk st))) as st1 eqn:Hst1.
  assert (series st1 = series st ∧ nextSeriesId st1 = nextSeriesId st) as [Hs1 Hn1]
    by (subst st1; split; reflexivity).
  (* the [catch] block *)
  assert (∀ e st', series st' = series st → nextSeriesId st' = nextSeriesId st →
            (fresh dir uploads (disk st) → st' = st1) →
            ∃ r st2,
              ((discard_quietly (stage dir <$> uploads);;
                send 500 (Error (or_else (Some e) "Erreur serveur")))
                 : handler State Reply Empty_set) st' = (Sent r, st2)
              ∧ status r ≠ 200
              ∧ series st2 = series st ∧ nextSeriesId st2 = nextSeriesId st
              ∧ (fresh dir uploads (disk st) → st2 = st))
    as Hcatch.
  { intros e st' Hs' Hn' Hst'. rewrite bind_eq.
    pose proof (discard_quietly_next (stage dir <$> uploads) st') as Hq.
    destruct (disk_only_discard_quietly (stage dir <$> uploads) st') as [Hs3 Hn3].
    destruct (discard_quietly (stage dir <$> uploads) st') as [o st3] eqn:Hdq.
    cbn [fst snd] in *. subst o.
    eexists _, _. split; [ reflexivity | ]. split; [ discriminate | ].
    split; [ congruence | ]. split; [ congruence | ].
    intros Hfresh. rewrite (Hst' Hfresh), Hst1 in Hdq.
    rewrite (discard_quietly_fresh uploads st Hfresh) in Hdq. congruence. }
  (* a 400 after the clean-up *)
  assert (∀ (code : nat) msg, code ≠ 200 →
            ∃ r st2,
              try_catch (A := Empty_set)
                (discard (stage dir <$> uploads);; send code (Error msg))
                (λ e, discard_quietly (stage dir <$> uploads);;
                      send 500 (Error (or_else (Some e) "Erreur serveur")))
                st1 = (Sent r, st2)
              ∧ status r ≠ 200
              ∧ series st2 = series st ∧ nextSeriesId st2 = nextSeriesId st
              ∧ (fresh dir uploads (disk st) → st2 = st))
    as Hfail.
  { intros code msg Hcode. unfold try_catch. rewrite bind_eq.
    pose proof (discard_not_sent (stage dir <$> uploads) st1) as Hns.
    destruct (disk_only_discard (stage dir <$> uploads) st1) as [Hs2 Hn2].
    destruct (discard (stage dir <$> uploads) st1) as [[[] | r | e] st2] eqn:Hd;
      cbn [fst snd] in *.
    - eexists _, _. split; [ reflexivity | ]. split; [ exact Hcode | ].
      split; [ congruence | ]. split; [ congruence | ].
      intros Hfresh. rewrite Hst1 in Hd.
      rewrite (discard_fresh uploads st Hfresh) in Hd. congruence.
    - exfalso. exact (Hns r eq_refl).
    - apply Hcatch; [ congruence | congruence | ].
      intros Hfresh. rewrite Hst1 in Hd.
      rewrite (discard_fresh uploads st Hfresh) in Hd. discriminate. }
  destruct (falsy pseudo || falsy name) eqn:Hfalsy.
  { right. destruct (Hfail 400 "Pseudo et nom requis" ltac:(discriminate))
      as (r & st2 & Hout & Hr).
    rewrite Hout in Hres. subst res. exact Hr. }
  destruct (JSON.parse (or_else episodes "[]")) as [episodesData | ] eqn:Hparse.
  2: { right. destruct (Hfail 400 "Format d'épisodes invalide" ltac:(discriminate))
         as (r & st2 & Hout & Hr).
       rewrite Hout in Hres. subst res. exact Hr. }
  destruct (length_is_zero episodesData) as [[ | ] | ] eqn:Hzero.
  { right. destruct (Hfail 400 "Au moins un épisode est requis" ltac:(discriminate))
      as (r & st2 & Hout & Hr).
    rewrite Hout in Hres. subst res. exact Hr. }
  2: { right. destruct (Hcatch "TypeError" st1 Hs1 Hn1 (λ _, eq_refl))
         as (r & st2 & Hout & Hr).
       unfold try_catch, throw in Hres. rewrite Hout in Hres. subst res. exact Hr. }
  unfold try_catch in Hres. rewrite bind_eq in Hres. cbn [get] in Hres.
  destruct episodesData as [ | b | n | s | eps | kvs ];
    try (right; destruct (Hcatch "TypeError" st1 Hs1 Hn1 (λ _, eq_refl))
           as (r & st2 & Hout & Hr);
         unfold throw in Hres; rewrite Hout in Hres; subst res; exact Hr).
  destruct (final_episodes (stage dir <$> uploads) (nextSeriesId st1) (or_else pseudo "")
              0 eps) as [e | finalEpisodes] eqn:Hfinal.
  { right. destruct (Hcatch e st1 Hs1 Hn1 (λ _, eq_refl)) as (r & st2 & Hout & Hr).
    unfold throw in Hres. rewrite Hout in Hres. subst res. exact Hr. }
  left. rewrite bind_eq in Hres. cbn [put send] in Hres.
  exists eps, finalEpisodes. rewrite Hn1 in Hfinal.
  split; [ reflexivity | ]. split; [ exact Hfinal | ].
  subst res st1. reflexivity.
Qed.

End Server.

Section Server.
Variable dir : string.

Lemma serve_snd {St J} (m : handler St J Empty_set) st : (serve m st).2 = (m st).2.
Proof. unfold serve. destruct (m st) as [[[] | r | e] st']; reflexivity. Qed.

Lemma try_catch_eq {St J A} (body : handler St J A) recover st :
  try_catch body recover st
  = match body st with
    | (Thrown e, st') => recover e st'
    | r => r
    end.
Proof. reflexivity. Qed.

Lemma post_episode_series auth id upload title url pseudo st :
  let st' := (serve (post_episode dir auth id upload title url pseudo) st).2 in
  nextSeriesId st' = nextSeriesId st
  ∧ (series st' = series st
     ∨ ∃ i s e, series st !! i = Some s
                ∧ series st' = <[i := push_episode s e]> (series st)).
Proof.
  cbv zeta. rewrite serve_snd. unfold post_episode. rewrite bind_eq.
  destruct auth as [ | | user ]; try (split; [ reflexivity | left; reflexivity ]).
  cbn [authMiddleware mret handler_ret ret]. rewrite bind_eq.
  assert (disk_only (upload_single dir upload)) as Hup.
  { destruct upload as [u | ]; [ | apply disk_only_ret ].
    apply disk_only_bind; [ apply disk_only_write_upload | intros; apply disk_only_ret ]. }
  destruct (Hup st) as [Hs0 Hn0].
  assert (∃ file, (upload_single dir upload st).1 = Next file) as [file Hfile]
    by (destruct upload; eexists; reflexivity).
  destruct (upload_single dir upload st) as [o st0]. cbn [fst snd] in *. subst o.
  assert (disk_only ((match file with
                      | Some f => try_catch (unlink (path f)) (λ _, mret tt)
                      | None => mret tt
                      end;; send 500 (Error "Erreur serveur"))
                       : handler State Reply Empty_set)) as Hcatch.
  { apply disk_only_bind; [ | intros; apply disk_only_send ].
    destruct file; [ | apply disk_only_ret ].
    apply disk_only_try; [ apply disk_only_unlink | intros; apply disk_only_ret ]. }
  rewrite try_catch_eq, bind_eq. cbn [get].
  destruct (list_find _ (series st0)) as [[i seriesObj] | ] eqn:Hfind.
  - destruct (match file with Some _ => _ | None => _ end) as [src | ].
    + rewrite bind_eq. cbn [put send snd set_series nextSeriesId series].
      split; [ exact Hn0 | ]. right. exists i, seriesObj. eexists.
      rewrite <- Hs0. split; [ exact (list_find_lookup _ _ _ _ Hfind) | reflexivity ].
    + cbn [send snd]. split; [ exact Hn0 | left; exact Hs0 ].
  - assert (disk_only ((match file with
                        | Some f => unlink (path f)
                        | None => mret tt
                        end;; send 404 (Error "Série introuvable"))
                         : handler State Reply Empty_set)) as H404.
    { apply disk_only_bind; [ | intros; apply disk_only_send ].
      destruct file; [ apply disk_only_unlink | apply disk_only_ret ]. }
    destruct (H404 st0) as [Hs1 Hn1].
    match goal with
    | |- context [match ?X with _ => _ end] => destruct X as [[[] | r | e] st1] eqn:Hbody
    end; cbn [snd] in *.
    + split; [ congruence | left; congruence ].
    + destruct (Hcatch st1) as [Hs2 Hn2].
      split; [ congruence | left; congruence ].
Qed.

Lemma delete_series_series auth id st :
  let st' := (serve (delete_series dir auth id) st).2 in
  nextSeriesId st' = nextSeriesId st
  ∧ (series st' = series st
     ∨ by_admin (DeleteSeries auth id) = true
       ∧ ∃ idx, series st' = delete idx (series st)).
Proof.
  cbv zeta. rewrite serve_snd. unfold delete_series. rewrite bind_eq.
  destruct auth as [ | | user ]; try (split; [ reflexivity | left; reflexivity ]).
  cbn [authMiddleware mret handler_ret ret]. rewrite bind_eq. unfold adminMiddleware.
  destruct (isAdmin user) eqn:Hadmin; cbn [negb];
    [ | split; [ reflexivity | left; reflexivity ] ].
  cbn [mret handler_ret ret]. rewrite bind_eq. cbn [get].
  destruct (list_find _ (series st)) as [[idx s] | ];
    [ | split; [ reflexivity | left; reflexivity ] ].
  rewrite bind_eq.
  destruct (forEach_remove_cases dir (series_episodes s) st) as [Hok | [st1 Hthrow]].
  - rewrite Hok. rewrite bind_eq. cbn [get]. rewrite bind_eq.
    cbn [put send snd set_series set_disk series nextSeriesId].
    split; [ reflexivity | ]. right. split; [ exact Hadmin | ]. eauto.
  - pose proof (disk_only_forEach (λ ep, remove_upload dir (ep_src ep))
                  (series_episodes s)
                  (λ ep, disk_only_remove_upload dir (ep_src ep)) st) as [Hs Hn].
    rewrite Hthrow in *. cbn [snd] in *. split; [ exact Hn | left; exact Hs ].
Qed.

Lemma delete_episode_series auth seriesId episodeId st :
  let st' := (serve (delete_episode dir auth seriesId episodeId) st).2 in
  nextSeriesId st' = nextSeriesId st
  ∧ (series st' = series st
     ∨ by_admin (DeleteEpisode auth seriesId episodeId) = true
       ∧ ∃ i s idx,
           series st !! i = Some s
           ∧ series st'
             = <[i := set_episodes s (delete idx (series_episodes s))]> (series st)).
Proof.
  cbv zeta. rewrite serve_snd. unfold delete_episode. rewrite bind_eq.
  destruct auth as [ | | user ]; try (split; [ reflexivity | left; reflexivity ]).
  cbn [authMiddleware mret handler_ret ret]. rewrite bind_eq. unfold adminMiddleware.
  destruct (isAdmin user) eqn:Hadmin; cbn [negb];
    [ | split; [ reflexivity | left; reflexivity ] ].
  cbn [mret handler_ret ret]. rewrite bind_eq. cbn [get].
  destruct (list_find _ (series st)) as [[i s] | ] eqn:Hfind;
    [ | split; [ reflexivity | left; reflexivity ] ].
  destruct (list_find _ (series_episodes s)) as [[idx episode] | ];
    [ | split; [ reflexivity | left; reflexivity ] ].
  rewrite bind_eq. pose proof (remove_upload_cases dir (ep_src episode) st) as Hr.
  destruct (ep_src episode) as [[ | | | src | | ] | ];
    try (rewrite Hr; split; [ reflexivity | left; reflexivity ]).
  rewrite Hr. rewrite bind_eq. cbn [get]. rewrite bind_eq.
  cbn [put send snd set_series set_disk series nextSeriesId].
  split; [ reflexivity | ]. right. split; [ exact Hadmin | ].
  exists i, s, idx. split; [ exact (list_find_lookup _ _ _ _ Hfind) | reflexivity ].
Qed.

(** One request: the catalogue and the counter afterwards. *)
Lemma step_series st r :
  let st' := step dir st r in
  (series st' = series st ∧ nextSeriesId st' = nextSeriesId st)
  ∨ (∃ s, series st' = series st ++ [s]
          ∧ nextSeriesId st' = increment (nextSeriesId st)
          ∧ series_id s = String_ (nextSeriesId st))
  ∨ (∃ i s e, series st !! i = Some s
              ∧ series st' = <[i := push_episode s e]> (series st)
              ∧ nextSeriesId st' = nextSeriesId st)
  ∨ (by_admin r = true ∧ nextSeriesId st' = nextSeriesId st
     ∧ ((∃ i s idx,
           series st !! i = Some s
           ∧ series st'
             = <[i := set_episodes s (delete idx (series_episodes s))]> (series st))
        ∨ ∃ idx, series st' = delete idx (series st))).
Proof.
  cbv zeta.
  destruct r as [ | id | auth uploads pseudo name desc image episodes
                | auth id upload title url pseudo | auth id | auth sid eid ];
    unfold step; cbn [route_of].
  - left. split; reflexivity.
  - left. rewrite serve_snd. unfold get_one_series. rewrite bind_eq. cbn [get].
    destruct (list_find _ _) as [[i s] | ]; split; reflexivity.
  - destruct (post_series_cases dir auth uploads pseudo name desc image episodes st)
      as [(s & eps & files & _ & Hs & Hn & Hid & _) | (_ & Hs & Hn)].
    + right. left. exists s. auto.
    + left. auto.
  - destruct (post_episode_series auth id upload title url pseudo st)
      as [Hn [Hs | (i & s & e & Hi & Hs)]].
    + left. auto.
    + right. right. left. exists i, s, e. auto.
  - destruct (delete_series_series auth id st) as [Hn [Hs | (Ha & idx & Hs)]].
    + left. auto.
    + right. right. right. split; [ exact Ha | ]. split; [ exact Hn | ]. right. eauto.
  - destruct (delete_episode_series auth sid eid st)
      as [Hn [Hs | (Ha & i & s & idx & Hi & Hs)]].
    + left. auto.
    + right. right. right. split; [ exact Ha | ]. split; [ exact Hn | ]. left.
      exists i, s, idx. auto.
Qed.

End Server.

Section Server.
Variable dir : string.

Lemma run_last d rs r : run dir d (rs ++ [r]) = step dir (run dir d rs) r.
Proof. unfold run. rewrite foldl_app. reflexivity. Qed.

Lemma ids_insert (l : list Series) i s s' :
  l !! i = Some s → series_id s' = series_id s →
  series_id <$> <[i := s']> l = series_id <$> l.
Proof.
  intros Hi Hid. rewrite list_fmap_insert, Hid. apply list_insert_id.
  rewrite list_lookup_fmap, Hi. reflexivity.
Qed.

Lemma ids_below_fresh st :
  ids_below st → String_ (nextSeriesId st) ∉ series_id <$> series st.
Proof.
  intros Hbelow Hin. apply list_elem_of_fmap in Hin as (s & Hid & Hs).
  destruct (Hbelow s Hs) as (k & Hk & Hlt). rewrite Hk in Hid.
  apply String_inj in Hid. lia.
Qed.

Lemma step_ids_distinct st r :
  ids_below st → NoDup (series_id <$> series st) →
  NoDup (series_id <$> series (step dir st r)).
Proof.
  intros Hbelow Hnd.
  destruct (step_series dir st r)
    as [[Hs _] | [(s & Hs & _ & Hid) | [(i & s & e & Hi & Hs & _)
       | (_ & _ & [(i & s & idx & Hi & Hs) | (idx & Hs)])]]]; rewrite Hs.
  - exact Hnd.
  - rewrite fmap_app. apply NoDup_app. split; [ exact Hnd | ].
    split; [ | apply NoDup_singleton ].
    intros x Hx Hx'. apply list_elem_of_singleton in Hx'. subst x. cbn in Hx.
    rewrite Hid in Hx. exact (ids_below_fresh st Hbelow Hx).
  - rewrite (ids_insert _ i s) by (assumption || reflexivity). exact Hnd.
  - rewrite (ids_insert _ i s) by (assumption || reflexivity). exact Hnd.
  - rewrite list_fmap_delete. exact (sublist_NoDup _ _ Hnd (sublist_delete _ idx)).
Qed.

Lemma run_counter d rs r :
  (nextSeriesId (run dir d rs) ≤ nextSeriesId (run dir d (rs ++ [r])))%N.
Proof. rewrite run_last. apply step_counter. Qed.

Lemma run_ids_distinct d rs :
  (nextSeriesId (run dir d rs) < 2 ^ 53)%N →
  NoDup (series_id <$> series (run dir d rs)).
Proof.
  induction rs as [ | r rs IH ] using rev_ind; intros Hlt.
  - constructor.
  - pose proof (run_counter d rs r) as Hmono. rewrite run_last.
    apply step_ids_distinct; [ apply run_ids_below | apply IH ]; lia.
Qed.

(** *** What stays of the catalogue *)

Lemma extends_same s : extends s s.
Proof. repeat split; reflexivity. Qed.

Lemma extends_chain s1 s2 s3 : extends s1 s2 → extends s2 s3 → extends s1 s3.
Proof.
  intros (A1 & A2 & A3 & A4 & A5 & A6) (B1 & B2 & B3 & B4 & B5 & B6).
  repeat split; try congruence. etrans; eassumption.
Qed.

Lemma extends_added s e : extends s (push_episode s e).
Proof. repeat split; try reflexivity. cbn. apply prefix_app_r. reflexivity. Qed.

Lemma grown_same c : grown c c.
Proof. intros i s Hi. exists s. split; [ exact Hi | apply extends_same ]. Qed.

Lemma grown_chain c1 c2 c3 : grown c1 c2 → grown c2 c3 → grown c1 c3.
Proof.
  intros H12 H23 i s1 H1. destruct (H12 i s1 H1) as (s2 & H2 & E12).
  destruct (H23 i s2 H2) as (s3 & H3 & E23). exists s3.
  split; [ exact H3 | exact (extends_chain _ _ _ E12 E23) ].
Qed.

Lemma step_grown st r :
  by_admin r = false → grown (series st) (series (step dir st r)).
Proof.
  intros Hr.
  destruct (step_series dir st r)
    as [[Hs _] | [(s & Hs & _ & Hid) | [(i & s & e & Hi & Hs & _)
       | (Ha & _)]]]; [ | | | congruence ]; rewrite Hs.
  - apply grown_same.
  - intros i t Hi. exists t. split; [ apply lookup_app_l_Some, Hi | apply extends_same ].
  - intros j t Hj. destruct (decide (i = j)) as [<- | Hne].
    + exists (push_episode s e).
      rewrite list_lookup_insert_eq by (eapply lookup_lt_Some; eauto).
      split; [ reflexivity | ]. assert (t = s) as -> by congruence. apply extends_added.
    + exists t. rewrite list_lookup_insert_ne by exact Hne.
      split; [ exact Hj | apply extends_same ].
Qed.

Lemma run_grown d rs rs' :
  Forall (λ r, by_admin r = false) rs' →
  grown (series (run dir d rs)) (series (run dir d (rs ++ rs'))).
Proof.
  induction rs' as [ | r rs' IH ] using rev_ind; intros Hrs'.
  - rewrite app_nil_r. apply grown_same.
  - apply Forall_app in Hrs' as [Hrs' Hr]. apply Forall_cons in Hr as [Hr _].
    rewrite app_assoc, run_last.
    exact (grown_chain _ _ _ (IH Hrs') (step_grown _ r Hr)).
Qed.

(** *** Adding an episode and removing it again *)

Lemma set_episodes_push s e : set_episodes (push_episode s e) (series_episodes s) = s.
Proof. destruct s. reflexivity. Qed.

Lemma startsWith_uploads f : startsWith ("/uploads/" +:+ f) "/uploads/" = true.
Proof. unfold startsWith. cbn. apply prefix_nil. Qed.

End Server.

Section Server.
Variable dir : string.

Lemma serve_post_episode_upload user id u title url pseudo st i seriesObj :
  list_find (λ s, series_id s = id) (series st) = Some (i, seriesObj) →
  serve (post_episode dir (Bearer user) id (Some u) title url pseudo) st
  = let epNumber := (N.of_nat (length (series_episodes seriesObj)) + 1)%N in
    let newEpisode :=
      {| ep_id := series_id seriesObj +:+ "-" +:+ String_ epNumber;
         ep_title := Some (JSON.Str (or_else title ("Épisode " +:+ String_ epNumber)));
         ep_src := Some (JSON.Str ("/uploads/" +:+ storage_filename u));
         ep_pseudo := or_else pseudo (username user) |} in
    (Json 200 (OneEpisode newEpisode),
     {| series := <[i := push_episode seriesObj newEpisode]> (series st);
        nextSeriesId := nextSeriesId st;
        disk := writeFileSync (path (stage dir u)) (up_data u) (disk st) |}).
Proof.
  intros Hfind. unfold serve, post_episode. rewrite bind_eq.
  cbn [authMiddleware mret handler_ret ret]. rewrite bind_eq.
  cbn [upload_single]. rewrite bind_eq. cbn [write_upload mret handler_ret ret].
  rewrite try_catch_eq, bind_eq. cbn [get series set_disk]. rewrite Hfind.
  rewrite bind_eq. reflexivity.
Qed.

Lemma serve_delete_episode_admin adm seriesId episodeId st i seriesObj epIdx episode src :
  isAdmin adm = true →
  list_find (λ s, series_id s = seriesId) (series st) = Some (i, seriesObj) →
  list_find (λ ep, ep_id ep = episodeId) (series_episodes seriesObj)
  = Some (epIdx, episode) →
  ep_src episode = Some (JSON.Str src) →
  serve (delete_episode dir (Bearer adm) seriesId episodeId) st
  = (Json 200 Success,
     {| series :=
          <[i := set_episodes seriesObj (delete epIdx (series_episodes seriesObj))]>
            (series st);
        nextSeriesId := nextSeriesId st;
        disk := if startsWith src "/uploads/"
                then delete (path_join dir src) (disk st) else disk st |}).
Proof.
  intros Hadmin Hs He Hsrc. unfold serve, delete_episode. rewrite bind_eq.
  cbn [authMiddleware mret handler_ret ret]. rewrite bind_eq. unfold adminMiddleware.
  rewrite Hadmin. cbn [negb mret handler_ret ret]. rewrite bind_eq. cbn [get].
  rewrite Hs, He. rewrite bind_eq.
  pose proof (remove_upload_cases dir (ep_src episode) st) as Hr. rewrite Hsrc in Hr.
  rewrite Hsrc, Hr. rewrite bind_eq. cbn [get]. rewrite bind_eq. reflexivity.
Qed.



End Server.

Section Server.
Variable dir : string.

Lemma serve_post_episode_url user id title url pseudo st i seriesObj :
  list_find (λ s, series_id s = id) (series st) = Some (i, seriesObj) →
  falsy url = false →
  serve (post_episode dir (Bearer user) id None title url pseudo) st
  = let epNumber := (N.of_nat (length (series_episodes seriesObj)) + 1)%N in
    let newEpisode :=
      {| ep_id := series_id seriesObj +:+ "-" +:+ String_ epNumber;
         ep_title := Some (JSON.Str (or_else title ("Épisode " +:+ String_ epNumber)));
         ep_src := Some (JSON.Str (or_else url ""));
         ep_pseudo := or_else pseudo (username user) |} in
    (Json 200 (OneEpisode newEpisode),
     {| series := <[i := push_episode seriesObj newEpisode]> (series st);
        nextSeriesId := nextSeriesId st;
        disk := disk st |}).
Proof.
  intros Hfind Hurl. unfold serve, post_episode. rewrite bind_eq.
  cbn [authMiddleware mret handler_ret ret]. rewrite bind_eq.
  cbn [upload_single mret handler_ret ret].
  rewrite try_catch_eq, bind_eq. cbn [get]. rewrite Hfind, Hurl.
  rewrite bind_eq. reflexivity.
Qed.

End Server.

End FactsB.

(** ** Variant B: the accounts *)

Module AccountFactsB.
Import AccountsB ListFacts.

Section Server.
Context `{Bcrypt}.

Lemma register_begin_checks username_ password_ us :
  register_begin username_ password_ us
  = if falsy username_ || falsy password_ then
      (Sent (Json 400 (Error "Username et password requis")), us)
    else if (code_unit_length (or_else username_ "") <? 3)%nat then
      (Sent (Json 400 (Error "Le pseudo doit contenir au moins 3 caractères")), us)
    else if (code_unit_length (or_else password_ "") <? 6)%nat then
      (Sent (Json 400 (Error "Le mot de passe doit contenir au moins 6 caractères")), us)
    else
      match list_find (λ u, username u = or_else username_ "") us with
      | Some _ => (Sent (Json 400 (Error "Ce pseudo est déjà pris")), us)
      | None =>
          (Next {| reg_username := or_else username_ "";
                   reg_password := or_else password_ "" |}, us)
      end.
Proof.
  unfold register_begin, try_catch.
  destruct (falsy username_ || falsy password_); [ reflexivity | ].
  destruct (code_unit_length (or_else username_ "") <? 3)%nat; [ reflexivity | ].
  destruct (code_unit_length (or_else password_ "") <? 6)%nat; [ reflexivity | ].
  rewrite bind_eq. cbn [get].
  destruct (list_find _ us) as [[i u] | ]; reflexivity.
Qed.

Lemma serve_register_push r salt us :
  serve (register_end r salt) us
  = (Json 200 (Token (reg_username r) false),
     us ++ [{| username := reg_username r;
               password := bcrypt_hash (reg_password r) 8 salt;
               isAdmin := false |}]).
Proof. reflexivity. Qed.

Lemma serve_login_memory username_ password_ us :
  serve (login username_ password_) us
  = if falsy username_ || falsy password_ then
      (Json 400 (Error "Username et password requis"), us)
    else
      match list_find (λ u, username u = or_else username_ "") us with
      | None => (Json 401 (Error "Identifiants incorrects"), us)
      | Some (_, user) =>
          if bcrypt_compare (or_else password_ "") (password user)
          then (Json 200 (Token (username user) (isAdmin user)), us)
          else (Json 401 (Error "Identifiants incorrects"), us)
      end.
Proof.
  unfold serve, login, try_catch.
  destruct (falsy username_ || falsy password_); [ reflexivity | ].
  rewrite bind_eq. cbn [get].
  destruct (list_find _ us) as [[i u] | ]; [ | reflexivity ].
  destruct (bcrypt_compare _ _); reflexivity.
Qed.

Lemma handle_accounts_ok salt sv e : accounts_ok salt sv → accounts_ok salt (handle sv e).
Proof.
  intros [(rest & Hus & Hrest) Hpend].
  destruct e as [u p | k s | u p ]; cbn [handle].
  - rewrite register_begin_checks.
    destruct (falsy u || falsy p); [ split; eauto | ].
    destruct (code_unit_length (or_else u "") <? 3)%nat eqn:Hlen; [ split; eauto | ].
    destruct (code_unit_length (or_else p "") <? 6)%nat; [ split; eauto | ].
    destruct (list_find _ (users sv)) as [[i x] | ] eqn:Hfind; [ split; eauto | ].
    split; [ eauto | ]. cbn [hashing]. apply Forall_app. split; [ exact Hpend | ].
    constructor; [ | constructor ]. cbn [reg_username]. split.
    + intros Hadmin. apply list_find_None in Hfind. rewrite Hus in Hfind.
      apply Forall_cons in Hfind as [Hfind _]. apply Hfind. cbn. congruence.
    + apply Nat.ltb_ge in Hlen. exact Hlen.
  - destruct (hashing sv !! k) as [r | ] eqn:Hk; [ | split; eauto ].
    rewrite serve_register_push. cbn [snd users hashing]. split.
    + exists (rest ++ [{| username := reg_username r;
                          password := bcrypt_hash (reg_password r) 8 s;
                          isAdmin := false |}]).
      rewrite Hus. split; [ reflexivity | ].
      apply Forall_app. split; [ exact Hrest | ]. constructor; [ | constructor ].
      split; [ reflexivity | ]. rewrite Forall_forall in Hpend.
      apply (Hpend r). apply list_elem_of_lookup. eauto.
    + rewrite Forall_forall in Hpend. apply Forall_forall.
      intros x Hx. apply Hpend. eapply list_elem_of_delete_inv, Hx.
  - split; eauto.
Qed.

Lemma schedule_accounts_ok salt es : accounts_ok salt (schedule salt es).
Proof.
  unfold schedule.
  assert (accounts_ok salt {| users := initial salt; hashing := [] |}) as H0.
  { split; [ | constructor ]. exists []. split; [ reflexivity | constructor ]. }
  revert H0. generalize {| users := initial salt; hashing := [] |}.
  induction es as [ | e es IH ]; intros sv Hsv; [ exact Hsv | ].
  cbn [foldl]. apply IH, handle_accounts_ok, Hsv.
Qed.

(** *** One registration at a time *)

Lemma names_snoc us u :
  username <$> (us ++ [u]) = (username <$> us) ++ [username u].
Proof. rewrite fmap_app. reflexivity. Qed.

Lemma register_then_hash sv u p salt :
  hashing sv = [] → NoDup (username <$> users sv) →
  hashing (handle (handle sv (Register u p)) (Hashed 0 salt)) = []
  ∧ NoDup (username <$> users (handle (handle sv (Register u p)) (Hashed 0 salt))).
Proof.
  intros Hh Hnd. cbn [handle]. rewrite register_begin_checks, Hh.
  assert (∀ us, hashing {| users := us; hashing := [] |} !! 0 = None) as Hnone
    by reflexivity.
  destruct (falsy u || falsy p); [ cbn; auto | ].
  destruct (code_unit_length (or_else u "") <? 3)%nat; [ cbn; auto | ].
  destruct (code_unit_length (or_else p "") <? 6)%nat; [ cbn; auto | ].
  destruct (list_find _ (users sv)) as [[i x] | ] eqn:Hfind; [ cbn; auto | ].
  cbn [hashing users app lookup list_lookup]. rewrite serve_register_push.
  cbn [snd users hashing delete list_delete reg_username reg_password].
  split; [ reflexivity | ]. rewrite names_snoc. apply NoDup_app.
  split; [ exact Hnd | ]. split; [ | apply NoDup_singleton ].
  intros n Hn Hn'. apply list_elem_of_singleton in Hn'. subst n. cbn [username] in Hn.
  apply list_elem_of_fmap in Hn as (x & Hx & Hin).
  apply list_find_None in Hfind. rewrite Forall_forall in Hfind.
  apply (Hfind x Hin). congruence.
Qed.

Lemma one_at_a_time_ok es :
  ∀ sv, hashing sv = [] → NoDup (username <$> users sv) → one_at_a_time es →
    NoDup (username <$> users (foldl handle sv es)).
Proof.
  induction es as [es IH] using (induction_ltof1 _ (@length Event)).
  unfold ltof in IH. intros sv Hh Hnd Hes.
  destruct es as [ | [u p | k s | u p] es ]; cbn [one_at_a_time] in Hes;
    [ exact Hnd | | contradiction | ].
  - destruct es as [ | [u' p' | [ | k] s | u' p'] es ]; try contradiction.
    cbn [foldl].
    destruct (register_then_hash sv u p s Hh Hnd) as [Hh' Hnd'].
    apply IH; [ cbn; lia | exact Hh' | exact Hnd' | exact Hes ].
  - cbn [foldl handle]. apply IH; [ cbn; lia | exact Hh | exact Hnd | exact Hes ].
Qed.

End Server.

End AccountFactsB.

(** ** What the routes of the file-backed server guarantee *)

Module RoutesA.
Module A := VariantA.
Import ProofsA ListFacts PathFacts FactsA Samples.

(** The sample disk holds the sample catalogue. *)
Lemma load_blob_disk : A.load proc0 blob_disk = (Next [blob_series], blob_disk).
Proof.
  unfold blob_disk.
  apply load_other; [ vm_compute; discriminate | ].
  apply load_other; [ vm_compute; discriminate | ].
  apply load_store.
Qed.

(** [authMiddleware], in front of every route but the listing: a request
    whose header is missing, is not made of two parts, or holds a token
    that [jwt.verify] rejects is answered 401, and the disk is left as it
    was: the file part of the request is not stored. *)
Theorem unauthenticated_request_rejected proc r a disk :
  A.credentials r = Some a → (∀ u, a ≠ A.Bearer u) →
  serve (A.route_of proc r) disk
  = (Json 401 (A.Error match a with
                       | A.NoHeader => "No token"
                       | A.NotTwoParts => "Bad token"
                       | _ => "Invalid token"
                       end), disk).
Proof. apply serve_rejected. Qed.

Lemma unauthenticated_request_rejected_witness :
  serve (A.route_of proc0
           (A.PostEpisode A.NotTwoParts "1700000000000-7" (Some clip) None None None 1 2))
    blob_disk
  = (Json 401 (A.Error "Bad token"), blob_disk).
Proof.
  apply (unauthenticated_request_rejected proc0
           (A.PostEpisode A.NotTwoParts "1700000000000-7" (Some clip) None None None 1 2)
           A.NotTwoParts blob_disk); [ reflexivity | discriminate ].
Defined.

(** The file-backed server has no [unlink]: along any requests, a file that
    is on the disk stays on the disk, and a file that is neither the
    catalogue nor the target of a stored file part keeps its contents. *)
Theorem files_never_removed proc disk rs p :
  (is_Some (disk !! p) → is_Some (A.run proc disk rs !! p))
  ∧ (p ≠ A.SERIES_FILE proc →
     (∀ r u, r ∈ rs → A.stored_upload r = Some u → A.path (A.stage proc u) ≠ p) →
     A.run proc disk rs !! p = disk !! p).
Proof.
  split.
  - revert disk. unfold A.run. induction rs as [ | r rs IH ]; intros disk Hp; [ exact Hp | ].
    cbn [foldl]. apply IH, step_is_Some, Hp.
  - intros Hp. revert disk. unfold A.run.
    induction rs as [ | r rs IH ]; intros disk Hu; [ reflexivity | ].
    cbn [foldl]. rewrite IH by (intros r' u Hr'; apply Hu; right; exact Hr').
    apply step_other; [ exact Hp | ]. intros u. apply Hu. left.
Qed.

Lemma files_never_removed_witness :
  is_Some (A.run proc0 blob_disk [A.DeleteSeries (A.Bearer "AnimeForever-admin") "1700000000000-7"]
             !! "/srv/anime-forever/uploads/1700000000002-9.mp4").
Proof.
  apply (proj1 (files_never_removed proc0 blob_disk
                  [A.DeleteSeries (A.Bearer "AnimeForever-admin") "1700000000000-7"]
                  "/srv/anime-forever/uploads/1700000000002-9.mp4")).
  vm_compute. eauto.
Defined.

(** A request that is not answered 200 writes nothing but the file part
    that multer stored for it. *)
Theorem failed_request_writes_upload_only proc r disk :
  status (serve (A.route_of proc r) disk).1 ≠ 200 →
  (serve (A.route_of proc r) disk).2 = A.after_upload proc r disk.
Proof.
  intros Hst. destruct (serve_shape proc r disk) as [H | (H & _)]; [ exact H | ].
  contradiction.
Qed.

Lemma failed_request_writes_upload_only_witness :
  (serve (A.route_of proc0 (A.PutImage (A.Bearer "bob") "nowhere" (Some "/uploads/x.png")))
     blob_disk).2 = blob_disk.
Proof.
  apply (failed_request_writes_upload_only proc0
           (A.PutImage (A.Bearer "bob") "nowhere" (Some "/uploads/x.png")) blob_disk).
  vm_compute. discriminate.
Defined.



(** Requests that do not carry the token of the administrator only add:
    after any number of them every series of the catalogue is still at its
    place, with its identifier, name, description and author, and with
    its episodes followed by those added since. *)
Theorem ordinary_users_only_add proc disk c rs :
  A.load proc disk = (Next c, disk) →
  Forall (A.beside_catalogue proc) rs →
  Forall (λ r, A.by_admin proc r = false) rs →
  ∃ c', A.load proc (A.run proc disk rs) = (Next c', A.run proc disk rs)
        ∧ ∀ i s, c !! i = Some s → ∃ s', c' !! i = Some s' ∧ A.extends s s'.
Proof.
  intros Hload Hrs Hall.
  destruct (run_catalogue proc disk c rs Hrs Hload) as (c' & Hload' & Hg).
  exists c'. split; [ exact Hload' | exact (Hg Hall) ].
Qed.

Lemma ordinary_users_only_add_witness :
  ∃ c', A.load proc0
          (A.run proc0 blob_disk
             [A.PostEpisode (A.Bearer "bob") "1700000000000-7" None (Some "E2") None
                (Some "https://cdn.example/e2.mp4") 1700000000005 12;
              A.DeleteSeries (A.Bearer "bob") "1700000000000-7"])
        = (Next c',
           A.run proc0 blob_disk
             [A.PostEpisode (A.Bearer "bob") "1700000000000-7" None (Some "E2") None
                (Some "https://cdn.example/e2.mp4") 1700000000005 12;
              A.DeleteSeries (A.Bearer "bob") "1700000000000-7"])
        ∧ ∀ i s, [blob_series] !! i = Some s → ∃ s', c' !! i = Some s' ∧ A.extends s s'.
Proof.
  apply (ordinary_users_only_add proc0 blob_disk [blob_series]).
  - exact load_blob_disk.
  - repeat constructor.
  - repeat constructor.
Defined.

(** [Date.now() + '-' + Math.round(Math.random()*1e9)]: two identifiers are
    equal only if both the clock and the draw are, and two stored file
    names only if the extension is the same as well. *)
Theorem identifiers_differ :
  (∀ now random now' random',
     A.new_id now random = A.new_id now' random' → now = now' ∧ random = random')
  ∧ (∀ u u',
       extension (A.up_extname u) → extension (A.up_extname u') →
       A.storage_filename u = A.storage_filename u' →
       A.up_now u = A.up_now u' ∧ A.up_random u = A.up_random u'
       ∧ A.up_extname u = A.up_extname u').
Proof.
  split.
  - intros now random now' random' E. unfold A.new_id in E.
    rewrite <- (append_nil_r (String_ random)), <- (append_nil_r (String_ random')) in E.
    destruct (stamp_inj now random now' random' "" "") as (H1 & H2 & _);
      [ discriminate | discriminate | exact E | auto ].
  - intros u u' [_ He] [_ He'] E. unfold A.storage_filename in E.
    apply (stamp_inj _ _ _ _ _ _); [ | | exact E ].
    + intros c Hc Hd. rewrite (He c Hc) in Hd. exact (not_digit_dot Hd).
    + intros c Hc Hd. rewrite (He' c Hc) in Hd. exact (not_digit_dot Hd).
Qed.

Lemma identifiers_differ_witness :
  A.up_now clip = 1700000000000%N ∧ A.up_random clip = 42%N ∧ A.up_extname clip = ".mp4".
Proof.
  apply (proj2 identifiers_differ clip
           {| A.up_originalname := "other.mp4"; A.up_extname := ".mp4"; A.up_data := "";
              A.up_now := 1700000000000; A.up_random := 42 |}).
  - split; [ unfold slash_free; apply (bool_decide_unpack _); vm_compute; exact I | ].
    intros c [= <-]. reflexivity.
  - split; [ unfold slash_free; apply (bool_decide_unpack _); vm_compute; exact I | ].
    intros c [= <-]. reflexivity.
  - vm_compute. reflexivity.
Defined.

(** Multer stores a file part under [uploads/], beside the two stores: for
    an extension as [path.extname] returns them the stored path is neither
    [data/series.json] nor [data/users.json], so no request overwrites a
    store with an upload. *)
Theorem uploads_beside_stores proc u :
  extension (A.up_extname u) →
  A.path (A.stage proc u) ≠ A.SERIES_FILE proc
  ∧ A.path (A.stage proc u) ≠ AccountsA.USERS_FILE proc
  ∧ (∀ auth, A.beside_catalogue proc (A.PostUpload auth (Some u)))
  ∧ (∀ auth id title type src now random,
       A.beside_catalogue proc (A.PostEpisode auth id (Some u) title type src now random)).
Proof.
  intros Hext. destruct (upload_apart proc u Hext) as [H1 H2].
  split; [ exact H1 | ]. split; [ exact H2 | ]. split; intros; exact H1.
Qed.

Lemma uploads_beside_stores_witness :
  A.path (A.stage proc0 clip) ≠ A.SERIES_FILE proc0.
Proof.
  assert (extension (A.up_extname clip)) as Hext.
  { split; [ unfold slash_free; apply (bool_decide_unpack _); vm_compute; exact I | ].
    intros c [= <-]. reflexivity. }
  exact (proj1 (uploads_beside_stores proc0 clip Hext)).
Defined.

(** [POST /api/upload]: the file part is stored at the path that the
    answered URL names under the directory of the server, and nothing else
    is written; without a file part the answer is 400 and nothing is
    written. *)
Theorem upload_stored_at_url proc username upload disk :
  A.__dirname proc ≠ "" →
  serve (A.post_upload proc (A.Bearer username) upload) disk
  = match upload with
    | None => (Json 400 (A.Error "No file uploaded"), disk)
    | Some u =>
        let url := "/uploads/" +:+ A.storage_filename u in
        (Json 200 (A.Uploaded url),
         writeFileSync (path_join (A.__dirname proc) url) (A.up_data u) disk)
    end.
Proof.
  intros Hdir. rewrite serve_post_upload. destruct upload as [u | ]; [ | reflexivity ].
  cbv zeta. do 2 f_equal. cbn [A.path A.stage]. unfold A.UPLOAD_DIR.
  apply (path_join_twice (A.__dirname proc) "uploads" (A.storage_filename u) Hdir
           file_name_uploads).
  unfold A.storage_filename. apply append_nonempty_l, String_nonempty.
Qed.

Lemma upload_stored_at_url_witness :
  serve (A.post_upload proc0 (A.Bearer "bob") (Some clip)) ∅
  = (Json 200 (A.Uploaded "/uploads/1700000000000-42.mp4"),
     writeFileSync "/srv/anime-forever/uploads/1700000000000-42.mp4" "bytes" ∅).
Proof.
  rewrite (upload_stored_at_url proc0 "bob" (Some clip) ∅) by discriminate.
  cbv zeta.
  assert (path_join (A.__dirname proc0) ("/uploads/" +:+ A.storage_filename clip)
          = "/srv/anime-forever/uploads/1700000000000-42.mp4") as ->
    by (vm_compute; reflexivity).
  reflexivity.
Defined.



(** [DELETE /api/series/:id/episodes/:epId] by the administrator, when it
    answers 200: the first series with that identifier loses the first of
    its episodes with that identifier, and nothing else of the catalogue
    changes. *)
Theorem delete_episode_first_match proc username id epId disk c :
  A.load proc disk = (Next c, disk) →
  (serve (A.delete_episode proc (A.Bearer username) id epId) disk).1
  = Json 200 A.Success →
  ∃ i s idx e,
    A.isAdmin proc username = true
    ∧ c !! i = Some s ∧ A.series_id s = id
    ∧ (∀ j s', c !! j = Some s' → j < i → A.series_id s' ≠ id)
    ∧ A.series_episodes s !! idx = Some e ∧ A.ep_id e = epId
    ∧ (∀ j e', A.series_episodes s !! j = Some e' → j < idx → A.ep_id e' ≠ epId)
    ∧ A.load proc (serve (A.delete_episode proc (A.Bearer username) id epId) disk).2
      = (Next (<[i := A.set_episodes s (delete idx (A.series_episodes s))]> c),
         (serve (A.delete_episode proc (A.Bearer username) id epId) disk).2).
Proof.
  intros Hload. rewrite serve_delete_episode.
  destruct (A.isAdmin proc username); cbn [negb]; [ | discriminate ].
  rewrite Hload.
  destruct (list_find _ c) as [[i s] | ] eqn:Hs; [ | discriminate ].
  destruct (list_find _ (A.series_episodes s)) as [[idx e] | ] eqn:He; [ | discriminate ].
  intros _. apply list_find_Some in Hs as (Hi & Hid & Hfirst).
  apply list_find_Some in He as (Hidx & Hep & Hfirst').
  exists i, s, idx, e. cbn [snd].
  repeat split; try assumption; try reflexivity. apply load_store.
Qed.

Lemma delete_episode_first_match_witness :
  ∃ i s idx e,
    A.isAdmin proc0 "AnimeForever-admin" = true
    ∧ [blob_series] !! i = Some s ∧ A.series_id s = "1700000000000-7"
    ∧ (∀ j s', [blob_series] !! j = Some s' → j < i → A.series_id s' ≠ "1700000000000-7")
    ∧ A.series_episodes s !! idx = Some e ∧ A.ep_id e = "1700000000003-10"
    ∧ (∀ j e', A.series_episodes s !! j = Some e' → j < idx →
               A.ep_id e' ≠ "1700000000003-10")
    ∧ A.load proc0
        (serve (A.delete_episode proc0 (A.Bearer "AnimeForever-admin") "1700000000000-7"
                  "1700000000003-10") blob_disk).2
      = (Next (<[i := A.set_episodes s (delete idx (A.series_episodes s))]> [blob_series]),
         (serve (A.delete_episode proc0 (A.Bearer "AnimeForever-admin") "1700000000000-7"
                   "1700000000003-10") blob_disk).2).
Proof.
  apply (delete_episode_first_match proc0 "AnimeForever-admin" "1700000000000-7"
           "1700000000003-10" blob_disk [blob_series] load_blob_disk).
  vm_compute. reflexivity.
Defined.

(** [readJson] falls back on what is falsy: a catalogue file that is
    empty, or that holds [null], [false], [0] or the empty string, is read
    as the empty catalogue, and the listing answers the empty array. *)
Theorem falsy_store_reads_empty proc disk text :
  disk !! A.SERIES_FILE proc = Some text →
  text = "" ∨ (∃ v, JSON.parse text = Some v ∧ JSON.truthy v = false) →
  A.load proc disk = (Next [], disk)
  ∧ serve (A.get_series proc) disk = (Json 200 (A.Catalogue (JSON.Arr [])), disk).
Proof.
  intros Htext Hfalsy.
  assert (A.readJson (A.SERIES_FILE proc) (JSON.Arr []) disk = JSON.Arr []) as Hread.
  { unfold A.readJson, readFileSync. rewrite Htext.
    destruct Hfalsy as [-> | (v & Hparse & Hv)].
    - reflexivity.
    - case_bool_decide as Hempty; [ subst text; reflexivity | ].
      rewrite Hparse, Hv. reflexivity. }
  split.
  - unfold A.load. rewrite Hread. reflexivity.
  - unfold serve, A.get_series. rewrite Hread. reflexivity.
Qed.

Lemma falsy_store_reads_empty_witness :
  A.load proc0 {[ A.SERIES_FILE proc0 := "null" ]}
  = (Next [], {[ A.SERIES_FILE proc0 := "null" ]}).
Proof.
  apply (falsy_store_reads_empty proc0 {[ A.SERIES_FILE proc0 := "null" ]} "null").
  - apply lookup_singleton_eq.
  - right. exists JSON.Null. split; vm_compute; reflexivity.
Defined.

End RoutesA.

(** ** What the accounts of the file-backed server guarantee *)

Module AccountRoutesA.
Module A := VariantA.
Import AccountsA ProofsA ListFacts PathFacts FactsA AccountFactsA Samples.







(** [GET /api/me] and the check of the delete routes: [isAdmin] is
    reported false exactly when both delete routes answer 403 to the same
    token. *)
Theorem me_agrees_with_admin_gate proc username id epId d :
  ∃ b,
    serve (me proc (A.Bearer username)) d = (Json 200 (Me username b), d)
    ∧ (b = false
       ↔ serve (A.delete_series proc (A.Bearer username) id) d
         = (Json 403 (A.Error "Forbidden"), d))
    ∧ (b = false
       ↔ serve (A.delete_episode proc (A.Bearer username) id epId) d
         = (Json 403 (A.Error "Forbidden"), d)).
Proof.
  exists (A.isAdmin proc username). split; [ reflexivity | ].
  rewrite serve_delete_series, FactsA.serve_delete_episode.
  destruct (A.isAdmin proc username); cbn [negb]; split; split;
    try reflexivity; try discriminate.
  - destruct (A.load proc d) as [[c | r | e] d0] eqn:Hload; try discriminate.
    + destruct (list_find _ c) as [[i s] | ]; discriminate.
    + unfold A.load in Hload. destruct (A.json_collection _); discriminate.
  - destruct (A.load proc d) as [[c | r | e] d0] eqn:Hload; try discriminate.
    + destruct (list_find _ c) as [[i s] | ]; [ | discriminate ].
      destruct (list_find _ (A.series_episodes s)) as [[idx x] | ]; discriminate.
    + unfold A.load in Hload. destruct (A.json_collection _); discriminate.
Qed.



End AccountRoutesA.

(** ** What the routes of the in-memory server guarantee *)

Module RoutesB.
Module B := VariantB.
Import ProofsB ListFacts PathFacts FactsB FilterFacts Samples.

(** [authMiddleware], in front of every route that writes: a request
    without the header, or with a token that [jwt.verify] rejects, is
    answered 401 and the state is left as it was: no file part is
    stored. *)
Theorem unverified_token_rejected dir r a st :
  B.credentials r = Some a → (∀ u, a ≠ B.Bearer u) →
  serve (B.route_of dir r) st
  = (Json 401 (B.Error match a with
                       | B.NoHeader => "Token manquant"
                       | _ => "Token invalide"
                       end), st).
Proof. apply serve_unverified. Qed.

Lemma unverified_token_rejected_witness :
  serve (B.route_of dir0
           (B.PostSeries B.RejectedToken [video] (Some "bob") (Some "Bleach") None None
              two_episodes)) blob_state
  = (Json 401 (B.Error "Token invalide"), blob_state).
Proof.
  apply (unverified_token_rejected dir0
           (B.PostSeries B.RejectedToken [video] (Some "bob") (Some "Bleach") None None
              two_episodes) B.RejectedToken blob_state); [ reflexivity | discriminate ].
Defined.

(** [POST /api/series] that is not answered 200 leaves no trace: when the
    file parts went to free paths of their own, the clean-up of every
    failing branch gives the disk back, and the catalogue and the counter
    are as before. *)
Theorem failed_creation_restores_state dir auth uploads pseudo name desc image episodes st :
  B.fresh dir uploads (B.disk st) →
  status (serve (B.post_series dir auth uploads pseudo name desc image episodes) st).1
  ≠ 200 →
  (serve (B.post_series dir auth uploads pseudo name desc image episodes) st).2 = st.
Proof.
  intros Hfresh Hst.
  destruct (post_series_outcome dir auth uploads pseudo name desc image episodes st)
    as [(eps & fin & _ & _ & Hres) | (_ & _ & _ & Hback)].
  - rewrite Hres in Hst. cbn in Hst. contradiction.
  - exact (Hback Hfresh).
Qed.

Lemma failed_creation_restores_state_witness :
  (serve (B.post_series dir0 (B.Bearer bob) [video] (Some "bob") None None None
            two_episodes) (B.initial ∅)).2 = B.initial ∅.
Proof.
  apply (failed_creation_restores_state dir0 (B.Bearer bob) [video] (Some "bob") None
           None None two_episodes (B.initial ∅)).
  - split; [ repeat constructor; apply not_elem_of_nil | ].
    intros u Hu. apply lookup_empty.
  - vm_compute. discriminate.
Defined.

(** [POST /api/series] answered 200: the series is the last of the
    catalogue, the counter has advanced, and every file part is on the
    disk, whether an episode names it or not. *)
Theorem creation_keeps_uploads dir auth uploads pseudo name desc image episodes st s :
  (serve (B.post_series dir auth uploads pseudo name desc image episodes) st).1
  = Json 200 (B.OneSeries s) →
  (serve (B.post_series dir auth uploads pseudo name desc image episodes) st).2
  = {| B.series := B.series st ++ [s];
       B.nextSeriesId := B.increment (B.nextSeriesId st);
       B.disk := B.stored dir uploads (B.disk st) |}
  ∧ B.series_name s = or_else name "" ∧ B.series_pseudo s = or_else pseudo ""
  ∧ B.series_desc s = or_else desc "" ∧ B.series_image s = or_else image "".
Proof.
  intros Hok.
  destruct (post_series_outcome dir auth uploads pseudo name desc image episodes st)
    as [(eps & fin & _ & _ & Hres) | (Hst & _)].
  - rewrite Hres in *. cbv zeta in *. cbn [fst snd] in *. injection Hok as <-.
    repeat split; reflexivity.
  - rewrite Hok in Hst. cbn in Hst. contradiction.
Qed.

Lemma creation_keeps_uploads_witness :
  ∃ s,
    (serve (B.post_series dir0 (B.Bearer bob) [video] (Some "bob") (Some "Bleach") None
              None one_url_episode) (B.initial ∅)).1 = Json 200 (B.OneSeries s)
    ∧ B.disk (serve (B.post_series dir0 (B.Bearer bob) [video] (Some "bob") (Some "Bleach")
                       None None one_url_episode) (B.initial ∅)).2
      = B.stored dir0 [video] ∅.
Proof.
  eexists.
  assert ((serve (B.post_series dir0 (B.Bearer bob) [video] (Some "bob") (Some "Bleach")
                    None None one_url_episode) (B.initial ∅)).1
          = Json 200 (B.OneSeries _)) as Hok by (vm_compute; reflexivity).
  split; [ exact Hok | ].
  rewrite (proj1 (creation_keeps_uploads dir0 (B.Bearer bob) [video] (Some "bob")
                    (Some "Bleach") None None one_url_episode (B.initial ∅) _ Hok)).
  reflexivity.
Defined.

(** An episode added with a file part and removed again by an
    administrator: when the file went to a free path and no episode of the
    series already had the new identifier, the delete route finds the file
    that multer stored, removes it, and the state is what it was before
    the episode was added. *)
Theorem added_episode_removed_again dir user adm id u title url pseudo st e st1 :
  dir ≠ "" → B.disk st !! B.path (B.stage dir u) = None → B.isAdmin adm = true →
  serve (B.post_episode dir (B.Bearer user) id (Some u) title url pseudo) st
  = (Json 200 (B.OneEpisode e), st1) →
  (∀ i s e', list_find (λ x, B.series_id x = id) (B.series st) = Some (i, s) →
             e' ∈ B.series_episodes s → B.ep_id e' ≠ B.ep_id e) →
  serve (B.delete_episode dir (B.Bearer adm) id (B.ep_id e)) st1 = (Json 200 B.Success, st).
Proof.
  intros Hdir Hfree Hadmin Hadd Hnew.
  destruct (list_find (λ x, B.series_id x = id) (B.series st)) as [[i s] | ] eqn:Hfind.
  2: { rewrite (serve_post_episode_missing dir user id u title url pseudo st Hfind) in Hadd.
       discriminate. }
  rewrite (serve_post_episode_upload dir user id u title url pseudo st i s Hfind) in Hadd.
  cbv zeta in Hadd. injection Hadd as <- <-.
  pose proof (list_find_lookup _ _ _ _ Hfind) as Hi.
  assert (B.series_id s = id) as Hid by (apply list_find_Some in Hfind; tauto).
  set (e := {| B.ep_id := B.series_id s +:+ "-"
                          +:+ String_ (N.of_nat (length (B.series_episodes s)) + 1);
               B.ep_title := _; B.ep_src := _; B.ep_pseudo := _ |}) in *.
  set (st1 := {| B.series := <[i := B.push_episode s e]> (B.series st);
                 B.nextSeriesId := B.nextSeriesId st;
                 B.disk := writeFileSync (B.path (B.stage dir u)) (B.up_data u)
                             (B.disk st) |}).
  assert (list_find (λ x, B.series_id x = id) (B.series st1)
          = Some (i, B.push_episode s e)) as H1.
  { cbn [B.series st1].
    apply (list_find_insert _ _ i s (B.push_episode s e) Hfind). exact Hid. }
  assert (list_find (λ ep, B.ep_id ep = B.ep_id e)
            (B.series_episodes (B.push_episode s e))
          = Some (length (B.series_episodes s), e)) as H2.
  { cbn [B.push_episode B.series_episodes]. apply list_find_snoc; [ | reflexivity ].
    apply list_find_None, Forall_forall. intros e' He'. exact (Hnew i s e' eq_refl He'). }
  change (serve (B.delete_episode dir (B.Bearer adm) id (B.ep_id e)) st1
          = (Json 200 B.Success, st)).
  rewrite (serve_delete_episode_admin dir adm id (B.ep_id e) st1 i (B.push_episode s e)
             (length (B.series_episodes s)) e ("/uploads/" +:+ B.storage_filename u)
             Hadmin H1 H2 eq_refl).
  f_equal. rewrite startsWith_uploads.
  change ("/uploads/" +:+ B.storage_filename u)
    with ("/" +:+ "uploads" +:+ "/" +:+ B.storage_filename u).
  rewrite <- (path_join_twice dir "uploads" (B.storage_filename u) Hdir
                file_name_uploads) by discriminate.
  change (path_join (path_join dir "uploads") (B.storage_filename u))
    with (B.path (B.stage dir u)).
  cbn [B.series B.nextSeriesId B.disk st1].
  unfold writeFileSync. rewrite delete_insert_eq, delete_id by exact Hfree.
  cbn [B.push_episode B.series_episodes]. rewrite delete_snoc.
  change (B.set_episodes _ (B.series_episodes s))
    with (B.set_episodes (B.push_episode s e) (B.series_episodes s)).
  rewrite set_episodes_push, list_insert_insert_eq, list_insert_id by exact Hi.
  destruct st. reflexivity.
Qed.

Lemma added_episode_removed_again_witness :
  ∃ e st1,
    serve (B.post_episode dir0 (B.Bearer bob) "1" (Some video) (Some "E2") None None)
      (B.run dir0 ∅ [first_creation])
    = (Json 200 (B.OneEpisode e), st1)
    ∧ serve (B.delete_episode dir0 (B.Bearer admin) "1" (B.ep_id e)) st1
      = (Json 200 B.Success, B.run dir0 ∅ [first_creation]).
Proof.
  eexists _, _.
  assert (serve (B.post_episode dir0 (B.Bearer bob) "1" (Some video) (Some "E2") None None)
            (B.run dir0 ∅ [first_creation])
          = (Json 200 (B.OneEpisode _), _)) as Hadd by (vm_compute; reflexivity).
  split; [ exact Hadd | ].
  apply (added_episode_removed_again dir0 bob admin "1" video (Some "E2") None None
           (B.run dir0 ∅ [first_creation]) _ _);
    [ discriminate | vm_compute; reflexivity | reflexivity | exact Hadd | ].
  intros i s e' Hfind He'. vm_compute in Hfind. injection Hfind as <- <-.
  apply list_elem_of_singleton in He'. subst e'. vm_compute. discriminate.
Defined.

(** The identifiers of the series come from the counter: in every state
    reached from the start with the counter below 2^53 no two series of the
    catalogue have the same identifier. *)
Theorem series_ids_distinct dir d rs :
  (B.nextSeriesId (B.run dir d rs) < 2 ^ 53)%N →
  NoDup (B.series_id <$> B.series (B.run dir d rs)).
Proof. apply run_ids_distinct. Qed.

Lemma series_ids_distinct_witness :
  NoDup (B.series_id <$> B.series (B.run dir0 ∅ [first_creation; first_creation])).
Proof.
  apply (series_ids_distinct dir0 ∅ [first_creation; first_creation]).
  vm_compute. reflexivity.
Defined.

(** [POST /api/series] then [GET /api/series/:id] with the identifier that
    was answered: in a state reached from the start with the counter below
    2^53 the lookup answers the series that was created. *)
Theorem created_series_found dir d rs auth uploads pseudo name desc image episodes s st' :
  (B.nextSeriesId (B.run dir d rs) < 2 ^ 53)%N →
  serve (B.post_series dir auth uploads pseudo name desc image episodes) (B.run dir d rs)
  = (Json 200 (B.OneSeries s), st') →
  serve (B.get_one_series (B.series_id s)) st' = (Json 200 (B.OneSeries s), st').
Proof.
  intros Hlt Hpost. pose proof (run_ids_below dir d rs Hlt) as Hbelow.
  destruct (post_series_outcome dir auth uploads pseudo name desc image episodes
              (B.run dir d rs)) as [(eps & fin & _ & _ & Hres) | (Hst & _)].
  2: { rewrite Hpost in Hst. cbn in Hst. contradiction. }
  rewrite Hres in Hpost. cbv zeta in Hpost. injection Hpost as <- <-.
  unfold serve, B.get_one_series. rewrite bind_eq. cbn [get B.series B.series_id].
  rewrite list_find_snoc; [ reflexivity | | reflexivity ].
  apply list_find_None, Forall_forall. intros x Hx Hid.
  apply (ids_below_fresh (B.run dir d rs) Hbelow).
  apply list_elem_of_fmap. exists x. split; [ symmetry; exact Hid | exact Hx ].
Qed.

Lemma created_series_found_witness :
  ∃ s st',
    serve (B.post_series dir0 (B.Bearer bob) [] (Some "bob") (Some "Bleach") None None
             one_url_episode) (B.run dir0 ∅ [first_creation])
    = (Json 200 (B.OneSeries s), st')
    ∧ serve (B.get_one_series (B.series_id s)) st' = (Json 200 (B.OneSeries s), st').
Proof.
  eexists _, _.
  assert (serve (B.post_series dir0 (B.Bearer bob) [] (Some "bob") (Some "Bleach") None
                   None one_url_episode) (B.run dir0 ∅ [first_creation])
          = (Json 200 (B.OneSeries _), _)) as Hpost by (vm_compute; reflexivity).
  split; [ exact Hpost | ].
  apply (created_series_found dir0 ∅ [first_creation] (B.Bearer bob) [] (Some "bob")
           (Some "Bleach") None None one_url_episode _ _);
    [ vm_compute; reflexivity | exact Hpost ].
Defined.

(** Requests whose token does not say [isAdmin] only add: after any number
    of them every series that was in the catalogue is still at its place,
    with its identifier, name, description, cover and author, and with its
    episodes followed by those added since. *)
Theorem members_only_add dir d rs rs' :
  Forall (λ r, B.by_admin r = false) rs' →
  ∀ i s, B.series (B.run dir d rs) !! i = Some s →
    ∃ s', B.series (B.run dir d (rs ++ rs')) !! i = Some s' ∧ B.extends s s'.
Proof. intros Hrs'. exact (run_grown dir d rs rs' Hrs'). Qed.

Lemma members_only_add_witness :
  ∃ s s',
    B.series (B.run dir0 ∅ [first_creation]) !! 0 = Some s
    ∧ B.series
        (B.run dir0 ∅
           ([first_creation]
              ++ [B.DeleteSeries (B.Bearer bob) "1";
                  B.PostEpisode (B.Bearer bob) "1" None None
                    (Some "https://cdn.example/e2.mp4") None])) !! 0 = Some s'
    ∧ B.extends s s'.
Proof.
  assert (B.series (B.run dir0 ∅ [first_creation]) !! 0
          = Some {| B.series_id := "1"; B.series_name := "Naruto"; B.series_desc := "";
                    B.series_image := ""; B.series_pseudo := "bob";
                    B.series_episodes :=
                      [{| B.ep_id := "1-1"; B.ep_title := Some (JSON.Str "E1");
                          B.ep_src := Some (JSON.Str "https://cdn.example/e1.mp4");
                          B.ep_pseudo := "bob" |}] |})
    as Hs by (vm_compute; reflexivity).
  eexists.
  destruct (members_only_add dir0 ∅ [first_creation]
              [B.DeleteSeries (B.Bearer bob) "1";
               B.PostEpisode (B.Bearer bob) "1" None None
                 (Some "https://cdn.example/e2.mp4") None]
              ltac:(repeat constructor) 0 _ Hs) as (s' & Hs' & Hext).
  exists s'. split; [ exact Hs | ]. split; [ exact Hs' | exact Hext ].
Defined.



(** The identifier of an added episode is the identifier of the series and
    the number of its episodes plus one.  So once the administrator has
    removed the first episode of a series whose last episode carries the
    number of episodes, the next episode that is added gets the identifier
    of that last episode: two episodes of the series then share an
    identifier. *)
Theorem episode_identifier_reused dir adm user id title url pseudo st i s e0 rest src0 e1 :
  B.isAdmin adm = true →
  list_find (λ x, B.series_id x = id) (B.series st) = Some (i, s) →
  B.series_episodes s = e0 :: rest → B.ep_src e0 = Some (JSON.Str src0) →
  last rest = Some e1 →
  B.ep_id e1 = B.series_id s +:+ "-" +:+ String_ (N.of_nat (length rest) + 1) →
  falsy url = false →
  let st1 := (serve (B.delete_episode dir (B.Bearer adm) id (B.ep_id e0)) st).2 in
  let res := serve (B.post_episode dir (B.Bearer user) id None title url pseudo) st1 in
  ∃ e s',
    res.1 = Json 200 (B.OneEpisode e)
    ∧ B.series res.2 !! i = Some s'
    ∧ B.series_episodes s' = rest ++ [e]
    ∧ B.ep_id e = B.ep_id e1.
Proof.
  intros Hadmin Hfind Heps Hsrc Hlast Hid Hurl. cbv zeta.
  assert (list_find (λ ep, B.ep_id ep = B.ep_id e0) (B.series_episodes s) = Some (0, e0))
    as Hep.
  { rewrite Heps. apply list_find_Some. split; [ reflexivity | ].
    split; [ reflexivity | ]. intros j y _ Hj. lia. }
  rewrite (serve_delete_episode_admin dir adm id (B.ep_id e0) st i s 0 e0 src0
             Hadmin Hfind Hep Hsrc).
  cbn [snd]. rewrite Heps. cbn [delete list_delete].
  assert (B.series_id s = id) as Hsid by (apply list_find_Some in Hfind; tauto).
  erewrite serve_post_episode_url;
    [ | cbn [B.series]; apply (list_find_insert _ _ i s (B.set_episodes s rest) Hfind);
        exact Hsid
      | exact Hurl ].
  cbv zeta. cbn [fst snd B.series B.set_episodes B.series_episodes B.series_id].
  eexists _, (B.push_episode (B.set_episodes s rest) _).
  split; [ reflexivity | ]. split; [ | split ].
  - rewrite list_insert_insert_eq. apply list_lookup_insert_eq.
    apply list_find_lookup in Hfind. eapply lookup_lt_Some; eauto.
  - reflexivity.
  - cbn [B.ep_id]. symmetry. exact Hid.
Qed.

Lemma episode_identifier_reused_witness :
  ∃ e s',
    (serve (B.post_episode dir0 (B.Bearer bob) "1" None None
              (Some "https://cdn.example/e3.mp4") None)
       (serve (B.delete_episode dir0 (B.Bearer admin) "1" "1-1")
          (B.run dir0 ∅
             [B.PostSeries (B.Bearer bob) [video] (Some "bob") (Some "Bleach") None None
                two_episodes])).2).1 = Json 200 (B.OneEpisode e)
    ∧ B.series
        (serve (B.post_episode dir0 (B.Bearer bob) "1" None None
                  (Some "https://cdn.example/e3.mp4") None)
           (serve (B.delete_episode dir0 (B.Bearer admin) "1" "1-1")
              (B.run dir0 ∅
                 [B.PostSeries (B.Bearer bob) [video] (Some "bob") (Some "Bleach") None
                    None two_episodes])).2).2 !! 0 = Some s'
    ∧ B.series_episodes s'
      = [{| B.ep_id := "1-2"; B.ep_title := Some (JSON.Str "E2");
            B.ep_src := Some (JSON.Str "https://cdn.example/e2.mp4");
            B.ep_pseudo := "bob" |}] ++ [e]
    ∧ B.ep_id e = "1-2".
Proof.
  pose (e1 := {| B.ep_id := "1-1"; B.ep_title := Some (JSON.Str "E1");
                 B.ep_src := Some (JSON.Str "/uploads/video-1700000000000-42.mp4");
                 B.ep_pseudo := "bob" |}).
  pose (e2 := {| B.ep_id := "1-2"; B.ep_title := Some (JSON.Str "E2");
                 B.ep_src := Some (JSON.Str "https://cdn.example/e2.mp4");
                 B.ep_pseudo := "bob" |}).
  pose (s := {| B.series_id := "1"; B.series_name := "Bleach"; B.series_desc := "";
                B.series_image := ""; B.series_pseudo := "bob";
                B.series_episodes := [e1; e2] |}).
  apply (episode_identifier_reused dir0 admin bob "1" None
           (Some "https://cdn.example/e3.mp4") None
           (B.run dir0 ∅
              [B.PostSeries (B.Bearer bob) [video] (Some "bob") (Some "Bleach") None None
                 two_episodes])
           0 s e1 [e2] "/uploads/video-1700000000000-42.mp4" e2);
    vm_compute; reflexivity.
Defined.

(** The [fileFilter] of multer tests by containment: a file part is
    accepted exactly when one of the five words is a part of its extension
    in lower case and one is a part of its MIME type as it is.  An
    extension or a type that only contains a word is accepted too, and an
    upper-case MIME type is not. *)
Theorem file_filter_by_containment extname mimetype :
  ascii_only extname →
  B.fileFilter extname mimetype = true
  ↔ (∃ w, w ∈ B.allowedTypes ∧ part_of w (toLowerCase extname))
    ∧ (∃ w, w ∈ B.allowedTypes ∧ part_of w mimetype).
Proof.
  intros _. unfold B.fileFilter. rewrite andb_true_iff, !allowedTypes_test_part.
  reflexivity.
Qed.

Lemma file_filter_by_containment_witness :
  B.fileFilter ".MP4x" "application/x-mov" = true
  ↔ (∃ w, w ∈ B.allowedTypes ∧ part_of w (toLowerCase ".MP4x"))
    ∧ (∃ w, w ∈ B.allowedTypes ∧ part_of w "application/x-mov").
Proof.
  apply (file_filter_by_containment ".MP4x" "application/x-mov").
  unfold ascii_only. repeat constructor.
Defined.

End RoutesB.

(** ** What the accounts of the in-memory server guarantee *)

Module AccountRoutesB.
Import AccountsB ListFacts AccountFactsB.
Import (hints) Samples.


(** The initial account can always log in with the password [admin]: when
    [bcrypt.compare] accepts the hashes of [bcrypt.hash], the login is
    answered 200 with a token that says [isAdmin], whatever was served
    before. *)
Theorem default_admin_logs_in `{Bcrypt} salt es :
  (∀ p rounds s, bcrypt_compare p (bcrypt_hash p rounds s) = true) →
  answer (schedule salt es) (Login (Some "admin") (Some "admin"))
  = Some (Json 200 (Token "admin" true)).
Proof.
  intros Hbcrypt. cbn [answer]. rewrite serve_login_memory.
  destruct (schedule_accounts_ok salt es) as [(rest & Hus & _) _]. rewrite Hus.
  change (falsy (Some "admin") || falsy (Some "admin")) with false.
  change (or_else (Some "admin") "") with "admin".
  assert (list_find (λ u, username u = "admin") (admin salt :: rest)
          = Some (0, admin salt)) as ->.
  { apply list_find_Some. split; [ reflexivity | ]. split; [ reflexivity | ].
    intros j y _ Hj. lia. }
  cbn [password admin]. rewrite Hbcrypt. reflexivity.
Qed.

Lemma default_admin_logs_in_witness :
  answer (schedule "salt" [Register (Some "admin") (Some "hunter22"); Hashed 0 "s";
                           Register (Some "Admin") (Some "hunter22"); Hashed 0 "s"])
    (Login (Some "admin") (Some "admin"))
  = Some (Json 200 (Token "admin" true)).
Proof.
  apply (default_admin_logs_in "salt"
           [Register (Some "admin") (Some "hunter22"); Hashed 0 "s";
            Register (Some "Admin") (Some "hunter22"); Hashed 0 "s"]).
  intros p rounds s. apply String.eqb_refl.
Defined.

(** When every registration is hashed before the next request arrives, no
    two users have the same name. *)
Theorem registrations_in_turn_unique `{Bcrypt} salt es :
  one_at_a_time es → NoDup (username <$> users (schedule salt es)).
Proof.
  intros Hes. unfold schedule. apply one_at_a_time_ok; [ reflexivity | | exact Hes ].
  cbn. apply NoDup_singleton.
Qed.

Lemma registrations_in_turn_unique_witness :
  NoDup (username <$>
           users (schedule "salt" [Register (Some "bob") (Some "hunter22"); Hashed 0 "s1";
                                   Register (Some "bob") (Some "letmein1"); Hashed 0 "s2"])).
Proof.
  apply (registrations_in_turn_unique "salt"
           [Register (Some "bob") (Some "hunter22"); Hashed 0 "s1";
            Register (Some "bob") (Some "letmein1"); Hashed 0 "s2"]).
  exact I.
Defined.

(** Two registrations of one name that are both looked up before either is
    pushed: both are answered 200, and the array ends with two users of
    that name. *)
Theorem interleaved_registrations_duplicate `{Bcrypt} sv u p p' s s' :
  hashing sv = [] →
  falsy u || falsy p = false → falsy u || falsy p' = false →
  3 ≤ code_unit_length (or_else u "") →
  6 ≤ code_unit_length (or_else p "") → 6 ≤ code_unit_length (or_else p' "") →
  list_find (λ x, username x = or_else u "") (users sv) = None →
  let sv2 := handle (handle sv (Register u p)) (Register u p') in
  let sv3 := handle sv2 (Hashed 0 s) in
  let sv4 := handle sv3 (Hashed 0 s') in
  answer sv2 (Hashed 0 s) = Some (Json 200 (Token (or_else u "") false))
  ∧ answer sv3 (Hashed 0 s') = Some (Json 200 (Token (or_else u "") false))
  ∧ users sv4
    = users sv ++ [{| username := or_else u "";
                      password := bcrypt_hash (or_else p "") 8 s; isAdmin := false |};
                   {| username := or_else u "";
                      password := bcrypt_hash (or_else p' "") 8 s'; isAdmin := false |}].
Proof.
  intros Hh Hf Hf' Hu Hp Hp' Hfind. cbv zeta.
  apply Nat.ltb_ge in Hu, Hp, Hp'.
  cbn [handle]. rewrite (register_begin_checks u p), Hf, Hu, Hp, Hfind.
  cbn [users hashing]. rewrite (register_begin_checks u p'), Hf', Hu, Hp', Hfind, Hh.
  cbn [users hashing app answer lookup list_lookup delete list_delete].
  rewrite !serve_register_push.
  cbn [fst snd users hashing lookup list_lookup delete list_delete reg_username
         reg_password].
  rewrite <- app_assoc. repeat split; reflexivity.
Qed.

Lemma interleaved_registrations_duplicate_witness :
  users (handle
           (handle
              (handle (handle (schedule "salt" []) (Register (Some "bob") (Some "hunter22")))
                 (Register (Some "bob") (Some "letmein1")))
              (Hashed 0 "s1"))
           (Hashed 0 "s2"))
  = users (schedule "salt" [])
      ++ [{| username := "bob"; password := bcrypt_hash "hunter22" 8 "s1";
             isAdmin := false |};
          {| username := "bob"; password := bcrypt_hash "letmein1" 8 "s2";
             isAdmin := false |}].
Proof.
  apply (interleaved_registrations_duplicate (schedule "salt" []) (Some "bob")
           (Some "hunter22") (Some "letmein1") "s1" "s2");
    first [ reflexivity | vm_compute; lia ].
Defined.

End AccountRoutesB.
